(** * sonner-solidjs: the toast engine of [src/index.tsx]

    A shallow embedding of the parts of [src/index.tsx] that decide the
    lifecycle of a toast: the stacking offset computed from the height
    ledger, the auto-close timer with its pause/resume bookkeeping, the
    swipe gesture handlers, [deleteToast], and the [useSonner] / [Toaster]
    subscribers of the toast registry.

    Conventions of the embedding.
    - A JavaScript number that is known to be finite (a measured height,
      a pointer coordinate, the configured gap) is a rational [Q]; rounding
      is not modelled.  A number that can be [Infinity] or [NaN] in the
      source (a duration, a velocity) is a [num].
    - [new Date().getTime()] is an integer number of milliseconds, a [Z]
      that every event carries.
    - Array indices returned by [findIndex] are [Z], because [-1] is one of
      them.
    - A Solid signal or a [let] variable of the component is a field of the
      component state; a handler is a function from state to state. *)

From Stdlib Require Import ZArith QArith Qabs Lia Lqa Bool Ascii String.
From stdpp Require Import gmap strings list.

Local Open Scope Z_scope.

(** ** JavaScript numbers *)

Module JS.

(** A number that may be infinite or not-a-number. *)
Inductive num : Type :=
  | Fin (q : Q)
  | PInf
  | NInf
  | NaN.

(** [x === Infinity] *)
Definition is_Infinity (x : num) : bool :=
  match x with PInf => true | _ => false end.

(** [Number.isFinite(x)] *)
Definition isFinite (x : num) : bool :=
  match x with Fin _ => true | _ => false end.

(** [x - z] for a finite integer [z]. *)
Definition sub_int (x : num) (z : Z) : num :=
  match x with
  | Fin q => Fin (q - inject_Z z)
  | PInf => PInf
  | NInf => NInf
  | NaN => NaN
  end.

(** [a / b] for finite [a] and [b]: a zero divisor gives an infinity, or
    [NaN] when the dividend is zero as well. *)
Definition div (a b : Q) : num :=
  if Qeq_bool b 0 then
    if Qeq_bool a 0 then NaN
    else if Qle_bool 0 a then PInf else NInf
  else Fin (a / b).

(** [x > q] for a finite [q]; every comparison with [NaN] is false. *)
Definition gt (x : num) (q : Q) : bool :=
  match x with
  | Fin v => negb (Qle_bool v q)
  | PInf => true
  | NInf => false
  | NaN => false
  end.

(** [a < b], [a >= b] and [a > b] on finite numbers. *)
Definition ltb (a b : Q) : bool := negb (Qle_bool b a).
Definition geb (a b : Q) : bool := Qle_bool b a.
Definition gtb (a b : Q) : bool := negb (Qle_bool a b).

(** [Array.prototype.findIndex]: the index of the first element that
    satisfies [p], or [-1]. *)
Fixpoint findIndex_from {A} (p : A -> bool) (l : list A) (i : Z) : Z :=
  match l with
  | [] => -1
  | x :: l' => if p x then i else findIndex_from p l' (i + 1)
  end.

Definition findIndex {A} (p : A -> bool) (l : list A) : Z :=
  findIndex_from p l 0.

(** [i || 0] on a number: [0] is the only falsy index. *)
Definition or_zero (i : Z) : Z := if i =? 0 then 0 else i.

End JS.

(** ** Data model ([src/types.ts]) *)

(** [id: number | string] *)
Inductive ToastId : Type :=
  | IdNum (n : Z)
  | IdStr (s : string).

#[global] Instance ToastId_eq_dec : EqDecision ToastId.
Proof. solve_decision. Defined.

(** [a === b] on ids. *)
Definition id_eqb (a b : ToastId) : bool := bool_decide (a = b).

(** [HeightT] *)
Record HeightT : Type := mkHeight {
  height : Q;
  toastId : ToastId;
  position : string
}.

(** [Position] *)
Inductive Position : Type :=
  | TopLeft | TopRight | BottomLeft | BottomRight | TopCenter | BottomCenter.

Definition position_string (pos : Position) : string :=
  match pos with
  | TopLeft => "top-left"
  | TopRight => "top-right"
  | BottomLeft => "bottom-left"
  | BottomRight => "bottom-right"
  | TopCenter => "top-center"
  | BottomCenter => "bottom-center"
  end.

(** The anchors a position names: the vertical one, and the horizontal
    one unless the position is centred. *)
Definition verticalAnchor (pos : Position) : string :=
  match pos with
  | TopLeft | TopRight | TopCenter => "top"
  | BottomLeft | BottomRight | BottomCenter => "bottom"
  end.

Definition horizontalAnchor (pos : Position) : option string :=
  match pos with
  | TopLeft | BottomLeft => Some "left"%string
  | TopRight | BottomRight => Some "right"%string
  | TopCenter | BottomCenter => None
  end.

(** [SwipeDirection] *)
Definition SwipeDirection : list string := ["top"; "right"; "bottom"; "left"]%string.

(** ** Layout: [heightIndex], [toastsHeightBefore], [offset] *)

Module Layout.

(** [props.heights.findIndex((height) => height.toastId === toast.id) || 0] *)
Definition heightIndex (heights : list HeightT) (id : ToastId) : Z :=
  JS.or_zero (JS.findIndex (fun h => id_eqb (toastId h) id) heights).

(** The loop of [toastsHeightBefore]: [hs] is what is left of
    [props.heights] from index [i] on. *)
Fixpoint heightBefore_loop (hs : list HeightT) (i hidx : Z) (total : Q) : Q :=
  match hs with
  | [] => total
  | h :: hs' =>
      if i >=? hidx then total
      else heightBefore_loop hs' (i + 1) hidx (total + height h)%Q
  end.

Definition toastsHeightBefore (heights : list HeightT) (id : ToastId) : Q :=
  heightBefore_loop heights 0 (heightIndex heights id) 0%Q.

(** [heightIndex() * gap + toastsHeightBefore()] *)
Definition offset (heights : list HeightT) (gap : Q) (id : ToastId) : Q :=
  (inject_Z (heightIndex heights id) * gap + toastsHeightBefore heights id)%Q.

(** [heights().filter((h) => h.position === toast.position)], the
    [heights] prop the [Toaster] hands to a toast whose [position] is
    [pos]. *)
Definition heightsAt (pos : string) (heights : list HeightT) : list HeightT :=
  List.filter (fun h => bool_decide (position h = pos)) heights.

(** The sum the specification speaks of: the heights of the entries
    before index [k]. *)
Definition sumHeightsBefore (k : nat) (heights : list HeightT) : Q :=
  fold_right (fun h acc => (height h + acc)%Q) 0%Q (firstn k heights).

End Layout.

(** ** Toast records

    A [ToastT] is a JavaScript object: apart from the mandatory [id] every
    field is optional, so the fields are a finite map from property names
    to values.  What the engine never inspects (JSX elements, callbacks)
    is an opaque handle. *)

Inductive JSVal : Type :=
  | VUndefined
  | VBool (b : bool)
  | VNum (n : JS.num)
  | VStr (s : string)
  | VFun (f : string)           (* a callback *)
  | VAction (onClick : string)  (* an [Action]: an object with a [label] *)
  | VElem (e : string).         (* a [JSX.Element] *)

Record ToastT : Type := mkToast {
  toast_id : ToastId;
  fields : gmap string JSVal
}.

(** [toast.k]; a missing property reads as [undefined]. *)
Definition get (t : ToastT) (k : string) : JSVal :=
  default VUndefined (fields t !! k).

(** [Boolean(v)] *)
Definition truthy (v : JSVal) : bool :=
  match v with
  | VUndefined => false
  | VBool b => b
  | VNum (JS.Fin q) => negb (Qeq_bool q 0)
  | VNum JS.NaN => false
  | VNum _ => true
  | VStr s => negb (String.eqb s "")
  | VFun _ | VAction _ | VElem _ => true
  end.

(** [v ?? d] *)
Definition nullish (v : JSVal) : bool :=
  match v with VUndefined => true | _ => false end.

(** [toast.duration], of type [number | undefined]. *)
Definition toast_duration (t : ToastT) : option JS.num :=
  match get t "duration" with VNum n => Some n | _ => None end.

(** [toast.position], of type [Position | undefined]. *)
Definition toast_position (t : ToastT) : option string :=
  match get t "position" with VStr s => Some s | _ => None end.

(** [isAction(action)]: [!!action && action.label !== undefined] *)
Definition isAction (v : JSVal) : bool :=
  match v with VAction _ => true | _ => false end.

(** ** Constants of [src/index.tsx] *)

Definition VISIBLE_TOASTS_AMOUNT : Z := 3.
Definition TOAST_LIFETIME : JS.num := JS.Fin 4000.
Definition GAP : Q := 14.
Definition SWIPE_THRESHOLD : Q := 45.
Definition TIME_BEFORE_UNMOUNT : Z := 200.

(** ** [getDefaultSwipeDirections] *)

(** [s.split('-')]: the pieces between the dashes; an empty string gives
    one empty piece. *)
Fixpoint split_dash (s : string) : list string :=
  match s with
  | EmptyString => [EmptyString]
  | String c s' =>
      if Ascii.eqb c "-"%char then EmptyString :: split_dash s'
      else match split_dash s' with
           | piece :: pieces => String c piece :: pieces
           | [] => [String c EmptyString]
           end
  end.

(** A piece of a position: a string without a dash. *)
Fixpoint dashFree (s : string) : bool :=
  match s with
  | EmptyString => true
  | String c s' => negb (Ascii.eqb c "-"%char) && dashFree s'
  end.

(** [if (y) directions.push(y)] for a destructured piece that may be
    [undefined]. *)
Definition push_if_truthy (piece : option string) (directions : list string) : list string :=
  match piece with
  | Some s => if String.eqb s "" then directions else directions ++ [s]
  | None => directions
  end.

Definition getDefaultSwipeDirections (position : string) : list string :=
  let parts := split_dash position in
  let y := nth_error parts 0 in
  let x := nth_error parts 1 in
  push_if_truthy x (push_if_truthy y []).

(** [directions.includes(d)] *)
Definition includes (directions : list string) (d : string) : bool :=
  existsb (String.eqb d) directions.

(** ** The [Toast] component

    One mounted [Toast] and the part of the [Toaster] it shares with its
    siblings (the [heights] signal). *)

Inductive Axis : Type := AxisX | AxisY.
Inductive SwipeOutDirection : Type := SwLeft | SwRight | SwUp | SwDown.

(** A caller-supplied function the component invokes. *)
Inductive Call : Type :=
  | OnDismiss
  | OnAutoClose
  | CancelOnClick
  | ActionOnClick.

#[global] Instance Call_eq_dec : EqDecision Call.
Proof. solve_decision. Defined.

(** What the component reads from its props when a handler runs. *)
Record Props : Type := mkProps {
  toast : ToastT;                           (* [props.toast] *)
  durationFromToaster : option JS.num;      (* [props.duration] *)
  closeButtonFromToaster : bool;            (* [props.closeButton] *)
  list_position : string;                   (* [props.position] *)
  gap : Q;                                  (* [props.gap] *)
  swipeDirections : option (list string);   (* [props.swipeDirections] *)
  expanded : bool;                          (* [props.expanded] *)
  interacting : bool;                       (* [props.interacting] *)
  documentHidden : bool                     (* [isDocumentHidden()] *)
}.

(** The countdown: [remainingTime], the two timestamps, and the pending
    [setTimeout] of the current run of the timer effect, kept as the time
    of the call and the delay it was given. *)
Record TimerState : Type := mkTimer {
  remainingTime : JS.num;
  closeTimerStartTimeRef : Z;
  lastCloseTimerStartTimeRef : Z;
  timeoutId : option (Z * JS.num)
}.

(** The gesture: signals, [let] variables and the two custom properties
    [--swipe-amount-x] and [--swipe-amount-y] of [toastRef.style].  A
    property that was never set reads as the empty string, which
    [Number] turns into [0]; so the properties start at [0]. *)
Record GestureState : Type := mkGesture {
  swipeDirection : option Axis;
  swipeOutDirection : option SwipeOutDirection;
  swiping : bool;
  swipeOut : bool;
  isSwiped : bool;
  dragStartTime : option Z;
  pointerStartRef : option (Q * Q);
  swipeAmountX : Q;
  swipeAmountY : Q
}.

Record Inst : Type := mkInst {
  timer : TimerState;
  gesture : GestureState;
  removed : bool;
  offsetBeforeRemove : Q;
  unmountTimers : list Z;   (* due times of the pending [removeToast] timeouts *)
  disposed : bool;          (* [removeToast] ran: the component is gone *)
  calls : list Call         (* the caller's functions invoked so far, oldest first *)
}.

(** The [heights] signal of the [Toaster] and one of its toasts. *)
Record World : Type := mkWorld {
  heights : list HeightT;
  inst : Inst
}.

Definition set_timer (t : TimerState) (i : Inst) : Inst :=
  mkInst t (gesture i) (removed i) (offsetBeforeRemove i) (unmountTimers i)
         (disposed i) (calls i).

Definition set_gesture (g : GestureState) (i : Inst) : Inst :=
  mkInst (timer i) g (removed i) (offsetBeforeRemove i) (unmountTimers i)
         (disposed i) (calls i).

Definition set_offsetBeforeRemove (o : Q) (i : Inst) : Inst :=
  mkInst (timer i) (gesture i) (removed i) o (unmountTimers i)
         (disposed i) (calls i).

Definition add_call (c : Call) (i : Inst) : Inst :=
  mkInst (timer i) (gesture i) (removed i) (offsetBeforeRemove i)
         (unmountTimers i) (disposed i) (calls i ++ [c]).

(** [toast.onDismiss?.(toast)] and [toast.onAutoClose?.(toast)]: the call
    is made when the property is not nullish. *)
Definition call_optional (t : ToastT) (k : string) (c : Call) (i : Inst) : Inst :=
  if nullish (get t k) then i else add_call c i.

Definition isLoading (p : Props) : bool :=
  match get (toast p) "type" with
  | VStr s => String.eqb s "loading"
  | _ => false
  end.

Definition dismissible (p : Props) : bool := truthy (get (toast p) "dismissible").

(** [toast.closeButton ?? closeButtonFromToaster] *)
Definition closeButton (p : Props) : bool :=
  match get (toast p) "closeButton" with
  | VUndefined => closeButtonFromToaster p
  | v => truthy v
  end.

(** The [heights] prop: [heights().filter((h) => h.position ===
    toast.position)].  A toast without a [position] of its own matches no
    entry, since every entry carries a position. *)
Definition props_heights (p : Props) (hs : list HeightT) : list HeightT :=
  match toast_position (toast p) with
  | Some pos => Layout.heightsAt pos hs
  | None => []
  end.

(** [offset()] *)
Definition offset (p : Props) (w : World) : Q :=
  Layout.offset (props_heights p (heights w)) (gap p) (toast_id (toast p)).

(** The value of the [--offset] custom property:
    [removed() ? offsetBeforeRemove() : offset()]. *)
Definition reportedOffset (p : Props) (w : World) : Q :=
  if removed (inst w) then offsetBeforeRemove (inst w) else offset p w.

(** The state of a component that was just created: the values of the
    [createSignal] calls and of the [let] declarations. *)
Definition initialRemainingTime (p : Props) : JS.num :=
  match toast_duration (toast p) with
  | Some d => d
  | None => match durationFromToaster p with
            | Some d => d
            | None => TOAST_LIFETIME
            end
  end.

Definition initialInst (p : Props) : Inst :=
  mkInst (mkTimer (initialRemainingTime p) 0 0 None)
         (mkGesture None None false false false None None 0 0)
         false 0 [] false [].

(** *** [deleteToast] *)

(** [setRemoved(true); setOffsetBeforeRemove(offset());
    setHeights((h) => h.filter(...)); setTimeout(removeToast, 200)].
    The offset is read before the ledger changes. *)
Definition deleteToast (p : Props) (now : Z) (w : World) : World :=
  let i := inst w in
  mkWorld
    (List.filter (fun h => negb (id_eqb (toastId h) (toast_id (toast p)))) (heights w))
    (mkInst (timer i) (gesture i) true (offset p w)
            (unmountTimers i ++ [now + TIME_BEFORE_UNMOUNT]) (disposed i) (calls i)).

Definition upd_inst (f : Inst -> Inst) (w : World) : World :=
  mkWorld (heights w) (f (inst w)).

(** *** The timer effect *)

(** The largest delay a timer holds: the delay is kept as a signed 32-bit
    integer. *)
Definition TIMEOUT_MAX : Q := 2147483647.

(** The delay [setTimeout] uses for a number: a negative, infinite or
    not-a-number delay is a delay of [0], and so is a delay above
    [TIMEOUT_MAX], which the timer cannot hold: the callback runs at
    once. *)
Definition timeout_delay (d : JS.num) : Q :=
  match d with
  | JS.Fin q => if Qle_bool 0 q && Qle_bool q TIMEOUT_MAX then q else 0%Q
  | _ => 0%Q
  end.

Definition pauseTimer (now : Z) (t : TimerState) : TimerState :=
  let remaining :=
    if lastCloseTimerStartTimeRef t <? closeTimerStartTimeRef t
    then JS.sub_int (remainingTime t) (now - closeTimerStartTimeRef t)
    else remainingTime t in
  mkTimer remaining (closeTimerStartTimeRef t) now (timeoutId t).

(** The time at which a timeout set at [since] with delay [d] runs. *)
Definition due (pending : Z * JS.num) : Q :=
  (inject_Z (fst pending) + timeout_delay (snd pending))%Q.

Definition startTimer (now : Z) (t : TimerState) : TimerState :=
  if JS.is_Infinity (remainingTime t) then t
  else mkTimer (remainingTime t) now (lastCloseTimerStartTimeRef t)
               (Some (now, remainingTime t)).

(** [props.expanded || props.interacting || isDocumentHidden()] *)
Definition paused (p : Props) : bool :=
  expanded p || interacting p || documentHidden p.

(** One run of the effect.  Solid runs the [onCleanup] of the previous
    run first, which clears the timeout that run had set. *)
Definition timerEffect (p : Props) (now : Z) (t : TimerState) : TimerState :=
  let t := mkTimer (remainingTime t) (closeTimerStartTimeRef t)
                   (lastCloseTimerStartTimeRef t) None in
  match toast_duration (toast p) with
  | Some JS.PInf => t
  | _ =>
      if isLoading p then t
      else if paused p then pauseTimer now t
      else startTimer now t
  end.

(** The callback handed to [setTimeout]:
    [toast.onAutoClose?.(toast); deleteToast()].  It runs when the pending
    timeout is due; a timeout runs once. *)
Definition autoCloseTimeout (p : Props) (now : Z) (w : World) : World :=
  match timeoutId (timer (inst w)) with
  | Some pending =>
      if Qle_bool (due pending) (inject_Z now) then
        let t := timer (inst w) in
        let w := upd_inst (set_timer (mkTimer (remainingTime t) (closeTimerStartTimeRef t)
                                              (lastCloseTimerStartTimeRef t) None)) w in
        let w := upd_inst (call_optional (toast p) "onAutoClose" OnAutoClose) w in
        deleteToast p now w
      else w
  | None => w
  end.

(** The effect [if (toast.delete) deleteToast()].  [deleteToast] reads
    [offset()] while the effect runs, so the effect depends on the offset
    as well as on [toast.delete]: when the [setHeights] of [deleteToast]
    has changed the offset, the effect runs once more, and [deleteToast]
    with it.  The second run finds no entry of the toast to remove and
    leaves the offset as it is, so there is no third. *)
Definition deleteEffect (p : Props) (now : Z) (w : World) : World :=
  if truthy (get (toast p) "delete") then
    let w1 := deleteToast p now w in
    if Qeq_bool (offset p w1) (offset p w) then w1 else deleteToast p now w1
  else w.

(** The callback of [setTimeout(() => removeToast(toast),
    TIME_BEFORE_UNMOUNT)]: the toast leaves the store and its component is
    disposed, which clears the timeout of the timer effect. *)
Definition unmount (now : Z) (w : World) : World :=
  let i := inst w in
  if existsb (fun at_ => at_ <=? now) (unmountTimers i) then
    let t := timer i in
    mkWorld (heights w)
      (mkInst (mkTimer (remainingTime t) (closeTimerStartTimeRef t)
                       (lastCloseTimerStartTimeRef t) None)
              (gesture i) (removed i) (offsetBeforeRemove i)
              (List.filter (fun at_ => negb (at_ <=? now)) (unmountTimers i))
              true (calls i))
  else w.

(** *** The height ledger: the effect inside [onMount] *)

(** [toast.position ?? props.position] *)
Definition ledgerPosition (p : Props) : string :=
  match toast_position (toast p) with
  | Some s => s
  | None => list_position p
  end.

(** The function handed to [setHeights] for the toast [id] measured at
    [newHeight]. *)
Definition recordHeight (id : ToastId) (pos : string) (newHeight : Q)
    (hs : list HeightT) : list HeightT :=
  if existsb (fun h => id_eqb (toastId h) id) hs
  then map (fun h => if id_eqb (toastId h) id
                     then mkHeight newHeight (toastId h) (position h) else h) hs
  else mkHeight newHeight id pos :: hs.

(** *** The gesture handlers *)

(** [onDragEnd] *)
Definition onDragEnd (g : GestureState) : GestureState :=
  mkGesture None (swipeOutDirection g) false (swipeOut g) (isSwiped g)
            (dragStartTime g) None (swipeAmountX g) (swipeAmountY g).

(** [onPointerDown]; [isButton] is [event.target.tagName === 'BUTTON']. *)
Definition onPointerDown (p : Props) (now : Z) (x y : Q) (isButton : bool)
    (w : World) : World :=
  if isLoading p || negb (dismissible p) then w
  else
    let i := inst w in
    let g := gesture i in
    let g1 := mkGesture (swipeDirection g) (swipeOutDirection g) (swiping g)
                        (swipeOut g) (isSwiped g) (Some now) (pointerStartRef g)
                        (swipeAmountX g) (swipeAmountY g) in
    let i1 := set_offsetBeforeRemove (offset p w) (set_gesture g1 i) in
    if isButton then mkWorld (heights w) i1
    else
      let g2 := mkGesture (swipeDirection g1) (swipeOutDirection g1) true
                          (swipeOut g1) (isSwiped g1) (dragStartTime g1)
                          (Some (x, y)) (swipeAmountX g1) (swipeAmountY g1) in
      mkWorld (heights w) (set_gesture g2 i1).

(** [getDampening] *)
Definition getDampening (delta : Q) : Q :=
  let factor := (Qabs delta / 20)%Q in
  (1 / (1.5 + factor))%Q.

(** The amount [onPointerMove] applies along one axis: [neg] and [pos]
    name the two directions of the axis ([top]/[bottom] or
    [left]/[right]). *)
Definition axisAmount (dirs : list string) (neg pos : string) (delta : Q) : Q :=
  if includes dirs neg || includes dirs pos then
    if (includes dirs neg && JS.ltb delta 0) || (includes dirs pos && JS.gtb delta 0)
    then delta
    else
      let dampenedDelta := (delta * getDampening delta)%Q in
      if JS.ltb (Qabs dampenedDelta) (Qabs delta) then dampenedDelta else delta
  else 0%Q.

(** [props.swipeDirections ?? getDefaultSwipeDirections(position)] *)
Definition effectiveSwipeDirections (p : Props) : list string :=
  match swipeDirections p with
  | Some ds => ds
  | None => getDefaultSwipeDirections (list_position p)
  end.

(** The axis lock of [onPointerMove]. *)
Definition lockAxis (cur : option Axis) (xDelta yDelta : Q) : option Axis :=
  match cur with
  | Some a => Some a
  | None =>
      if JS.gtb (Qabs xDelta) 1 || JS.gtb (Qabs yDelta) 1
      then Some (if JS.gtb (Qabs xDelta) (Qabs yDelta) then AxisX else AxisY)
      else None
  end.

(** The pair [swipeAmount] of [onPointerMove] for a locked (or still
    unlocked) axis. *)
Definition swipeAmountFor (dirs : list string) (dir : option Axis) (xDelta yDelta : Q)
    : Q * Q :=
  match dir with
  | Some AxisY => (0%Q, axisAmount dirs "top" "bottom" yDelta)
  | Some AxisX => (axisAmount dirs "left" "right" xDelta, 0%Q)
  | None => (0%Q, 0%Q)
  end.

(** [onPointerMove]; [highlighted] is whether a text selection is active. *)
Definition onPointerMove (p : Props) (x y : Q) (highlighted : bool)
    (g : GestureState) : GestureState :=
  match pointerStartRef g with
  | None => g
  | Some (startX, startY) =>
      if negb (dismissible p) then g
      else if highlighted then g
      else
        let yDelta := (y - startY)%Q in
        let xDelta := (x - startX)%Q in
        let dirs := effectiveSwipeDirections p in
        let dir := lockAxis (swipeDirection g) xDelta yDelta in
        let amount := swipeAmountFor dirs dir xDelta yDelta in
        let swiped := if JS.gtb (Qabs (fst amount)) 0 || JS.gtb (Qabs (snd amount)) 0
                      then true else isSwiped g in
        mkGesture dir (swipeOutDirection g) (swiping g) (swipeOut g) swiped
                  (dragStartTime g) (pointerStartRef g) (fst amount) (snd amount)
  end.

(** The amount and the velocity [onPointerUp] decides on. *)
Definition finalSwipeAmount (g : GestureState) : Q :=
  match swipeDirection g with
  | Some AxisX => swipeAmountX g
  | _ => swipeAmountY g
  end.

Definition velocity (swipeAmount : Q) (timeTaken : Z) : JS.num :=
  JS.div (Qabs swipeAmount) (inject_Z timeTaken).

(** [Math.abs(swipeAmount) >= SWIPE_THRESHOLD || velocity > 0.11] *)
Definition commits (swipeAmount : Q) (timeTaken : Z) : bool :=
  JS.geb (Qabs swipeAmount) SWIPE_THRESHOLD || JS.gt (velocity swipeAmount timeTaken) 0.11.

(** [onPointerUp] *)
Definition onPointerUp (p : Props) (now : Z) (w : World) : World :=
  let i := inst w in
  let g := gesture i in
  match dragStartTime g with
  | None => w
  | Some started =>
      if swipeOut g || negb (dismissible p) then w
      else
        let swipeAmount := finalSwipeAmount g in
        if commits swipeAmount (now - started) then
          let outDir :=
            match swipeDirection g with
            | Some AxisX => if JS.gtb (swipeAmountX g) 0 then SwRight else SwLeft
            | _ => if JS.gtb (swipeAmountY g) 0 then SwDown else SwUp
            end in
          let g1 := mkGesture (swipeDirection g) (Some outDir) (swiping g) (swipeOut g)
                              (isSwiped g) (dragStartTime g) None
                              (swipeAmountX g) (swipeAmountY g) in
          let w1 := mkWorld (heights w)
                      (call_optional (toast p) "onDismiss" OnDismiss
                         (set_offsetBeforeRemove (offset p w) (set_gesture g1 i))) in
          let w2 := deleteToast p now w1 in
          let g2 := gesture (inst w2) in
          upd_inst (set_gesture
                      (mkGesture (swipeDirection g2) (swipeOutDirection g2) (swiping g2)
                                 true (isSwiped g2) (dragStartTime g2)
                                 (pointerStartRef g2) (swipeAmountX g2) (swipeAmountY g2)))
                   w2
        else
          mkWorld (heights w)
            (set_gesture (mkGesture None (swipeOutDirection g) false (swipeOut g) false
                                    (dragStartTime g) None 0 0) i)
  end.

(** *** The buttons *)

(** The close button is rendered
    [when={closeButton() && !toast.jsx && !isLoading()}]. *)
Definition closeButtonShown (p : Props) : bool :=
  closeButton p && negb (truthy (get (toast p) "jsx")) && negb (isLoading p).

Definition onCloseClick (p : Props) (now : Z) (w : World) : World :=
  if isLoading p || negb (dismissible p) then w
  else upd_inst (call_optional (toast p) "onDismiss" OnDismiss) (deleteToast p now w).

(** The cancel button: [el().onClick(event); deleteToast()]. *)
Definition onCancelClick (p : Props) (now : Z) (w : World) : World :=
  if negb (dismissible p) then w
  else deleteToast p now (upd_inst (add_call CancelOnClick) w).

(** The action button; [defaultPrevented] is [event.defaultPrevented]
    after the caller's [onClick] ran. *)
Definition onActionClick (p : Props) (now : Z) (defaultPrevented : bool) (w : World)
    : World :=
  let w := upd_inst (add_call ActionOnClick) w in
  if defaultPrevented then w else deleteToast p now w.

(** *** Events of one toast *)

Inductive Event : Type :=
  | TimerEffect                                 (* the timer effect (re)runs *)
  | AutoCloseTimeout                            (* the pending auto-close timeout runs *)
  | DeleteEffect                                (* the [toast.delete] effect runs *)
  | Unmount                                     (* a [removeToast] timeout runs *)
  | Measure (newHeight : Q)                     (* the ledger effect of this toast *)
  | SiblingMeasure (id : ToastId) (pos : string) (newHeight : Q)
  | SiblingDelete (id : ToastId)                (* a sibling's [deleteToast] filter *)
  | PointerDown (x y : Q) (isButton : bool)
  | PointerMove (x y : Q) (highlighted : bool)
  | PointerUp
  | DragEnd
  | CloseClick
  | CancelClick
  | ActionClick (defaultPrevented : bool).

(** One event at time [now] with the props of that moment.  A disposed
    component receives nothing; a button that is not rendered cannot be
    clicked. *)
Definition step (p : Props) (now : Z) (e : Event) (w : World) : World :=
  if disposed (inst w) then w
  else
    match e with
    | TimerEffect => upd_inst (fun i => set_timer (timerEffect p now (timer i)) i) w
    | AutoCloseTimeout => autoCloseTimeout p now w
    | DeleteEffect => deleteEffect p now w
    | Unmount => unmount now w
    | Measure h =>
        mkWorld (recordHeight (toast_id (toast p)) (ledgerPosition p) h (heights w)) (inst w)
    | SiblingMeasure id pos h =>
        if id_eqb id (toast_id (toast p)) then w
        else mkWorld (recordHeight id pos h (heights w)) (inst w)
    | SiblingDelete id =>
        if id_eqb id (toast_id (toast p)) then w
        else mkWorld (List.filter (fun h => negb (id_eqb (toastId h) id)) (heights w)) (inst w)
    | PointerDown x y isButton => onPointerDown p now x y isButton w
    | PointerMove x y highlighted =>
        upd_inst (fun i => set_gesture (onPointerMove p x y highlighted (gesture i)) i) w
    | PointerUp => onPointerUp p now w
    | DragEnd => upd_inst (fun i => set_gesture (onDragEnd (gesture i)) i) w
    | CloseClick => if closeButtonShown p then onCloseClick p now w else w
    | CancelClick =>
        if isAction (get (toast p) "cancel") then onCancelClick p now w else w
    | ActionClick prevented =>
        if isAction (get (toast p) "action") then onActionClick p now prevented w else w
    end.

(** A history: the events in the order they happen, each with its time and
    the props then. *)
Definition Stamped : Type := Props * Z * Event.

Fixpoint run (hist : list Stamped) (w : World) : World :=
  match hist with
  | [] => w
  | (p, now, e) :: rest => run rest (step p now e w)
  end.

(** The caller's function an event can lead to; no event leads to more
    than one call. *)
Definition mayCall (e : Event) : list Call :=
  match e with
  | AutoCloseTimeout => [OnAutoClose]
  | PointerUp | CloseClick => [OnDismiss]
  | CancelClick => [CancelOnClick]
  | ActionClick _ => [ActionOnClick]
  | _ => []
  end.

(** Only the timer effect, the timeout itself and the unmount touch the
    timer. *)
Definition touchesTimer (e : Event) : bool :=
  match e with
  | TimerEffect | AutoCloseTimeout | Unmount => true
  | _ => false
  end.

(** A duration the engine is meant for: a finite number or [Infinity]. *)
Definition wellFormedDuration (d : JS.num) : bool :=
  JS.isFinite d || JS.is_Infinity d.

(** A toast that is not to expire at the time of an event: its duration
    is [Infinity] or it is loading. *)
Definition neverExpires (s : Stamped) : Prop :=
  let '(p, _, _) := s in
  toast_duration (toast p) = Some JS.PInf \/ isLoading p = true.

(** No timeout is pending and [onAutoClose] has not been called. *)
Definition quiet (w : World) : Prop :=
  timeoutId (timer (inst w)) = None /\ ~ In OnAutoClose (calls (inst w)).

(** The remaining time is a well-formed duration and a pending timeout was
    given a finite delay. *)
Definition finiteTimer (w : World) : Prop :=
  wellFormedDuration (remainingTime (timer (inst w))) = true
  /\ forall since d, timeoutId (timer (inst w)) = Some (since, d) -> JS.isFinite d = true.

(** *** Pause and resume

    A pause signal followed by a resume signal: two runs of the timer
    effect, the first with props that pause, the second with props that do
    not, each at its time. *)
Definition Segment : Type := (Props * Z) * (Props * Z).

Definition pauseTime (seg : Segment) : Z := snd (fst seg).
Definition resumeTime (seg : Segment) : Z := snd (snd seg).

(** The effect can run its body: the duration is not [Infinity] and the
    toast is not loading. *)
Definition armed (p : Props) : Prop :=
  toast_duration (toast p) <> Some JS.PInf /\ isLoading p = false.

Definition pauseThenResume (seg : Segment) : Prop :=
  armed (fst (fst seg)) /\ paused (fst (fst seg)) = true
  /\ armed (fst (snd seg)) /\ paused (fst (snd seg)) = false.

Definition alternate (segs : list Segment) (t : TimerState) : TimerState :=
  fold_left (fun t seg =>
               timerEffect (fst (snd seg)) (resumeTime seg)
                 (timerEffect (fst (fst seg)) (pauseTime seg) t))
            segs t.

(** The signals come in the order of their times, the first pause not
    before [since]; with [strict] every resume has a later time than the
    pause before it. *)
Fixpoint chronological (strict : bool) (since : Z) (segs : list Segment) : Prop :=
  match segs with
  | [] => True
  | seg :: rest =>
      since <= pauseTime seg
      /\ (if strict then pauseTime seg < resumeTime seg
          else pauseTime seg <= resumeTime seg)
      /\ chronological strict (resumeTime seg) rest
  end.

(** The time spent running from [since] to the last pause. *)
Fixpoint runningTime (since : Z) (segs : list Segment) : Z :=
  match segs with
  | [] => 0
  | seg :: rest => (pauseTime seg - since) + runningTime (resumeTime seg) rest
  end.

(** The time of the last resume, [since] when there is none. *)
Fixpoint lastResume (since : Z) (segs : list Segment) : Z :=
  match segs with
  | [] => since
  | seg :: rest => lastResume (resumeTime seg) rest
  end.

(** The events whose handlers neither run [deleteToast] nor call
    [setOffsetBeforeRemove]: changes of the ledger, runs of the timer
    effect, pointer moves, the end of a drag, and the unmount. *)
Definition keepsOffset (e : Event) : bool :=
  match e with
  | Measure _ | SiblingMeasure _ _ _ | SiblingDelete _
  | TimerEffect | PointerMove _ _ _ | DragEnd | Unmount => true
  | _ => false
  end.

(** A history of one toast: the toast record is the same throughout and
    the clock does not go back. *)
Fixpoint orderly (t : ToastT) (since : Z) (hist : list Stamped) : Prop :=
  match hist with
  | [] => True
  | (p, now, _) :: rest => toast p = t /\ since <= now /\ orderly t now rest
  end.

(** How often [c] was called. *)
Definition count_call (c : Call) (w : World) : nat :=
  length (List.filter (fun c' => bool_decide (c' = c)) (calls (inst w))).

(** ** The registry and its two subscribers *)

(** What a subscriber receives: a toast, or the tombstone
    [{ id, dismiss: true }]. *)
Inductive Published : Type :=
  | Upsert (t : ToastT)
  | DismissSignal (id : ToastId).

(** [{ ...old, ...new }]: the properties of [new] win, the others are kept
    from [old]. *)
Definition spread (old new : ToastT) : ToastT :=
  mkToast (toast_id new) (fields new ∪ fields old).

Module UseSonner.

(** The function [useSonner] hands to [setActiveToasts] for a published
    toast: update in place when the id is known, else put it in front. *)
Definition update (toast : ToastT) (toasts : list ToastT) : list ToastT :=
  let indexOfExistingToast :=
    JS.findIndex (fun t => id_eqb (toast_id t) (toast_id toast)) toasts in
  if negb (indexOfExistingToast =? -1) then
    let k := Z.to_nat indexOfExistingToast in
    let merged := match nth_error toasts k with
                  | Some existing => spread existing toast
                  | None => toast
                  end in
    firstn k toasts ++ [merged] ++ skipn (k + 1) toasts
  else toast :: toasts.

(** The function handed to [setActiveToasts] for a tombstone. *)
Definition drop (id : ToastId) (toasts : list ToastT) : list ToastT :=
  List.filter (fun t => negb (id_eqb (toast_id t) id)) toasts.

(** The state of the hook: the signal, and the callbacks it has handed to
    [setTimeout] that did not run yet, oldest first. *)
Record Hook : Type := mkHook {
  activeToasts : list ToastT;
  timeouts : list Published
}.

(** The subscriber: every event is deferred with [setTimeout]. *)
Definition handler (e : Published) (h : Hook) : Hook :=
  mkHook (activeToasts h) (timeouts h ++ [e]).

Definition apply (e : Published) (toasts : list ToastT) : list ToastT :=
  match e with
  | Upsert t => update t toasts
  | DismissSignal id => drop id toasts
  end.

(** The event loop runs the deferred callbacks in the order they were
    set. *)
Definition flush (h : Hook) : Hook :=
  mkHook (fold_left (fun ts e => apply e ts) (timeouts h) (activeToasts h)) [].

End UseSonner.

Module ToasterStore.

(** The store of the [Toaster] and the callbacks it has handed to
    [requestAnimationFrame]. *)
Record Store : Type := mkStore {
  toasts : list ToastT;
  frames : list ToastId
}.

(** [setToastsStore('toasts', [changedIndex], reconcile(toast))]: Solid's
    [reconcile] makes the element at that index equal to [toast], property
    by property; properties [toast] does not have are removed. *)
Definition reconcileAt (changedIndex : nat) (toast : ToastT) (ts : list ToastT)
    : list ToastT :=
  <[changedIndex := toast]> ts.

(** The subscriber of [onMount]. *)
Definition handler (e : Published) (s : Store) : Store :=
  match e with
  | DismissSignal id => mkStore (toasts s) (frames s ++ [id])
  | Upsert toast =>
      let changedIndex :=
        JS.findIndex (fun t => id_eqb (toast_id t) (toast_id toast)) (toasts s) in
      if negb (changedIndex =? -1)
      then mkStore (reconcileAt (Z.to_nat changedIndex) toast (toasts s)) (frames s)
      else mkStore (toast :: toasts s) (frames s)
  end.

(** The callback of [requestAnimationFrame]: [t.delete = true] on the
    toasts with that id. *)
Definition markDeleted (id : ToastId) (ts : list ToastT) : list ToastT :=
  map (fun t => if id_eqb (toast_id t) id
                then mkToast (toast_id t) (<["delete" := VBool true]> (fields t))
                else t) ts.

Definition flush (s : Store) : Store :=
  mkStore (fold_left (fun ts id => markDeleted id ts) (frames s) (toasts s)) [].

End ToasterStore.

(** Modelled from the spec: [ToastState] of [./state], which is not among
    the sources.  Section 4.1: [publish(record)] upserts by id, preserving
    unspecified fields from a prior version, and notifies all subscribers
    with the resulting merged record; each subscriber receives every event
    exactly once, in publish order, by a synchronous callback. *)
Module ToastState.

(** Modelled from the spec: the subscribers of the registry, here the two
    [ToastState.subscribe] calls of [src/index.tsx]. *)
Inductive Subscriber : Type :=
  | UseSonnerHook     (* the [subscribe] call of [useSonner] *)
  | ToasterMount.     (* the [subscribe] call of [Toaster] *)

#[global] Instance Subscriber_eq_dec : EqDecision Subscriber.
Proof. solve_decision. Defined.

(** Modelled from the spec: the registry with its subscribers, next to
    the state of the two subscribers, which is from the source. *)
Record App : Type := mkApp {
  records : list ToastT;                        (* the registry *)
  subscribers : list Subscriber;
  hook : UseSonner.Hook;
  store : ToasterStore.Store;
  deliveries : list (Subscriber * Published)    (* the callbacks made, oldest first *)
}.

(** Modelled from the spec: the upsert by id of [publish], which is not
    among the sources; it gives the merged record and the registry with
    it. *)
Fixpoint upsertRecord (r : ToastT) (rs : list ToastT) : ToastT * list ToastT :=
  match rs with
  | [] => (r, [r])
  | t :: rest =>
      if id_eqb (toast_id t) (toast_id r) then (spread t r, spread t r :: rest)
      else let '(m, rest') := upsertRecord r rest in (m, t :: rest')
  end.

(** Modelled from the spec: one synchronous callback of [publish]; what
    the callback does is the handler from the source. *)
Definition notify (e : Published) (a : App) (s : Subscriber) : App :=
  match s with
  | UseSonnerHook =>
      mkApp (records a) (subscribers a) (UseSonner.handler e (hook a)) (store a)
            (deliveries a ++ [(s, e)])
  | ToasterMount =>
      mkApp (records a) (subscribers a) (hook a) (ToasterStore.handler e (store a))
            (deliveries a ++ [(s, e)])
  end.

(** Modelled from the spec: [ToastState.publish], which is not among the
    sources: upsert by id, then every subscriber is called once with the
    merged record. *)
Definition publish (r : ToastT) (a : App) : App :=
  let '(merged, rs) := upsertRecord r (records a) in
  fold_left (notify (Upsert merged))
            (subscribers a)
            (mkApp rs (subscribers a) (hook a) (store a) (deliveries a)).

(** The event loop gets to the deferred callbacks of both subscribers. *)
Definition settle (a : App) : App :=
  mkApp (records a) (subscribers a) (UseSonner.flush (hook a))
        (ToasterStore.flush (store a)) (deliveries a).

(** The callbacks a subscriber received. *)
Definition received (s : Subscriber) (a : App) : list Published :=
  map snd (List.filter (fun d => bool_decide (fst d = s)) (deliveries a)).

End ToastState.

(** ** A toast to run the engine on *)

Module Sample.

(** A dismissible toast of four seconds at the bottom right, with both
    callbacks. *)
Definition aToast : ToastT :=
  mkToast (IdNum 1)
    (<["dismissible" := VBool true]>
       (<["duration" := VNum (JS.Fin 4000)]>
          (<["position" := VStr "bottom-right"]>
             (<["onDismiss" := VFun "onDismiss"]>
                (<["onAutoClose" := VFun "onAutoClose"]> ∅))))).

(** The props while nothing holds the timer, and while the list is
    hovered. *)
Definition running : Props :=
  mkProps aToast None true "bottom-right" GAP None false false false.

Definition hovered : Props :=
  mkProps aToast None true "bottom-right" GAP None true false false.

(** The toast alone on the screen, measured at 40 pixels. *)
Definition mounted : World :=
  mkWorld [mkHeight 40 (IdNum 1) "bottom-right"] (initialInst running).

(** The same toast with an infinite duration. *)
Definition forever : Props :=
  mkProps (mkToast (IdNum 1)
             (<["duration" := VNum JS.PInf]> (fields aToast)))
          None true "bottom-right" GAP None false false false.

(** The same toast in a list at the top centre. *)
Definition centred : Props :=
  mkProps aToast None true "top-center" GAP None false false false.

(** A drag of 60 pixels to the right that began at time 1000. *)
Definition dragged : World :=
  run [(running, 1000, PointerDown 10 10 false);
       (running, 1100, PointerMove 70 10 false)] mounted.

(** The drag released at 1200. *)
Definition committed : World := step running 1200 PointerUp dragged.

(** The second of three toasts at the bottom right, with one at the top
    left between them in the ledger. *)
Definition second : Props :=
  mkProps (mkToast (IdNum 2) (<["position" := VStr "bottom-right"]> ∅))
          None false "bottom-right" GAP None false false false.

Definition stacked : World :=
  mkWorld [mkHeight 40 (IdNum 1) "bottom-right";
           mkHeight 25 (IdNum 9) "top-left";
           mkHeight 60 (IdNum 2) "bottom-right";
           mkHeight 50 (IdNum 3) "bottom-right"] (initialInst second).

(** The second toast after the animation frame of its tombstone: the
    store has set [delete] on it. *)
Definition dismissed : Props :=
  mkProps (mkToast (IdNum 2) (<["delete" := VBool true]> (fields (toast second))))
          None false "bottom-right" GAP None false false false.

(** Two publishes of one id, and an application with both subscribers
    and nothing published yet. *)
Definition uploading : ToastT :=
  mkToast (IdStr "upload")
    (<["title" := VStr "Uploading"]> (<["description" := VStr "3 files"]> ∅)).

Definition uploaded : ToastT :=
  mkToast (IdStr "upload")
    (<["title" := VStr "Done"]> (<["type" := VStr "success"]> ∅)).

Definition idle : ToastState.App :=
  ToastState.mkApp [] [ToastState.UseSonnerHook; ToastState.ToasterMount]
    (UseSonner.mkHook [] []) (ToasterStore.mkStore [] []) [].

End Sample.

(** ** The rest of [src/index.tsx] *)

(** *** [cn] *)

(** [Array.prototype.join] on strings. *)
Fixpoint join (sep : string) (l : list string) : string :=
  match l with
  | [] => EmptyString
  | [x] => x
  | x :: rest => String.append x (String.append sep (join sep rest))
  end.

(** [classes.filter(Boolean)]: the classes that are neither [undefined]
    nor empty. *)
Fixpoint truthyClasses (classes : list (option string)) : list string :=
  match classes with
  | [] => []
  | Some c :: rest =>
      if String.eqb c "" then truthyClasses rest else c :: truthyClasses rest
  | None :: rest => truthyClasses rest
  end.

Definition cn (classes : list (option string)) : string :=
  join " " (truthyClasses classes).

(** *** [assignOffset] *)

Definition VIEWPORT_OFFSET : string := "24px".
Definition MOBILE_VIEWPORT_OFFSET : string := "16px".

(** [string | number] *)
Inductive OffsetValue : Type :=
  | OffsetNumber (n : Q)
  | OffsetString (s : string).

(** The [Offset] of [src/types.ts]: one value for all sides, or an object
    with a value for some of them. *)
Inductive Offset : Type :=
  | OffsetAll (v : OffsetValue)
  | OffsetSides (onTop onRight onBottom onLeft : option OffsetValue).

(** The value of a custom property: [Px n] is the template string
    [`${n}px`], [Css s] a string as it is. *)
Inductive CssValue : Type :=
  | Px (n : Q)
  | Css (s : string).

(** [typeof offset === 'number' ? `${offset}px` : offset] *)
Definition cssOf (v : OffsetValue) : CssValue :=
  match v with
  | OffsetNumber n => Px n
  | OffsetString s => Css s
  end.

Definition offsetSides : list string := ["top"; "right"; "bottom"; "left"]%string.

(** [offset[key]] *)
Definition sideOf (onTop onRight onBottom onLeft : option OffsetValue) (key : string)
    : option OffsetValue :=
  if String.eqb key "top" then onTop
  else if String.eqb key "right" then onRight
  else if String.eqb key "bottom" then onBottom
  else if String.eqb key "left" then onLeft
  else None.

(** [`${prefix}-${key}`] *)
Definition offsetProperty (prefix key : string) : string :=
  String.append prefix (String.append "-" key).

(** One round of the outer [forEach]: [index === 1] is the mobile
    offset. *)
Definition assignOne (isMobile : bool) (offset : option Offset)
    (styles : gmap string CssValue) : gmap string CssValue :=
  let prefix := if isMobile then "--mobile-offset"%string else "--offset"%string in
  let defaultValue := if isMobile then MOBILE_VIEWPORT_OFFSET else VIEWPORT_OFFSET in
  let assignAll (v : CssValue) :=
    fold_left (fun st key => <[offsetProperty prefix key := v]> st) offsetSides styles in
  match offset with
  | Some (OffsetAll v) => assignAll (cssOf v)
  | Some (OffsetSides onTop onRight onBottom onLeft) =>
      fold_left (fun st key =>
                   <[offsetProperty prefix key :=
                       match sideOf onTop onRight onBottom onLeft key with
                       | None => Css defaultValue
                       | Some v => cssOf v
                       end]> st)
                offsetSides styles
  | None => assignAll (Css defaultValue)
  end.

Definition assignOffset (defaultOffset mobileOffset : option Offset)
    : gmap string CssValue :=
  assignOne true mobileOffset (assignOne false defaultOffset ∅).

(** *** [getDocumentDirection] *)

(** What the function reads: whether [window] and [document] exist, the
    [dir] attribute of the root element ([None] for [null]) and its
    computed direction. *)
Record DocumentEnv : Type := mkDocumentEnv {
  hasWindow : bool;
  hasDocument : bool;
  dirAttribute : option string;
  computedDirection : string
}.

Definition getDocumentDirection (env : DocumentEnv) : string :=
  if negb (hasWindow env) then "ltr"%string
  else if negb (hasDocument env) then "ltr"%string
  else
    match dirAttribute env with
    | Some d =>
        if String.eqb d "auto" || String.eqb d "" then computedDirection env else d
    | None => computedDirection env
    end.

(** The [dir] attribute of a list:
    [dir === 'auto' ? getDocumentDirection() : dir], where [dir] defaults
    to [getDocumentDirection()]. *)
Definition listDir (dirProp : option string) (env : DocumentEnv) : string :=
  let dir := match dirProp with Some d => d | None => getDocumentDirection env end in
  if String.eqb dir "auto" then getDocumentDirection env else dir.

(** *** The lists of the [Toaster] *)

(** [Array.from(new Set(l))]: the first occurrence of every element, in
    order. *)
Fixpoint uniqueFrom (seen : list string) (l : list string) : list string :=
  match l with
  | [] => []
  | x :: rest =>
      if existsb (String.eqb x) seen then uniqueFrom seen rest
      else x :: uniqueFrom (x :: seen) rest
  end.

(** [toasts.map((toast) => toast.position).filter((position) => position
    !== undefined)] *)
Fixpoint definedPositions (toasts : list ToastT) : list string :=
  match toasts with
  | [] => []
  | t :: rest =>
      match toast_position t with
      | Some pos => pos :: definedPositions rest
      | None => definedPositions rest
      end
  end.

Definition possiblePositions (position : string) (toasts : list ToastT) : list string :=
  uniqueFrom [] (position :: definedPositions toasts).

(** [toast.position === position] *)
Definition positionIs (t : ToastT) (position : string) : bool :=
  match toast_position t with
  | Some pos => String.eqb pos position
  | None => false
  end.

(** The test of the inner [For]:
    [(!toast.position && index() === 0) || toast.position === position]. *)
Definition shownIn (position : string) (index : nat) (t : ToastT) : bool :=
  (negb (truthy (get t "position")) && (index =? 0)%nat) || positionIs t position.

Definition listToasts (position : string) (index : nat) (toasts : list ToastT)
    : list ToastT :=
  List.filter (shownIn position index) toasts.

(** [t.position === toast.position], for positions that are strings or
    [undefined]. *)
Definition samePosition (toast t : ToastT) : bool :=
  match toast_position toast, toast_position t with
  | Some a, Some b => String.eqb a b
  | None, None => true
  | _, _ => false
  end.

(** The [toasts] prop of a toast. *)
Definition toastsProp (toast : ToastT) (toasts : list ToastT) : list ToastT :=
  List.filter (samePosition toast) toasts.

(** [--z-index]: [props.toasts.length - props.index]. *)
Definition zIndex (toast : ToastT) (index : nat) (toasts : list ToastT) : Z :=
  Z.of_nat (length (toastsProp toast toasts)) - Z.of_nat index.

(** [isFront] and [isVisible]. *)
Definition isFront (index : nat) : bool := (index =? 0)%nat.
Definition isVisible (index : nat) (visibleToasts : Z) : bool :=
  Z.of_nat index + 1 <=? visibleToasts.

(** *** [removeToast] *)

(** [toasts.find((toast) => toast.id === id)] *)
Definition findToast (id : ToastId) (toasts : list ToastT) : option ToastT :=
  List.find (fun t => id_eqb (toast_id t) id) toasts.

(** The store after [removeToast(toastToRemove)] and the ids handed to
    [ToastState.dismiss] on the way. *)
Definition removeToast (toastToRemove : ToastT) (toasts : list ToastT)
    : list ToastT * list ToastId :=
  let flagged := match findToast (toast_id toastToRemove) toasts with
                 | Some t => truthy (get t "delete")
                 | None => false
                 end in
  (List.filter (fun t => negb (id_eqb (toast_id t) (toast_id toastToRemove))) toasts,
   if flagged then [] else [toast_id toastToRemove]).

(** What happens to the store of the [Toaster]: the subscriber is called,
    the animation frame comes, a toast asks to be removed. *)
Inductive StoreEvent : Type :=
  | Notified (e : Published)
  | AnimationFrame
  | Remove (t : ToastT).

Definition storeStep (ev : StoreEvent) (s : ToasterStore.Store) : ToasterStore.Store :=
  match ev with
  | Notified e => ToasterStore.handler e s
  | AnimationFrame => ToasterStore.flush s
  | Remove t =>
      ToasterStore.mkStore (fst (removeToast t (ToasterStore.toasts s)))
                           (ToasterStore.frames s)
  end.

(** *** Attention: [expanded] and [interacting] of the [Toaster] *)

Inductive ListEvent : Type :=
  | MouseEnter
  | MouseMove
  | MouseLeave
  | ListDragEnd
  | ListPointerDown (isNotDismissible : bool)
  | ListPointerUp
  | ToastCount (n : nat)       (* the effect on [toastsStore.toasts.length] *)
  | KeyDown (isHotkeyPressed escapeInList : bool).

Record Attention : Type := mkAttention {
  att_expanded : bool;
  att_interacting : bool
}.

Definition listStep (ev : ListEvent) (a : Attention) : Attention :=
  match ev with
  | MouseEnter | MouseMove => mkAttention true (att_interacting a)
  | MouseLeave =>
      if negb (att_interacting a) then mkAttention false (att_interacting a) else a
  | ListDragEnd => mkAttention false (att_interacting a)
  | ListPointerDown isNotDismissible =>
      if isNotDismissible then a else mkAttention (att_expanded a) true
  | ListPointerUp => mkAttention (att_expanded a) false
  | ToastCount n =>
      if (n <=? 1)%nat then mkAttention false (att_interacting a) else a
  | KeyDown isHotkeyPressed escapeInList =>
      let a := if isHotkeyPressed then mkAttention true (att_interacting a) else a in
      if escapeInList then mkAttention false (att_interacting a) else a
  end.

(** The props of a toast under the attention of its list. *)
Definition attending (a : Attention) (p : Props) : Props :=
  mkProps (toast p) (durationFromToaster p) (closeButtonFromToaster p)
          (list_position p) (gap p) (swipeDirections p)
          (att_expanded a) (att_interacting a) (documentHidden p).

(** *** Focus of the list

    [lastFocusedElementRef] and [isFocusWithinRef], with the elements
    [focus()] was called on, oldest first. *)
Record FocusState : Type := mkFocus {
  lastFocusedElementRef : option string;
  isFocusWithinRef : bool;
  focused : list string
}.

Inductive FocusEvent : Type :=
  | ListFocus (isNotDismissible : bool) (relatedTarget : option string)
  | ListBlur (relatedInside : bool)
  | ToasterCleanup.

Definition focusStep (ev : FocusEvent) (f : FocusState) : FocusState :=
  match ev with
  | ListFocus isNotDismissible relatedTarget =>
      if isNotDismissible then f
      else if negb (isFocusWithinRef f)
           then mkFocus relatedTarget true (focused f)
           else f
  | ListBlur relatedInside =>
      if isFocusWithinRef f && negb relatedInside then
        match lastFocusedElementRef f with
        | Some el => mkFocus None false (focused f ++ [el])
        | None => mkFocus None false (focused f)
        end
      else f
  | ToasterCleanup =>
      match lastFocusedElementRef f with
      | Some el => mkFocus None false (focused f ++ [el])
      | None => f
      end
  end.

(** *** The variant with one ledger for all positions

    In the second copy of the component [heights] is a signal of the
    module, and [heightIndex] and [toastsHeightBefore] read all of it. *)
Definition offsetUnfiltered (p : Props) (w : World) : Q :=
  Layout.offset (heights w) (gap p) (toast_id (toast p)).

(** *** What the types of [src/types.ts] say about a toast

    [position?: Position]: the field is [undefined] or one of the six
    position strings, none of which is empty. *)
Definition positionTyped (t : ToastT) : bool :=
  match get t "position" with
  | VUndefined => true
  | VStr s => negb (String.eqb s "")
  | _ => false
  end.

(** The position a toast is meant for: its own, or the one of the
    [Toaster]. *)
Definition homePosition (position : string) (t : ToastT) : string :=
  match toast_position t with
  | Some pos => pos
  | None => position
  end.

(** *** A toast that is held

    A history during which the list stays expanded, is interacted with
    or the document is hidden: the clock does not go back and every run
    of the timer effect sees props that pause. *)
Fixpoint held (since : Z) (hist : list Stamped) : Prop :=
  match hist with
  | [] => True
  | (p, now, e) :: rest =>
      since <= now /\ (e = TimerEffect -> paused p = true) /\ held now rest
  end.

(** *** The clock of a history

    The times of a history do not go back from [since]; [clockEnd] is
    the time of its last event. *)
Fixpoint clocked (since : Z) (hist : list Stamped) : Prop :=
  match hist with
  | [] => True
  | (_, now, _) :: rest => since <= now /\ clocked now rest
  end.

Fixpoint clockEnd (since : Z) (hist : list Stamped) : Z :=
  match hist with
  | [] => since
  | (_, now, _) :: rest => clockEnd now rest
  end.

(** The timer of a toast created at [t0] with [D] milliseconds to live
    has had [k] milliseconds taken off by the time [clock]: the two
    timestamps are not ahead of the clock, and what was taken off had
    passed before the countdown last started, or before it was last
    paused. *)
Definition timeSpent (t0 : Z) (D : Q) (clock : Z) (t : TimerState) (k : Z) : Prop :=
  (exists r, remainingTime t = JS.Fin r /\ Qeq r (D - inject_Z k))
  /\ 0 <= k
  /\ closeTimerStartTimeRef t <= clock
  /\ lastCloseTimerStartTimeRef t <= clock
  /\ (lastCloseTimerStartTimeRef t < closeTimerStartTimeRef t ->
      t0 <= closeTimerStartTimeRef t /\ k <= closeTimerStartTimeRef t - t0)
  /\ (closeTimerStartTimeRef t <= lastCloseTimerStartTimeRef t ->
      k <= Z.max (lastCloseTimerStartTimeRef t) t0 - t0).

(** *** A movement the toast does not allow

    Along the locked axis the pointer has not moved in a direction of
    [swipeDirections]: the test of [onPointerMove] that gives the
    movement undampened fails. *)
Definition wrongWay (dirs : list string) (neg pos : string) (delta : Q) : Prop :=
  ~ (includes dirs neg = true /\ (delta < 0)%Q)
  /\ ~ (includes dirs pos = true /\ (0 < delta)%Q).

Definition againstAllowed (dirs : list string) (dir : option Axis) (xDelta yDelta : Q)
    : Prop :=
  match dir with
  | Some AxisX => wrongWay dirs "left" "right" xDelta
  | Some AxisY => wrongWay dirs "top" "bottom" yDelta
  | None => True
  end.

(** The events by which the user tries to get rid of a toast, the action
    button apart. *)
Definition dismissAttempt (e : Event) : bool :=
  match e with
  | PointerDown _ _ _ | PointerMove _ _ _ | PointerUp | CloseClick | CancelClick => true
  | _ => false
  end.

(** The events that do not end a drag: all but the pointer-up and the
    end of a native drag. *)
Definition keepsAxis (e : Event) : bool :=
  match e with
  | PointerUp | DragEnd => false
  | _ => true
  end.

(** The events of a list in their order. *)
Definition listRun (evs : list ListEvent) (a : Attention) : Attention :=
  fold_left (fun a ev => listStep ev a) evs a.

(** The pointer is not released. *)
Definition pointerStaysDown (ev : ListEvent) : bool :=
  match ev with
  | ListPointerUp => false
  | _ => true
  end.

(** The mouse and the pointer going down, and nothing else. *)
Definition mouseOrPointerDown (ev : ListEvent) : bool :=
  match ev with
  | MouseEnter | MouseMove | MouseLeave | ListPointerDown _ => true
  | _ => false
  end.

(** The focus events of a list in their order. *)
Definition focusRun (evs : list FocusEvent) (f : FocusState) : FocusState :=
  fold_left (fun f ev => focusStep ev f) evs f.

(** Focus moves within the list: a focus event, or a blur whose related
    target is inside the list. *)
Definition staysInside (ev : FocusEvent) : bool :=
  match ev with
  | ListFocus _ _ => true
  | ListBlur relatedInside => relatedInside
  | ToasterCleanup => false
  end.

(** Focus leaves the list, or the [Toaster] is disposed. *)
Definition leavesList (ev : FocusEvent) : bool :=
  match ev with
  | ListFocus _ _ => false
  | ListBlur relatedInside => negb relatedInside
  | ToasterCleanup => true
  end.

(** The pointer has moved towards a direction: up or to the left is a
    negative delta, down or to the right a positive one. *)
Definition towards (d : string) (delta : Q) : Prop :=
  ((d = "top" \/ d = "left")%string /\ (delta < 0)%Q)
  \/ ((d = "bottom" \/ d = "right")%string /\ (0 < delta)%Q).

(** *** The callbacks and the removal

    [onDismiss] and [onAutoClose] have not been called on a toast whose
    removal has not begun. *)
Definition noCallBeforeRemoval (w : World) : Prop :=
  removed (inst w) = false ->
  ~ In OnDismiss (calls (inst w)) /\ ~ In OnAutoClose (calls (inst w)).

(** A [removeToast] timeout that is due by [T] is pending, unless the
    component is gone already. *)
Definition removalPending (T : Z) (w : World) : Prop :=
  disposed (inst w) = true
  \/ exists at_, In at_ (unmountTimers (inst w)) /\ at_ <= T.

(** * Properties *)

(** Case analysis on the tests of a handler. *)
Ltac break_conditions :=
  repeat match goal with
         | |- context [if ?b then _ else _] => destruct b eqn:?
         | |- context [match ?x with Some _ => _ | None => _ end] => destruct x eqn:?
         end.

(** ** The engine on concrete inputs *)

Example offsets_40_60_50 :
  map (Layout.offset [mkHeight 40 (IdNum 1) "bottom-right";
                      mkHeight 60 (IdNum 2) "bottom-right";
                      mkHeight 50 (IdNum 3) "bottom-right"] 14)
      [IdNum 1; IdNum 2; IdNum 3]
  = [0%Q; 54%Q; 128%Q].
Proof. reflexivity. Qed.

Example default_directions :
  map getDefaultSwipeDirections ["bottom-right"; "top-center"; "top"; ""; "-left"]%string
  = [["bottom"; "right"]; ["top"; "center"]; ["top"]; []; ["left"]]%string.
Proof. reflexivity. Qed.

(** 20 pixels in 100 ms are fast enough to dismiss, in 200 ms they are
    not; a release in the millisecond of the pointer-down dismisses unless
    nothing moved. *)
Example commit_decisions :
  map (fun '(amount, timeTaken) => commits amount timeTaken)
      [(50%Q, 1000); (20%Q, 100); (20%Q, 200); (1%Q, 0); (0%Q, 0)]
  = [true; true; false; true; false].
Proof. reflexivity. Qed.

(** Mounted at 1000, hovered from 2000 to 3000: the timeout set at 3000
    is given the 3000 ms that remain. *)
Example hover_for_a_second :
  timeoutId (timerEffect Sample.running 3000
               (timerEffect Sample.hovered 2000
                  (timerEffect Sample.running 1000 (timer (initialInst Sample.running)))))
  = Some (3000, JS.Fin (4000 - inject_Z (2000 - 1000))).
Proof. reflexivity. Qed.

(** A toast without a position of its own is handed an empty ledger. *)
Example no_position_no_entries :
  props_heights (mkProps (mkToast (IdNum 1) ∅) None false "bottom-right" GAP None
                         false false false)
                [mkHeight 40 (IdNum 1) "bottom-right"]
  = [].
Proof. reflexivity. Qed.

(** ** [findIndex] *)

Section FindIndex.
Context {A : Type} (p : A -> bool).

Lemma findIndex_from_none (l : list A) (i : Z) :
  (forall x, In x l -> p x = false) -> JS.findIndex_from p l i = -1.
Proof.
  revert i; induction l as [|x l IH]; intros i Hall; simpl; [reflexivity|].
  rewrite (Hall x (or_introl eq_refl)). apply IH.
  intros y Hy. apply Hall. now right.
Qed.

Lemma findIndex_from_first (l : list A) (i : Z) (k : nat) (x : A) :
  nth_error l k = Some x -> p x = true ->
  (forall j y, (j < k)%nat -> nth_error l j = Some y -> p y = false) ->
  JS.findIndex_from p l i = i + Z.of_nat k.
Proof.
  revert i k; induction l as [|a l IH]; intros i k Hk Hx Hbefore.
  - destruct k; discriminate.
  - destruct k as [|k]; simpl in *.
    + injection Hk as ->. rewrite Hx. lia.
    + rewrite (Hbefore 0%nat a ltac:(lia) eq_refl).
      rewrite (IH (i + 1) k Hk Hx).
      * lia.
      * intros j y Hj Hy. apply (Hbefore (S j) y); [lia | exact Hy].
Qed.

Lemma findIndex_from_range (l : list A) (i : Z) :
  JS.findIndex_from p l i = -1 \/
  (i <= JS.findIndex_from p l i < i + Z.of_nat (length l)).
Proof.
  revert i; induction l as [|a l IH]; intros i; simpl; [now left|].
  destruct (p a); [right; lia|].
  destruct (IH (i + 1)) as [->|H]; [now left | right; lia].
Qed.

Lemma findIndex_none (l : list A) :
  (forall x, In x l -> p x = false) -> JS.findIndex p l = -1.
Proof. apply findIndex_from_none. Qed.

Lemma findIndex_first (l : list A) (k : nat) (x : A) :
  nth_error l k = Some x -> p x = true ->
  (forall j y, (j < k)%nat -> nth_error l j = Some y -> p y = false) ->
  JS.findIndex p l = Z.of_nat k.
Proof.
  intros. unfold JS.findIndex. erewrite findIndex_from_first; eauto.
Qed.

(** The element [findIndex] points at satisfies the test and is the
    first to do so. *)
Lemma findIndex_from_found (l : list A) (i : Z) :
  JS.findIndex_from p l i <> -1 -> 0 <= i ->
  exists (k : nat) (x : A),
    JS.findIndex_from p l i = i + Z.of_nat k /\
    nth_error l k = Some x /\ p x = true /\
    (forall j y, (j < k)%nat -> nth_error l j = Some y -> p y = false).
Proof.
  revert i; induction l as [|a l IH]; intros i Hne Hi; simpl in *; [congruence|].
  destruct (p a) eqn:Ha.
  - exists 0%nat, a. repeat split; [lia | exact Ha | intros; lia].
  - destruct (IH (i + 1) Hne ltac:(lia)) as (k & x & Hk & Hx & Hpx & Hbefore).
    exists (S k), x. repeat split; [lia | exact Hx | exact Hpx |].
    intros [|j] y Hj Hy; simpl in Hy.
    + now injection Hy as <-.
    + apply (Hbefore j y); [lia | exact Hy].
Qed.
End FindIndex.

Lemma id_eqb_true (a b : ToastId) : id_eqb a b = true <-> a = b.
Proof. unfold id_eqb. apply bool_decide_eq_true. Qed.

Lemma id_eqb_false (a b : ToastId) : id_eqb a b = false <-> a <> b.
Proof. unfold id_eqb. apply bool_decide_eq_false. Qed.

Lemma id_eqb_refl (a : ToastId) : id_eqb a a = true.
Proof. now apply id_eqb_true. Qed.

(** ** The layout *)

Module LayoutFacts.
Import Layout.

Lemma or_zero_nonneg (k : nat) : JS.or_zero (Z.of_nat k) = Z.of_nat k.
Proof. unfold JS.or_zero. destruct (Z.eqb_spec (Z.of_nat k) 0); lia. Qed.

(** The loop adds up the heights in front of the index it stops at. *)
Lemma heightBefore_loop_sum (hs : list HeightT) (i : Z) (k : nat) (total : Q) :
  (heightBefore_loop hs i (i + Z.of_nat k) total == total + sumHeightsBefore k hs)%Q.
Proof.
  revert i k total; induction hs as [|h hs IH]; intros i k total.
  - unfold sumHeightsBefore. destruct k; simpl; ring.
  - destruct k as [|k].
    + cbn [heightBefore_loop].
      destruct (Z.geb_spec i (i + Z.of_nat 0)) as [_|Hlt]; [|lia].
      unfold sumHeightsBefore; simpl. ring.
    + cbn [heightBefore_loop].
      destruct (Z.geb_spec i (i + Z.of_nat (S k))) as [Hge|_]; [lia|].
      replace (i + Z.of_nat (S k)) with ((i + 1) + Z.of_nat k) by lia.
      rewrite IH. unfold sumHeightsBefore; simpl. ring.
Qed.

(** With an index that is not positive the loop stops at once. *)
Lemma heightBefore_loop_stop (hs : list HeightT) (i hidx : Z) (total : Q) :
  hidx <= i -> heightBefore_loop hs i hidx total = total.
Proof.
  intros H. destruct hs as [|h hs]; cbn [heightBefore_loop]; [reflexivity|].
  destruct (Z.geb_spec i hidx); [reflexivity | lia].
Qed.

Lemma heightIndex_first (hs : list HeightT) (id : ToastId) (k : nat) (h : HeightT) :
  nth_error hs k = Some h -> toastId h = id ->
  (forall j h', (j < k)%nat -> nth_error hs j = Some h' -> toastId h' <> id) ->
  heightIndex hs id = Z.of_nat k.
Proof.
  intros Hk Hid Hbefore. unfold heightIndex.
  rewrite (findIndex_first _ hs k h Hk).
  - apply or_zero_nonneg.
  - now apply id_eqb_true.
  - intros j h' Hj Hh'. apply id_eqb_false. eauto.
Qed.

Lemma heightIndex_missing (hs : list HeightT) (id : ToastId) :
  (forall h, In h hs -> toastId h <> id) -> heightIndex hs id = -1.
Proof.
  intros Hall. unfold heightIndex. rewrite findIndex_none; [reflexivity|].
  intros h Hh. apply id_eqb_false. auto.
Qed.

Lemma offset_at_first_entry (hs : list HeightT) (gap : Q) (id : ToastId)
    (k : nat) (h : HeightT) :
  nth_error hs k = Some h -> toastId h = id ->
  (forall j h', (j < k)%nat -> nth_error hs j = Some h' -> toastId h' <> id) ->
  (offset hs gap id == inject_Z (Z.of_nat k) * gap + sumHeightsBefore k hs)%Q.
Proof.
  intros Hk Hid Hbefore. unfold offset, toastsHeightBefore.
  rewrite (heightIndex_first hs id k h Hk Hid Hbefore).
  pose proof (heightBefore_loop_sum hs 0 k 0) as Hsum.
  replace (0 + Z.of_nat k) with (Z.of_nat k) in Hsum by lia.
  rewrite Hsum. ring.
Qed.

(** When the ids of the ledger are pairwise different, the entry of an id
    is the first one with that id. *)
Lemma unique_entry_is_first (hs : list HeightT) (k : nat) (h : HeightT) :
  List.NoDup (map toastId hs) -> nth_error hs k = Some h ->
  forall j h', (j < k)%nat -> nth_error hs j = Some h' -> toastId h' <> toastId h.
Proof.
  intros Hnd Hk j h' Hj Hj' Heq.
  assert (j = k); [|lia].
  apply (proj1 (List.NoDup_nth_error (map toastId hs)) Hnd).
  - rewrite length_map. apply nth_error_Some. congruence.
  - rewrite !nth_error_map, Hj', Hk. simpl. now rewrite Heq.
Qed.

End LayoutFacts.

(** ** The ledger keeps one entry per toast *)

Lemma filter_ids_unique (keep : HeightT -> bool) (hs : list HeightT) :
  List.NoDup (map toastId hs) -> List.NoDup (map toastId (List.filter keep hs)).
Proof.
  induction hs as [|h hs IH]; intros Hnd; simpl; [constructor|].
  inversion Hnd as [|? ? Hnotin Hnd']; subst.
  destruct (keep h); [|now apply IH].
  simpl. constructor; [|now apply IH].
  intros Hin. apply Hnotin.
  apply in_map_iff in Hin as (h' & Hid & Hh').
  apply filter_In in Hh' as [Hh' _].
  rewrite <- Hid. now apply in_map.
Qed.

Lemma recordHeight_ids (id : ToastId) (pos : string) (newHeight : Q) (hs : list HeightT) :
  map toastId (recordHeight id pos newHeight hs)
  = if existsb (fun h => id_eqb (toastId h) id) hs
    then map toastId hs else id :: map toastId hs.
Proof.
  unfold recordHeight. destruct (existsb _ hs); [|reflexivity].
  rewrite map_map. apply map_ext. intros h.
  now destruct (id_eqb (toastId h) id).
Qed.

Lemma recordHeight_ids_unique (id : ToastId) (pos : string) (newHeight : Q)
    (hs : list HeightT) :
  List.NoDup (map toastId hs) ->
  List.NoDup (map toastId (recordHeight id pos newHeight hs)).
Proof.
  intros Hnd. rewrite recordHeight_ids.
  destruct (existsb (fun h => id_eqb (toastId h) id) hs) eqn:Hex; [exact Hnd|].
  constructor; [|exact Hnd].
  intros Hin. apply in_map_iff in Hin as (h & Hid & Hh).
  assert (Htrue : existsb (fun h => id_eqb (toastId h) id) hs = true).
  { apply existsb_exists. exists h. split; [exact Hh | now apply id_eqb_true]. }
  congruence.
Qed.

Lemma deleteToast_heights (p : Props) (now : Z) (w : World) :
  heights (deleteToast p now w)
  = List.filter (fun h => negb (id_eqb (toastId h) (toast_id (toast p)))) (heights w).
Proof. reflexivity. Qed.

(** The delete effect runs [deleteToast] not at all, once or twice. *)
Lemma deleteEffect_cases (p : Props) (now : Z) (w : World) :
  deleteEffect p now w = w
  \/ deleteEffect p now w = deleteToast p now w
  \/ deleteEffect p now w = deleteToast p now (deleteToast p now w).
Proof.
  unfold deleteEffect. destruct (truthy _); [|now left].
  cbv zeta. destruct (Qeq_bool _ _); [right; left | right; right]; reflexivity.
Qed.

(** No event gives the ledger a second entry for an id. *)
Lemma step_ledger_unique (p : Props) (now : Z) (e : Event) (w : World) :
  List.NoDup (map toastId (heights w)) ->
  List.NoDup (map toastId (heights (step p now e w))).
Proof.
  intros Hnd. unfold step. destruct (disposed (inst w)); [exact Hnd|].
  destruct e; cbn; try exact Hnd.
  - unfold autoCloseTimeout. break_conditions; try exact Hnd.
    rewrite deleteToast_heights. now apply filter_ids_unique.
  - destruct (deleteEffect_cases p now w) as [-> | [-> | ->]]; [exact Hnd| |];
      rewrite ?deleteToast_heights; repeat apply filter_ids_unique; exact Hnd.
  - unfold unmount. break_conditions; exact Hnd.
  - now apply recordHeight_ids_unique.
  - break_conditions; [exact Hnd | now apply recordHeight_ids_unique].
  - break_conditions; [exact Hnd | now apply filter_ids_unique].
  - unfold onPointerDown. break_conditions; exact Hnd.
  - unfold onPointerUp. break_conditions; try exact Hnd.
    all: cbn; now apply filter_ids_unique.
  - unfold onCloseClick. break_conditions; try exact Hnd.
    cbn. now apply filter_ids_unique.
  - unfold onCancelClick. break_conditions; try exact Hnd.
    rewrite deleteToast_heights. now apply filter_ids_unique.
  - unfold onActionClick. break_conditions; try exact Hnd.
    rewrite deleteToast_heights. now apply filter_ids_unique.
Qed.

Lemma run_ledger_unique (hist : list Stamped) (w : World) :
  List.NoDup (map toastId (heights w)) ->
  List.NoDup (map toastId (heights (run hist w))).
Proof.
  revert w; induction hist as [|[[p now] e] hist IH]; intros w Hnd; simpl; [exact Hnd|].
  apply IH. now apply step_ledger_unique.
Qed.

Lemma props_heights_unique (p : Props) (hs : list HeightT) :
  List.NoDup (map toastId hs) -> List.NoDup (map toastId (props_heights p hs)).
Proof.
  intros Hnd. unfold props_heights, Layout.heightsAt.
  destruct (toast_position (toast p)); [now apply filter_ids_unique | constructor].
Qed.

(** C2.  For a toast whose id has an entry in the position-filtered
    heights sequence, [offset()] is the index of that entry times the gap
    plus the sum of the heights of the entries in front of it; the entry at
    index 0 has offset 0; for the heights 40, 60, 50 at gap 14 the offsets
    are 0, 54 and 128.  The ledger has one entry per id; were there more,
    the index is that of the first. *)
Theorem C2_offset_of_ledger_entry :
  (forall (p : Props) (w : World) (k : nat) (h : HeightT),
      List.NoDup (map toastId (heights w)) ->
      nth_error (props_heights p (heights w)) k = Some h ->
      toastId h = toast_id (toast p) ->
      Layout.heightIndex (props_heights p (heights w)) (toast_id (toast p)) = Z.of_nat k
      /\ (offset p w ==
          inject_Z (Z.of_nat k) * gap p
          + Layout.sumHeightsBefore k (props_heights p (heights w)))%Q
      /\ (k = 0%nat -> (offset p w == 0)%Q))
  /\ (forall (hs : list HeightT) (gap : Q) (id : ToastId) (k : nat) (h : HeightT),
         nth_error hs k = Some h ->
         toastId h = id ->
         (forall j h', (j < k)%nat -> nth_error hs j = Some h' -> toastId h' <> id) ->
         (Layout.offset hs gap id
          == inject_Z (Z.of_nat k) * gap + Layout.sumHeightsBefore k hs)%Q)
  /\ (forall (hist : list Stamped) (w : World),
         List.NoDup (map toastId (heights w)) ->
         List.NoDup (map toastId (heights (run hist w))))
  /\ (map (Layout.offset [mkHeight 40 (IdNum 1) "bottom-right";
                          mkHeight 60 (IdNum 2) "bottom-right";
                          mkHeight 50 (IdNum 3) "bottom-right"] 14)
          [IdNum 1; IdNum 2; IdNum 3]
      = [0%Q; 54%Q; 128%Q]).
Proof.
  split; [|split; [|split; [exact run_ledger_unique | reflexivity]]].
  - intros p w k h Hnd Hk Hid.
    assert (Hbefore : forall j h', (j < k)%nat ->
                                   nth_error (props_heights p (heights w)) j = Some h' ->
                                   toastId h' <> toast_id (toast p)).
    { rewrite <- Hid.
      apply (LayoutFacts.unique_entry_is_first _ k h);
        [now apply props_heights_unique | exact Hk]. }
    pose proof (LayoutFacts.offset_at_first_entry _ (gap p) _ k h Hk Hid Hbefore) as Hoff.
    split; [now apply (LayoutFacts.heightIndex_first _ _ k h)|].
    split; [exact Hoff|].
    intros ->. unfold offset. rewrite Hoff.
    unfold Layout.sumHeightsBefore; simpl. ring.
  - intros hs gap id k h. apply LayoutFacts.offset_at_first_entry.
Qed.

(** The second of three stacked toasts sits at 54. *)
Lemma C2_offset_of_ledger_entry_witness :
  (offset Sample.second Sample.stacked == inject_Z 1 * 14 + 40)%Q.
Proof.
  destruct (proj1 C2_offset_of_ledger_entry Sample.second Sample.stacked 1%nat
              (mkHeight 60 (IdNum 2) "bottom-right")) as (_ & H & _).
  - repeat constructor; simpl; intuition discriminate.
  - reflexivity.
  - reflexivity.
  - rewrite H. vm_compute. reflexivity.
Defined.

Lemma existsb_absent (hs : list HeightT) (id : ToastId) :
  (forall h, In h hs -> toastId h <> id) ->
  existsb (fun h => id_eqb (toastId h) id) hs = false.
Proof.
  intros Hmiss. apply not_true_is_false. intros Hex.
  apply existsb_exists in Hex as (h & Hh & Heq).
  apply id_eqb_true in Heq. exact (Hmiss h Hh Heq).
Qed.

(** C10.  A toast whose id has no entry in the heights list has
    [heightIndex() = -1], since [-1 || 0] is [-1]; its offset is
    [-1 * gap], negative for a positive gap; once an entry for the id is
    recorded the index is 0 and the offset is 0.  In the component: the
    offset is [-1 * gap] while the [heights] prop has no entry for the
    toast, and 0 right after the toast, with a position of its own, was
    measured for the first time. *)
Theorem C10_offset_without_ledger_entry :
  forall (hs : list HeightT) (g : Q) (id : ToastId),
    (forall h, In h hs -> toastId h <> id) ->
    JS.findIndex (fun h => id_eqb (toastId h) id) hs = -1
    /\ Layout.heightIndex hs id = -1
    /\ (Layout.offset hs g id == inject_Z (-1) * g)%Q
    /\ ((0 < g)%Q -> (Layout.offset hs g id < 0)%Q)
    /\ (forall pos newHeight,
           Layout.heightIndex (recordHeight id pos newHeight hs) id = 0
           /\ (Layout.offset (recordHeight id pos newHeight hs) g id == 0)%Q)
    /\ (forall (p : Props) (w : World),
           toast_id (toast p) = id -> props_heights p (heights w) = hs ->
           (offset p w == inject_Z (-1) * gap p)%Q)
    /\ (forall (p : Props) (now : Z) (w : World) (pos : string) (newHeight : Q),
           toast_id (toast p) = id -> heights w = hs ->
           toast_position (toast p) = Some pos ->
           disposed (inst w) = false ->
           (offset p (step p now (Measure newHeight) w) == 0)%Q).
Proof.
  intros hs g id Hmiss.
  assert (Hfind : JS.findIndex (fun h => id_eqb (toastId h) id) hs = -1).
  { apply findIndex_none. intros h Hh. apply id_eqb_false. auto. }
  assert (Hidx : Layout.heightIndex hs id = -1)
    by now apply LayoutFacts.heightIndex_missing.
  assert (Hoff : forall g', (Layout.offset hs g' id == inject_Z (-1) * g')%Q).
  { intros g'. unfold Layout.offset, Layout.toastsHeightBefore. rewrite Hidx.
    rewrite LayoutFacts.heightBefore_loop_stop by lia. ring. }
  split; [exact Hfind|]. split; [exact Hidx|]. split; [apply Hoff|].
  split; [|split; [|split]].
  - intros Hgap. rewrite Hoff.
    assert (Hneg : (inject_Z (-1) * g == - g)%Q) by ring.
    rewrite Hneg. lra.
  - intros pos newHeight. unfold recordHeight.
    rewrite (existsb_absent hs id Hmiss). split.
    + apply (LayoutFacts.heightIndex_first _ id 0%nat (mkHeight newHeight id pos));
        [reflexivity | reflexivity | intros; lia].
    + rewrite (LayoutFacts.offset_at_first_entry _ g id 0%nat (mkHeight newHeight id pos));
        [|reflexivity | reflexivity | intros; lia].
      unfold Layout.sumHeightsBefore; simpl. ring.
  - intros p w Hid Hhs. unfold offset. rewrite Hid, Hhs. apply Hoff.
  - intros p now w pos newHeight Hid Hhs Hpos Hdisp.
    unfold step. rewrite Hdisp. unfold offset, props_heights, ledgerPosition.
    cbn [heights]. rewrite Hpos, Hid, Hhs. unfold recordHeight.
    rewrite (existsb_absent hs id Hmiss).
    unfold Layout.heightsAt. cbn [List.filter position].
    rewrite bool_decide_true by reflexivity.
    rewrite (LayoutFacts.offset_at_first_entry _ (gap p) id 0%nat
               (mkHeight newHeight id pos));
      [|reflexivity | reflexivity | intros; lia].
    unfold Layout.sumHeightsBefore; simpl. ring.
Qed.

(** A toast that is not in the ledger yet, next to two that are. *)
Lemma C10_offset_without_ledger_entry_witness :
  (Layout.offset [mkHeight 40 (IdNum 1) "bottom-right";
                  mkHeight 60 (IdNum 2) "bottom-right"] 14 (IdNum 7)
   == inject_Z (-1) * 14)%Q.
Proof.
  apply (C10_offset_without_ledger_entry
           [mkHeight 40 (IdNum 1) "bottom-right"; mkHeight 60 (IdNum 2) "bottom-right"]
           14 (IdNum 7)).
  intros h [<-|[<-|[]]]; discriminate.
Defined.

(** ** Default swipe directions *)

Lemma split_dash_dashFree (s : string) :
  dashFree s = true -> split_dash s = [s].
Proof.
  induction s as [|c s IH]; simpl; [reflexivity|].
  intros H. apply andb_prop in H as [Hc Hs].
  apply negb_true_iff in Hc. rewrite Hc, (IH Hs). reflexivity.
Qed.

Lemma split_dash_app (y rest : string) :
  dashFree y = true ->
  split_dash (y ++ String "-" rest) = y :: split_dash rest.
Proof.
  induction y as [|c y IH]; simpl; [reflexivity|].
  intros H. apply andb_prop in H as [Hc Hy].
  apply negb_true_iff in Hc. rewrite Hc, (IH Hy). reflexivity.
Qed.

Lemma eqb_empty_false (s : string) : s <> EmptyString -> String.eqb s "" = false.
Proof. intros H. now apply String.eqb_neq. Qed.

Lemma defaultSwipeDirections_pieces (y x : string) :
  dashFree y = true -> dashFree x = true -> y <> EmptyString -> x <> EmptyString ->
  getDefaultSwipeDirections (y ++ String "-" x) = [y; x].
Proof.
  intros Hy Hx Hyne Hxne. unfold getDefaultSwipeDirections.
  rewrite (split_dash_app y x Hy), (split_dash_dashFree x Hx). simpl.
  unfold push_if_truthy.
  rewrite (eqb_empty_false y Hyne), (eqb_empty_false x Hxne). reflexivity.
Qed.

(** On a centred position neither [left] nor [right] is a default
    direction. *)
Lemma center_has_no_horizontal (pos : Position) :
  horizontalAnchor pos = None ->
  includes (getDefaultSwipeDirections (position_string pos)) "left" = false
  /\ includes (getDefaultSwipeDirections (position_string pos)) "right" = false.
Proof. destruct pos; intros H; try discriminate H; split; reflexivity. Qed.

(** ** Comparisons of finite numbers *)

Lemma ltb_true (a b : Q) : JS.ltb a b = true <-> (a < b)%Q.
Proof.
  unfold JS.ltb. rewrite negb_true_iff. split.
  - intros H. apply Qnot_le_lt. intros Hle. apply Qle_bool_iff in Hle. congruence.
  - intros H. apply not_true_is_false. intros Hle. apply Qle_bool_iff in Hle. lra.
Qed.

Lemma ltb_false (a b : Q) : JS.ltb a b = false <-> (b <= a)%Q.
Proof.
  unfold JS.ltb. rewrite negb_false_iff. apply Qle_bool_iff.
Qed.

Lemma gtb_true (a b : Q) : JS.gtb a b = true <-> (b < a)%Q.
Proof. apply (ltb_true b a). Qed.

Lemma gtb_false (a b : Q) : JS.gtb a b = false <-> (a <= b)%Q.
Proof. apply (ltb_false b a). Qed.

Lemma geb_true (a b : Q) : JS.geb a b = true <-> (b <= a)%Q.
Proof. unfold JS.geb. apply Qle_bool_iff. Qed.

Lemma geb_false (a b : Q) : JS.geb a b = false <-> (a < b)%Q.
Proof.
  unfold JS.geb. split.
  - intros H. apply Qnot_le_lt. intros Hle. apply Qle_bool_iff in Hle. congruence.
  - intros H. apply not_true_is_false. intros Hle. apply Qle_bool_iff in Hle. lra.
Qed.

(** ** The default directions in a drag *)

(** The default directions of the six positions, worked out. *)
Ltac default_directions :=
  repeat match goal with
         | |- context [includes ?l ?d] =>
             let b := eval vm_compute in (includes l d) in
             change (includes l d) with b
         end.

Lemma towards_negative (d : string) (delta : Q) :
  (d = "top" \/ d = "left")%string -> towards d delta -> JS.ltb delta 0 = true.
Proof.
  intros Hd [[_ Hlt]|[Hd' _]]; [now apply ltb_true|].
  exfalso. destruct Hd as [->| ->], Hd' as [Hd'|Hd']; discriminate Hd'.
Qed.

Lemma towards_positive (d : string) (delta : Q) :
  (d = "bottom" \/ d = "right")%string -> towards d delta -> JS.gtb delta 0 = true.
Proof.
  intros Hd [[Hd' _]|[_ Hgt]]; [|now apply gtb_true].
  exfalso. destruct Hd as [->| ->], Hd' as [Hd'|Hd']; discriminate Hd'.
Qed.

(** C8.  The default swipe directions of a position are its anchors: of
    the four swipe directions exactly the vertical anchor and, unless the
    position is centred, the horizontal anchor are included; a position
    string made of two pieces yields these two pieces.  They are what a
    drag goes by when the caller has given no directions, and only then:
    a drag locked to the vertical axis that goes towards the vertical
    anchor, or locked to the horizontal axis and going towards the
    horizontal anchor, is applied at full strength, and on a centred
    position a drag locked to the horizontal axis is given no
    displacement at all. *)
Theorem C8_default_swipe_directions :
  (forall (pos : Position) (d : string),
      In d SwipeDirection ->
      (includes (getDefaultSwipeDirections (position_string pos)) d = true
       <-> (d = verticalAnchor pos \/ horizontalAnchor pos = Some d)))
  /\ (forall y x : string,
         dashFree y = true -> dashFree x = true ->
         y <> EmptyString -> x <> EmptyString ->
         getDefaultSwipeDirections (y ++ String "-" x) = [y; x])
  /\ (forall (pos : Position) (p : Props),
         horizontalAnchor pos = None ->
         swipeDirections p = None ->
         list_position p = position_string pos ->
         (forall xDelta yDelta : Q,
             swipeAmountFor (effectiveSwipeDirections p) (Some AxisX) xDelta yDelta
             = (0%Q, 0%Q))
         /\ (forall (g : GestureState) (x y : Q) (start : Q * Q),
                pointerStartRef g = Some start ->
                dismissible p = true ->
                swipeDirection (onPointerMove p x y false g) = Some AxisX ->
                swipeAmountX (onPointerMove p x y false g) = 0%Q
                /\ swipeAmountY (onPointerMove p x y false g) = 0%Q))
  /\ (forall p : Props,
         (swipeDirections p = None ->
          effectiveSwipeDirections p = getDefaultSwipeDirections (list_position p))
         /\ (forall ds, swipeDirections p = Some ds -> effectiveSwipeDirections p = ds))
  /\ (forall (pos : Position) (p : Props) (g : GestureState) (x y startX startY : Q),
         swipeDirections p = None ->
         list_position p = position_string pos ->
         pointerStartRef g = Some (startX, startY) ->
         dismissible p = true ->
         (swipeDirection (onPointerMove p x y false g) = Some AxisY ->
          towards (verticalAnchor pos) (y - startY) ->
          swipeAmountY (onPointerMove p x y false g) = (y - startY)%Q
          /\ swipeAmountX (onPointerMove p x y false g) = 0%Q)
         /\ (forall d : string,
                horizontalAnchor pos = Some d ->
                swipeDirection (onPointerMove p x y false g) = Some AxisX ->
                towards d (x - startX) ->
                swipeAmountX (onPointerMove p x y false g) = (x - startX)%Q
                /\ swipeAmountY (onPointerMove p x y false g) = 0%Q)).
Proof.
  split; [|split; [|split; [|split]]].
  - intros pos d Hd. unfold SwipeDirection in Hd. simpl in Hd.
    destruct Hd as [<-|[<-|[<-|[<-|[]]]]]; destruct pos;
      (split;
       [ intros H; try discriminate H;
         first [left; reflexivity | right; reflexivity]
       | intros [H|H]; try discriminate H; reflexivity ]).
  - exact defaultSwipeDirections_pieces.
  - intros pos p Hc Hnone Hpos.
    assert (Hamount : forall xDelta yDelta : Q,
               swipeAmountFor (effectiveSwipeDirections p) (Some AxisX) xDelta yDelta
               = (0%Q, 0%Q)).
    { intros xDelta yDelta. unfold effectiveSwipeDirections. rewrite Hnone, Hpos.
      destruct (center_has_no_horizontal pos Hc) as [Hl Hr].
      unfold swipeAmountFor, axisAmount. rewrite Hl, Hr. reflexivity. }
    split; [exact Hamount|].
    intros g x y [sx sy] Hstart Hdis. unfold onPointerMove.
    rewrite Hstart, Hdis. cbn [negb swipeDirection swipeAmountX swipeAmountY].
    intros Hlock. rewrite Hlock, Hamount. split; reflexivity.
  - intros p. unfold effectiveSwipeDirections. split.
    + now intros ->.
    + now intros ds ->.
  - intros pos p g x y startX startY Hnone Hpos Hstart Hdis.
    unfold onPointerMove. rewrite Hstart, Hdis.
    cbn [negb swipeDirection swipeAmountX swipeAmountY].
    unfold effectiveSwipeDirections. rewrite Hnone, Hpos. split.
    + intros Hlock Hto. rewrite Hlock. unfold swipeAmountFor, axisAmount. cbn [fst snd].
      split; [|reflexivity].
      destruct pos; cbn [position_string verticalAnchor] in *; default_directions;
        cbn [orb andb];
        first [ rewrite (towards_negative "top" _ (or_introl eq_refl) Hto)
              | rewrite (towards_positive "bottom" _ (or_introl eq_refl) Hto) ];
        reflexivity.
    + intros d Hd Hlock Hto. rewrite Hlock. unfold swipeAmountFor, axisAmount.
      cbn [fst snd]. split; [|reflexivity].
      destruct pos; cbn [position_string horizontalAnchor] in *;
        try discriminate Hd; injection Hd as <-; default_directions;
        cbn [orb andb];
        first [ rewrite (towards_negative "left" _ (or_intror eq_refl) Hto)
              | rewrite (towards_positive "right" _ (or_intror eq_refl) Hto) ];
        cbn [orb]; rewrite ?orb_true_r; reflexivity.
Qed.

(** ** Dampening *)

Lemma dampening_denominator_positive (delta : Q) : (0 < 1.5 + Qabs delta / 20)%Q.
Proof.
  pose proof (Qabs_nonneg delta) as Habs.
  assert (0 <= Qabs delta / 20)%Q.
  { apply Qle_shift_div_l; lra. }
  lra.
Qed.

(** [delta * getDampening(delta)] is [delta / (1.5 + |delta| / 20)]. *)
Lemma dampened_quotient (delta : Q) :
  (delta * getDampening delta == delta / (1.5 + Qabs delta / 20))%Q.
Proof.
  unfold getDampening.
  pose proof (Qabs_nonneg delta) as Habs.
  field. lra.
Qed.

Lemma axisAmount_bounded (dirs : list string) (neg pos : string) (delta : Q) :
  (Qabs (axisAmount dirs neg pos delta) <= Qabs delta)%Q.
Proof.
  unfold axisAmount.
  destruct (includes dirs neg || includes dirs pos).
  - destruct (_ || _); [lra|].
    destruct (JS.ltb _ _) eqn:Hlt; [|lra].
    apply ltb_true in Hlt. lra.
  - apply Qabs_nonneg.
Qed.

(** C6, as the code has it.  Along a locked axis on which at least one
    direction is allowed, a movement that is in no allowed direction is
    given [dampened = delta / (1.5 + |delta| / 20)] when the magnitude of
    that value is smaller than the magnitude of [delta], and [delta]
    otherwise; along a locked axis on which no direction is allowed the
    amount is 0; in every case the magnitude of the amount is at most
    [|delta|]. *)
Theorem C6_dampened_swipe_amount :
  forall (dirs : list string) (neg pos : string) (delta : Q),
    ~ (includes dirs neg = true /\ (delta < 0)%Q) ->
    ~ (includes dirs pos = true /\ (0 < delta)%Q) ->
    (includes dirs neg || includes dirs pos = true ->
       ((Qabs (delta / (1.5 + Qabs delta / 20)) < Qabs delta)%Q ->
          (axisAmount dirs neg pos delta == delta / (1.5 + Qabs delta / 20))%Q)
       /\ (~ (Qabs (delta / (1.5 + Qabs delta / 20)) < Qabs delta)%Q ->
          axisAmount dirs neg pos delta = delta))
    /\ (includes dirs neg || includes dirs pos = false ->
          axisAmount dirs neg pos delta = 0%Q)
    /\ (Qabs (axisAmount dirs neg pos delta) <= Qabs delta)%Q
    /\ (forall xDelta yDelta,
           swipeAmountFor dirs (Some AxisX) xDelta yDelta
           = (axisAmount dirs "left" "right" xDelta, 0%Q)
           /\ swipeAmountFor dirs (Some AxisY) xDelta yDelta
              = (0%Q, axisAmount dirs "top" "bottom" yDelta)).
Proof.
  intros dirs neg pos delta Hneg Hpos.
  assert (Hno : (includes dirs neg && JS.ltb delta 0)
                || (includes dirs pos && JS.gtb delta 0) = false).
  { apply orb_false_iff. split; apply not_true_is_false; intros H;
      apply andb_prop in H as [Hin Hcmp].
    - apply Hneg. split; [exact Hin | now apply ltb_true].
    - apply Hpos. split; [exact Hin | now apply gtb_true]. }
  split; [|split; [|split]].
  - intros Hany. unfold axisAmount. rewrite Hany, Hno.
    pose proof (dampened_quotient delta) as Hq.
    destruct (JS.ltb (Qabs _) _) eqn:Hlt.
    + split; [intros _; exact Hq|].
      intros Hnot. exfalso. apply Hnot. apply ltb_true in Hlt.
      rewrite <- Hq. exact Hlt.
    + split; [|reflexivity].
      intros Hsmall. apply ltb_false in Hlt. rewrite <- Hq in Hsmall. lra.
  - intros Hnone. unfold axisAmount. now rewrite Hnone.
  - apply axisAmount_bounded.
  - intros. split; reflexivity.
Qed.

(** C6 as the specification words it fails: on a centred toast a drag
    locked to the horizontal axis is in no allowed direction, and 30 pixels
    of it would be dampened to 10; the handler applies 0. *)
Lemma C6_counterexample :
  ~ (forall (dirs : list string) (xDelta yDelta : Q),
        ~ (includes dirs "left" = true /\ (xDelta < 0)%Q) ->
        ~ (includes dirs "right" = true /\ (0 < xDelta)%Q) ->
        (Qabs (xDelta / (1.5 + Qabs xDelta / 20)) < Qabs xDelta)%Q ->
        (fst (swipeAmountFor dirs (Some AxisX) xDelta yDelta)
         == xDelta / (1.5 + Qabs xDelta / 20))%Q).
Proof.
  intros Hclaim.
  specialize (Hclaim (getDefaultSwipeDirections "top-center") 30%Q 0%Q).
  assert (H : (fst (swipeAmountFor (getDefaultSwipeDirections "top-center")
                      (Some AxisX) 30 0) == 30 / (1.5 + Qabs 30 / 20))%Q).
  { apply Hclaim.
    - intros [H _]. discriminate H.
    - intros [H _]. discriminate H.
    - vm_compute. reflexivity. }
  vm_compute in H. discriminate H.
Qed.

(** A drag of 30 pixels to the right on a toast that may be swiped to the
    left only. *)
Lemma C6_dampened_swipe_amount_witness :
  (axisAmount ["left"; "top"]%string "left" "right" 30 == 30 / (1.5 + Qabs 30 / 20))%Q.
Proof.
  destruct (C6_dampened_swipe_amount ["left"; "top"]%string "left" "right" 30%Q)
    as (Hdamp & _).
  - intros [_ H]. vm_compute in H. discriminate H.
  - intros [H _]. discriminate H.
  - apply Hdamp; [reflexivity|]. vm_compute. reflexivity.
Defined.

(** ** Pointer-up *)

Lemma velocity_gt (amount : Q) (timeTaken : Z) (q : Q) :
  0 < timeTaken ->
  (JS.gt (velocity amount timeTaken) q = true
   <-> (q < Qabs amount / inject_Z timeTaken)%Q).
Proof.
  intros Ht. unfold velocity, JS.div.
  assert (Hnz : Qeq_bool (inject_Z timeTaken) 0 = false).
  { apply not_true_is_false. intros H. apply Qeq_bool_iff in H.
    unfold Qeq, inject_Z in H. simpl in H. lia. }
  rewrite Hnz. cbn [JS.gt]. apply (gtb_true (Qabs amount / inject_Z timeTaken) q).
Qed.

Lemma commits_iff (amount : Q) (timeTaken : Z) :
  commits amount timeTaken = true
  <-> ((SWIPE_THRESHOLD <= Qabs amount)%Q
       \/ JS.gt (velocity amount timeTaken) 0.11 = true).
Proof.
  unfold commits. rewrite orb_true_iff, geb_true. reflexivity.
Qed.

(** C5.  A pointer-up that ends a drag on a dismissible toast commits to
    dismissal exactly when [|swipeAmount| >= 45] or [velocity > 0.11],
    where [velocity = |swipeAmount| / timeTaken] and the swipe amount is
    the one along the locked axis: the horizontal amount when the axis
    is [x], the vertical amount when it is [y] or not locked.  On commit
    [onDismiss] is called once, [onAutoClose] is not, the removal starts
    and the toast leaves to the side the amount points to; otherwise the
    swipe amounts are reset to 0, nothing is called and the toast stays
    as it was. *)
Theorem C5_pointer_up_decision :
  forall (p : Props) (now started : Z) (w : World),
    dismissible p = true ->
    swipeOut (gesture (inst w)) = false ->
    dragStartTime (gesture (inst w)) = Some started ->
    let amount := match swipeDirection (gesture (inst w)) with
                  | Some AxisX => swipeAmountX (gesture (inst w))
                  | Some AxisY | None => swipeAmountY (gesture (inst w))
                  end in
    let w' := onPointerUp p now w in
    (swipeOut (gesture (inst w')) = true
     <-> ((SWIPE_THRESHOLD <= Qabs amount)%Q
          \/ JS.gt (velocity amount (now - started)) 0.11 = true))
    /\ (0 < now - started ->
        (JS.gt (velocity amount (now - started)) 0.11 = true
         <-> (0.11 < Qabs amount / inject_Z (now - started))%Q))
    /\ (swipeOut (gesture (inst w')) = true ->
        calls (inst w')
        = calls (inst w) ++ (if nullish (get (toast p) "onDismiss") then [] else [OnDismiss])
        /\ removed (inst w') = true
        /\ offsetBeforeRemove (inst w') = offset p w
        /\ unmountTimers (inst w') = unmountTimers (inst w) ++ [now + TIME_BEFORE_UNMOUNT]
        /\ heights w'
           = List.filter (fun h => negb (id_eqb (toastId h) (toast_id (toast p)))) (heights w)
        /\ swipeOutDirection (gesture (inst w'))
           = Some (match swipeDirection (gesture (inst w)) with
                   | Some AxisX => if JS.gtb amount 0 then SwRight else SwLeft
                   | Some AxisY | None => if JS.gtb amount 0 then SwDown else SwUp
                   end))
    /\ (swipeOut (gesture (inst w')) = false ->
        swipeAmountX (gesture (inst w')) = 0%Q
        /\ swipeAmountY (gesture (inst w')) = 0%Q
        /\ calls (inst w') = calls (inst w)
        /\ removed (inst w') = removed (inst w)
        /\ unmountTimers (inst w') = unmountTimers (inst w)
        /\ heights w' = heights w).
Proof.
  intros p now started w Hdis Hout Hstart amount w'.
  assert (Hw' : w' = onPointerUp p now w) by reflexivity.
  unfold onPointerUp in Hw'. rewrite Hstart, Hout, Hdis in Hw'.
  cbn [negb orb] in Hw'.
  assert (Hamount : finalSwipeAmount (gesture (inst w)) = amount).
  { unfold finalSwipeAmount, amount.
    now destruct (swipeDirection (gesture (inst w))) as [[|]|]. }
  rewrite Hamount in Hw'.
  pose proof (commits_iff amount (now - started)) as Hiff.
  destruct (commits amount (now - started)) eqn:Hc.
  - assert (Hcond : (SWIPE_THRESHOLD <= Qabs amount)%Q
                    \/ JS.gt (velocity amount (now - started)) 0.11 = true)
      by now apply Hiff.
    assert (Hs : swipeOut (gesture (inst w')) = true) by (rewrite Hw'; reflexivity).
    split; [split; [intros _; exact Hcond | intros _; exact Hs]|].
    split; [intros Ht; now apply velocity_gt|].
    split; [|rewrite Hs; discriminate].
    assert (Hside : swipeOutDirection (gesture (inst w'))
                    = Some (match swipeDirection (gesture (inst w)) with
                            | Some AxisX => if JS.gtb amount 0 then SwRight else SwLeft
                            | Some AxisY | None => if JS.gtb amount 0 then SwDown else SwUp
                            end)).
    { rewrite Hw'. unfold call_optional, amount.
      destruct (nullish (get (toast p) "onDismiss"));
        now destruct (swipeDirection (gesture (inst w))) as [[|]|]. }
    intros _. split; [|split; [|split; [|split; [|split; [|exact Hside]]]]];
      rewrite Hw'; unfold call_optional;
      destruct (nullish (get (toast p) "onDismiss")); cbn;
      rewrite ?app_nil_r; reflexivity.
  - assert (Hs : swipeOut (gesture (inst w')) = false) by (rewrite Hw'; reflexivity).
    split.
    { split; [rewrite Hs; discriminate|].
      intros Hcond. apply Hiff in Hcond. discriminate Hcond. }
    split; [intros Ht; now apply velocity_gt|].
    split; [rewrite Hs; discriminate|].
    intros _. rewrite Hw'. repeat split; reflexivity.
Qed.

(** ** What one event does to the calls and to the timer *)

Lemma deleteToast_calls (p : Props) (now : Z) (w : World) :
  calls (inst (deleteToast p now w)) = calls (inst w).
Proof. reflexivity. Qed.

Lemma deleteToast_timer (p : Props) (now : Z) (w : World) :
  timer (inst (deleteToast p now w)) = timer (inst w).
Proof. reflexivity. Qed.

Lemma call_optional_calls (t : ToastT) (k : string) (c : Call) (i : Inst) :
  calls (call_optional t k c i) = calls i
  \/ calls (call_optional t k c i) = calls i ++ [c].
Proof. unfold call_optional. destruct (nullish _); [left|right]; reflexivity. Qed.

(** An event makes at most one call, the one [mayCall] names. *)
Lemma step_calls (p : Props) (now : Z) (e : Event) (w : World) :
  calls (inst (step p now e w)) = calls (inst w)
  \/ calls (inst (step p now e w)) = calls (inst w) ++ mayCall e.
Proof.
  unfold step. destruct (disposed (inst w)); [now left|].
  destruct e; cbn [mayCall].
  - now left.
  - unfold autoCloseTimeout. break_conditions; try now left.
    rewrite deleteToast_calls. unfold call_optional.
    destruct (nullish _); [now left | now right].
  - unfold deleteEffect. break_conditions; now left.
  - unfold unmount. break_conditions; now left.
  - now left.
  - break_conditions; now left.
  - break_conditions; now left.
  - unfold onPointerDown. break_conditions; now left.
  - now left.
  - unfold onPointerUp, call_optional.
    break_conditions; first [left; reflexivity | right; reflexivity].
  - now left.
  - unfold onCloseClick, call_optional.
    break_conditions; first [left; reflexivity | right; reflexivity].
  - unfold onCancelClick.
    break_conditions; first [left; reflexivity | right; reflexivity].
  - unfold onActionClick.
    break_conditions; first [left; reflexivity | right; reflexivity].
Qed.

Lemma step_timer (p : Props) (now : Z) (e : Event) (w : World) :
  touchesTimer e = false -> timer (inst (step p now e w)) = timer (inst w).
Proof.
  intros He. unfold step. destruct (disposed (inst w)); [reflexivity|].
  destruct e; try discriminate He.
  - unfold deleteEffect. break_conditions; reflexivity.
  - reflexivity.
  - break_conditions; reflexivity.
  - break_conditions; reflexivity.
  - unfold onPointerDown. break_conditions; reflexivity.
  - reflexivity.
  - unfold onPointerUp, call_optional. break_conditions; reflexivity.
  - reflexivity.
  - unfold onCloseClick, call_optional. break_conditions; reflexivity.
  - unfold onCancelClick. break_conditions; reflexivity.
  - unfold onActionClick. break_conditions; reflexivity.
Qed.

(** ** Histories *)

Lemma run_preserves (P : World -> Prop) (Q : Stamped -> Prop) :
  (forall p now e w, Q (p, now, e) -> P w -> P (step p now e w)) ->
  forall hist w, Forall Q hist -> P w -> P (run hist w).
Proof.
  intros Hstep hist. induction hist as [|[[p now] e] hist IH]; intros w HQ HP.
  - exact HP.
  - inversion HQ as [|? ? Hhead Htail]; subst. simpl.
    apply IH; [exact Htail | now apply Hstep].
Qed.

Lemma run_app (h1 h2 : list Stamped) (w : World) :
  run (h1 ++ h2) w = run h2 (run h1 w).
Proof.
  revert w; induction h1 as [|[[p now] e] h1 IH]; intros w; simpl; [reflexivity|].
  apply IH.
Qed.

(** ** The timer starts for finite durations only *)

Lemma timerEffect_started (p : Props) (now : Z) (t : TimerState) (since : Z) (d : JS.num) :
  timeoutId (timerEffect p now t) = Some (since, d) ->
  since = now /\ d = remainingTime t
  /\ JS.is_Infinity d = false
  /\ isLoading p = false
  /\ toast_duration (toast p) <> Some JS.PInf
  /\ paused p = false.
Proof.
  unfold timerEffect.
  destruct (toast_duration (toast p)) as [[q| | |]|] eqn:Hd;
    try discriminate;
    (destruct (isLoading p); [discriminate|];
     destruct (paused p); [discriminate|];
     unfold startTimer; cbn [remainingTime];
     destruct (JS.is_Infinity (remainingTime t)) eqn:Hinf; [discriminate|];
     cbn [timeoutId]; intros H; injection H as <- <-;
     repeat split; try assumption; try reflexivity; discriminate).
Qed.

Lemma timerEffect_never (p : Props) (now : Z) (t : TimerState) :
  toast_duration (toast p) = Some JS.PInf \/ isLoading p = true ->
  timeoutId (timerEffect p now t) = None.
Proof.
  unfold timerEffect. intros [->|Hl]; [reflexivity|].
  rewrite Hl. now destruct (toast_duration (toast p)) as [[]|].
Qed.

Lemma timerEffect_infinite (p : Props) (now : Z) (t : TimerState) :
  remainingTime t = JS.PInf ->
  remainingTime (timerEffect p now t) = JS.PInf
  /\ timeoutId (timerEffect p now t) = None.
Proof.
  intros Hinf. unfold timerEffect, pauseTimer, startTimer. cbn [remainingTime].
  rewrite Hinf. cbn.
  destruct (toast_duration (toast p)) as [[]|]; cbn; try (split; reflexivity);
    destruct (isLoading p); cbn; try (split; reflexivity);
    destruct (paused p); cbn; try (split; reflexivity);
    destruct (_ <? _); split; reflexivity.
Qed.

Lemma timerEffect_wellFormed (p : Props) (now : Z) (t : TimerState) :
  wellFormedDuration (remainingTime t) = true ->
  wellFormedDuration (remainingTime (timerEffect p now t)) = true.
Proof.
  intros Hwf. unfold timerEffect, pauseTimer, startTimer. cbn [remainingTime].
  destruct (remainingTime t) as [q| | |] eqn:Hr; try discriminate Hwf;
    destruct (toast_duration (toast p)) as [[]|]; cbn; try reflexivity;
    destruct (isLoading p); cbn; try reflexivity;
    destruct (paused p); cbn; try reflexivity;
    destruct (_ <? _); reflexivity.
Qed.

Lemma autoCloseTimeout_idle (p : Props) (now : Z) (w : World) :
  timeoutId (timer (inst w)) = None -> autoCloseTimeout p now w = w.
Proof. intros H. unfold autoCloseTimeout. now rewrite H. Qed.

Lemma step_disposed (p : Props) (now : Z) (e : Event) (w : World) :
  disposed (inst w) = true -> step p now e w = w.
Proof. intros H. unfold step. now rewrite H. Qed.

Lemma unmount_timer (now : Z) (w : World) :
  timeoutId (timer (inst (unmount now w))) = None
  \/ unmount now w = w.
Proof. unfold unmount. destruct (existsb _ _); [left | right]; reflexivity. Qed.

Lemma unmount_calls (now : Z) (w : World) :
  calls (inst (unmount now w)) = calls (inst w).
Proof. unfold unmount. destruct (existsb _ _); reflexivity. Qed.

Lemma unmount_remaining (now : Z) (w : World) :
  remainingTime (timer (inst (unmount now w))) = remainingTime (timer (inst w)).
Proof. unfold unmount. destruct (existsb _ _); reflexivity. Qed.

Lemma step_quiet_calls (p : Props) (now : Z) (e : Event) (w : World) :
  e <> AutoCloseTimeout -> ~ In OnAutoClose (calls (inst w)) ->
  ~ In OnAutoClose (calls (inst (step p now e w))).
Proof.
  intros He Hno. destruct (step_calls p now e w) as [->| ->]; [exact Hno|].
  rewrite in_app_iff. intros [H|H]; [now apply Hno|].
  destruct e; simpl in H; intuition congruence.
Qed.

Lemma step_quiet (p : Props) (now : Z) (e : Event) (w : World) :
  (toast_duration (toast p) = Some JS.PInf \/ isLoading p = true
   \/ remainingTime (timer (inst w)) = JS.PInf) ->
  quiet w -> quiet (step p now e w).
Proof.
  intros Hnever [Htimer Hcalls].
  destruct (disposed (inst w)) eqn:Hdisp.
  { rewrite step_disposed by exact Hdisp. now split. }
  destruct (touchesTimer e) eqn:Htouch.
  - destruct e; try discriminate Htouch.
    + split; [|apply step_quiet_calls; [discriminate | exact Hcalls]].
      unfold step. rewrite Hdisp. cbn.
      destruct Hnever as [H|[H|H]].
      * apply timerEffect_never. now left.
      * apply timerEffect_never. now right.
      * now apply timerEffect_infinite.
    + unfold step. rewrite Hdisp, autoCloseTimeout_idle by exact Htimer. now split.
    + unfold step. rewrite Hdisp. split.
      * destruct (unmount_timer now w) as [H| ->]; assumption.
      * now rewrite unmount_calls.
  - split.
    + rewrite step_timer by exact Htouch. exact Htimer.
    + apply step_quiet_calls; [|exact Hcalls]. intros ->. discriminate Htouch.
Qed.

Lemma step_remaining_infinite (p : Props) (now : Z) (e : Event) (w : World) :
  remainingTime (timer (inst w)) = JS.PInf ->
  remainingTime (timer (inst (step p now e w))) = JS.PInf.
Proof.
  intros Hinf.
  destruct (disposed (inst w)) eqn:Hdisp.
  { now rewrite step_disposed. }
  destruct (touchesTimer e) eqn:Htouch.
  - destruct e; try discriminate Htouch; unfold step; rewrite Hdisp.
    + cbn. now apply timerEffect_infinite.
    + unfold autoCloseTimeout. break_conditions; try exact Hinf.
      rewrite deleteToast_timer. unfold call_optional.
      destruct (nullish _); exact Hinf.
    + now rewrite unmount_remaining.
  - now rewrite step_timer.
Qed.

Lemma autoCloseTimeout_timer (p : Props) (now : Z) (w : World) :
  autoCloseTimeout p now w = w
  \/ (remainingTime (timer (inst (autoCloseTimeout p now w)))
      = remainingTime (timer (inst w))
      /\ timeoutId (timer (inst (autoCloseTimeout p now w))) = None).
Proof.
  unfold autoCloseTimeout. break_conditions; try now left.
  right. rewrite deleteToast_timer. unfold call_optional.
  destruct (nullish _); split; reflexivity.
Qed.

Lemma step_finiteTimer (p : Props) (now : Z) (e : Event) (w : World) :
  finiteTimer w -> finiteTimer (step p now e w).
Proof.
  intros [Hwf Hpending].
  destruct (disposed (inst w)) eqn:Hdisp.
  { rewrite step_disposed by exact Hdisp. now split. }
  destruct (touchesTimer e) eqn:Htouch.
  - destruct e; try discriminate Htouch; unfold step; rewrite Hdisp.
    + cbn. split; [now apply timerEffect_wellFormed|].
      intros since d Hsome.
      apply timerEffect_started in Hsome as (_ & -> & Hinf & _).
      unfold wellFormedDuration in Hwf. rewrite Hinf, orb_false_r in Hwf. exact Hwf.
    + destruct (autoCloseTimeout_timer p now w) as [-> | [Hr Hnone]]; [now split|].
      split; [now rewrite Hr|]. intros since d Hsome. congruence.
    + split; [now rewrite unmount_remaining|].
      destruct (unmount_timer now w) as [Hnone | ->]; [|exact Hpending].
      intros since d Hsome. congruence.
  - unfold finiteTimer. rewrite step_timer by exact Htouch. now split.
Qed.

(** While no timeout is pending and the toast is not to expire, an event
    leaves it so and adds no call of [onAutoClose]. *)
Lemma step_no_autoClose (p : Props) (now : Z) (e : Event) (w : World) :
  toast_duration (toast p) = Some JS.PInf \/ isLoading p = true ->
  timeoutId (timer (inst w)) = None ->
  timeoutId (timer (inst (step p now e w))) = None
  /\ count_call OnAutoClose (step p now e w) = count_call OnAutoClose w.
Proof.
  intros Hnever Htimer.
  destruct (disposed (inst w)) eqn:Hdisp.
  { rewrite step_disposed by exact Hdisp. now split. }
  assert (Hcount : e <> AutoCloseTimeout ->
                   count_call OnAutoClose (step p now e w) = count_call OnAutoClose w).
  { intros He. unfold count_call.
    destruct (step_calls p now e w) as [-> | ->]; [reflexivity|].
    assert (Hnone : List.filter (fun c' => bool_decide (c' = OnAutoClose)) (mayCall e) = [])
      by (destruct e; try reflexivity; exfalso; now apply He).
    rewrite List.filter_app, length_app, Hnone. simpl. lia. }
  destruct (touchesTimer e) eqn:Htouch.
  - destruct e; try discriminate Htouch.
    + split; [|apply Hcount; discriminate].
      unfold step. rewrite Hdisp. cbn. now apply timerEffect_never.
    + unfold step. rewrite Hdisp, autoCloseTimeout_idle by exact Htimer. now split.
    + split; [|apply Hcount; discriminate].
      unfold step. rewrite Hdisp.
      destruct (unmount_timer now w) as [H| ->]; assumption.
  - split; [rewrite step_timer by exact Htouch; exact Htimer|].
    apply Hcount. intros ->. discriminate Htouch.
Qed.

(** C4.  The timer effect sets a timeout only when the remaining time is
    not [Infinity], the toast is not loading and its duration is not
    [Infinity]; for a duration that is a finite number or [Infinity] the
    delay of every pending timeout is finite, so [Infinity] never reaches
    [setTimeout]; and a toast whose duration is [Infinity] or that is
    loading never has a pending timeout and never has [onAutoClose]
    called, whatever happens and whenever.  The same holds from the moment
    a toast becomes such a toast: the run of the timer effect clears the
    timeout and [onAutoClose] is not called from then on. *)
Theorem C4_timer_only_for_finite_durations :
  (forall (p : Props) (now : Z) (t : TimerState) (since : Z) (d : JS.num),
      timeoutId (timerEffect p now t) = Some (since, d) ->
      d = remainingTime t
      /\ JS.is_Infinity d = false
      /\ isLoading p = false
      /\ toast_duration (toast p) <> Some JS.PInf)
  /\ (forall (hist : list Stamped) (p0 : Props) (hs : list HeightT) (since : Z) (d : JS.num),
         wellFormedDuration (initialRemainingTime p0) = true ->
         timeoutId (timer (inst (run hist (mkWorld hs (initialInst p0))))) = Some (since, d) ->
         JS.isFinite d = true)
  /\ (forall (hist : list Stamped) (p0 : Props) (hs : list HeightT),
         (initialRemainingTime p0 = JS.PInf \/ Forall neverExpires hist) ->
         timeoutId (timer (inst (run hist (mkWorld hs (initialInst p0))))) = None
         /\ ~ In OnAutoClose (calls (inst (run hist (mkWorld hs (initialInst p0))))))
  /\ (forall (hist : list Stamped) (p : Props) (now : Z) (w : World),
         neverExpires (p, now, TimerEffect) ->
         Forall neverExpires hist ->
         disposed (inst w) = false ->
         timeoutId (timer (inst (run hist (step p now TimerEffect w)))) = None
         /\ count_call OnAutoClose (run hist (step p now TimerEffect w))
            = count_call OnAutoClose w).
Proof.
  split; [|split; [|split]]; cycle 3.
  { intros hist p now w Hp Hhist Hdisp.
    assert (Hfirst : timeoutId (timer (inst (step p now TimerEffect w))) = None
                     /\ count_call OnAutoClose (step p now TimerEffect w)
                        = count_call OnAutoClose w).
    { split.
      - unfold step. rewrite Hdisp. cbn. now apply timerEffect_never.
      - unfold count_call.
        destruct (step_calls p now TimerEffect w) as [-> | ->]; [reflexivity|].
        cbn. now rewrite app_nil_r. }
    apply (run_preserves
             (fun w' => timeoutId (timer (inst w')) = None
                        /\ count_call OnAutoClose w' = count_call OnAutoClose w)
             neverExpires); [| exact Hhist | exact Hfirst].
    intros p' now' e w' Hn [Htimer Hcount].
    destruct (step_no_autoClose p' now' e w' Hn Htimer) as [Ht Hc].
    split; [exact Ht | now rewrite Hc]. }
  - intros p now t since d H.
    apply timerEffect_started in H as (_ & Hd & Hinf & Hl & Hdur & _).
    repeat split; assumption.
  - intros hist p0 hs since d Hwf Hsome.
    assert (Hfin : finiteTimer (run hist (mkWorld hs (initialInst p0)))).
    { apply (run_preserves finiteTimer (fun _ => True)).
      - intros p now e w _. apply step_finiteTimer.
      - apply Forall_forall. trivial.
      - split; [exact Hwf | discriminate]. }
    exact (proj2 Hfin since d Hsome).
  - intros hist p0 hs [Hinf | Hnever].
    + assert (H : quiet (run hist (mkWorld hs (initialInst p0)))
                  /\ remainingTime (timer (inst (run hist (mkWorld hs (initialInst p0)))))
                     = JS.PInf).
      { apply (run_preserves
                 (fun w => quiet w /\ remainingTime (timer (inst w)) = JS.PInf)
                 (fun _ => True)).
        - intros p now e w _ [Hq Hr]. split.
          + apply step_quiet; [right; right; exact Hr | exact Hq].
          + now apply step_remaining_infinite.
        - apply Forall_forall. trivial.
        - split; [split; [reflexivity | intros []] | exact Hinf]. }
      exact (proj1 H).
    + apply (run_preserves quiet neverExpires); [| exact Hnever |].
      * intros p now e w Hn Hq. apply step_quiet; [|exact Hq].
        destruct Hn as [H|H]; [left | right; left]; exact H.
      * split; [reflexivity | intros []].
Qed.

(** ** Pause and resume *)

Lemma timerEffect_pause (p : Props) (now : Z) (t : TimerState) :
  armed p -> paused p = true ->
  timerEffect p now t
  = pauseTimer now (mkTimer (remainingTime t) (closeTimerStartTimeRef t)
                            (lastCloseTimerStartTimeRef t) None).
Proof.
  intros [Hd Hl] Hp. unfold timerEffect. rewrite Hl, Hp.
  destruct (toast_duration (toast p)) as [[]|]; try reflexivity. congruence.
Qed.

Lemma timerEffect_resume (p : Props) (now : Z) (t : TimerState) :
  armed p -> paused p = false ->
  timerEffect p now t
  = startTimer now (mkTimer (remainingTime t) (closeTimerStartTimeRef t)
                            (lastCloseTimerStartTimeRef t) None).
Proof.
  intros [Hd Hl] Hp. unfold timerEffect. rewrite Hl, Hp.
  destruct (toast_duration (toast p)) as [[]|]; try reflexivity. congruence.
Qed.

(** A pause that finds the timer running takes the time since the start
    off the remaining time; the resume after it sets the timeout anew. *)
Lemma segment_running (seg : Segment) (r : Q) (start last : Z) (pending : option (Z * JS.num)) :
  pauseThenResume seg -> last < start ->
  timerEffect (fst (snd seg)) (resumeTime seg)
    (timerEffect (fst (fst seg)) (pauseTime seg) (mkTimer (JS.Fin r) start last pending))
  = mkTimer (JS.Fin (r - inject_Z (pauseTime seg - start))) (resumeTime seg) (pauseTime seg)
            (Some (resumeTime seg, JS.Fin (r - inject_Z (pauseTime seg - start)))).
Proof.
  intros (Hap & Hpp & Har & Hpr) Hlt.
  rewrite (timerEffect_pause _ _ _ Hap Hpp). unfold pauseTimer. cbn.
  rewrite (proj2 (Z.ltb_lt last start) Hlt).
  rewrite (timerEffect_resume _ _ _ Har Hpr). reflexivity.
Qed.

(** A pause that finds the timer paused already leaves the remaining time
    alone. *)
Lemma pause_while_paused (p : Props) (now : Z) (t : TimerState) :
  paused p = true ->
  ~ (lastCloseTimerStartTimeRef t < closeTimerStartTimeRef t) ->
  remainingTime (timerEffect p now t) = remainingTime t.
Proof.
  intros Hp Hge. unfold timerEffect, pauseTimer. rewrite Hp. cbn.
  rewrite (proj2 (Z.ltb_ge _ _)) by lia.
  destruct (toast_duration (toast p)) as [[]|]; try reflexivity;
    destruct (isLoading p); reflexivity.
Qed.

Lemma alternate_strict (segs : list Segment) :
  forall (r : Q) (start last : Z),
    Forall pauseThenResume segs ->
    chronological true start segs ->
    last < start ->
    exists (r' : Q) (last' : Z),
      alternate segs (mkTimer (JS.Fin r) start last (Some (start, JS.Fin r)))
      = mkTimer (JS.Fin r') (lastResume start segs) last'
                (Some (lastResume start segs, JS.Fin r'))
      /\ (r' == r - inject_Z (runningTime start segs))%Q
      /\ last' < lastResume start segs.
Proof.
  induction segs as [|seg segs IH]; intros r start last Hsegs Hchron Hlt.
  - exists r, last. simpl. repeat split; [ring | exact Hlt].
  - inversion Hsegs as [|? ? Hseg Hrest]; subst.
    destruct Hchron as (Hsince & Hstrict & Hchron).
    unfold alternate. cbn [fold_left].
    rewrite (segment_running seg r start last _ Hseg Hlt).
    destruct (IH (r - inject_Z (pauseTime seg - start))%Q (resumeTime seg) (pauseTime seg)
                 Hrest Hchron Hstrict)
      as (r' & last' & Heq & Hr' & Hlast').
    exists r', last'. cbn [lastResume runningTime].
    split; [exact Heq|]. split; [|exact Hlast'].
    rewrite Hr', inject_Z_plus. ring.
Qed.

Lemma initial_start (p0 : Props) (t0 : Z) (D : Q) :
  initialRemainingTime p0 = JS.Fin D -> armed p0 -> paused p0 = false ->
  timerEffect p0 t0 (timer (initialInst p0))
  = mkTimer (JS.Fin D) t0 0 (Some (t0, JS.Fin D)).
Proof.
  intros HD Ha Hp. rewrite (timerEffect_resume _ _ _ Ha Hp).
  cbn. rewrite HD. reflexivity.
Qed.

Lemma runningTime_nonneg (strict : bool) (since : Z) (segs : list Segment) :
  chronological strict since segs -> 0 <= runningTime since segs.
Proof.
  revert since. induction segs as [|seg segs IH]; intros since Hchron; cbn; [lia|].
  destruct Hchron as (Hsince & _ & Hrest). specialize (IH _ Hrest). lia.
Qed.

(** The timeout runs its callback once the clock has reached its due
    time, and not before. *)
Lemma autoCloseTimeout_fires (p : Props) (now : Z) (w : World) (pending : Z * JS.num) :
  timeoutId (timer (inst w)) = Some pending ->
  nullish (get (toast p) "onAutoClose") = false ->
  ((due pending <= inject_Z now)%Q ->
     calls (inst (autoCloseTimeout p now w)) = calls (inst w) ++ [OnAutoClose]
     /\ removed (inst (autoCloseTimeout p now w)) = true)
  /\ ((inject_Z now < due pending)%Q -> autoCloseTimeout p now w = w).
Proof.
  intros Hsome Hcb. unfold autoCloseTimeout. rewrite Hsome. split.
  - intros Hdue. rewrite (proj2 (Qle_bool_iff _ _) Hdue).
    unfold call_optional. rewrite Hcb. split; reflexivity.
  - intros Hearly.
    replace (Qle_bool (due pending) (inject_Z now)) with false; [reflexivity|].
    symmetry. apply not_true_is_false. intros H. apply Qle_bool_iff in H. lra.
Qed.

(** C3, as the code has it.  A pause signal that finds the timer paused
    (the last pause is not earlier than the last start) leaves the
    remaining time alone.  For every alternation of pause and resume
    signals in which each resume has a later timestamp than the pause
    before it, the remaining time goes down by exactly the time spent
    running, and the timeout set by the last resume is given what remains.
    So a toast of 4000 ms paused after 1000 ms of running has its timeout
    due after 3000 ms more of running time, however long and however often
    it is paused; [onAutoClose] is called when that timeout is due and not
    before. *)
Theorem C3_pause_resume_conserves_remaining_time :
  (forall (p : Props) (now : Z) (t : TimerState),
      paused p = true ->
      ~ (lastCloseTimerStartTimeRef t < closeTimerStartTimeRef t) ->
      remainingTime (timerEffect p now t) = remainingTime t)
  /\ (forall (D : Q) (p0 : Props) (t0 : Z) (segs : list Segment),
         initialRemainingTime p0 = JS.Fin D ->
         armed p0 -> paused p0 = false -> 0 < t0 ->
         Forall pauseThenResume segs ->
         chronological true t0 segs ->
         exists r : Q,
           remainingTime (alternate segs (timerEffect p0 t0 (timer (initialInst p0))))
           = JS.Fin r
           /\ (r == D - inject_Z (runningTime t0 segs))%Q
           /\ timeoutId (alternate segs (timerEffect p0 t0 (timer (initialInst p0))))
              = Some (lastResume t0 segs, JS.Fin r))
  /\ (forall (p0 : Props) (t0 : Z) (first : Segment) (segs : list Segment),
         initialRemainingTime p0 = JS.Fin 4000 ->
         armed p0 -> paused p0 = false -> 0 < t0 ->
         Forall pauseThenResume (first :: segs) ->
         chronological true t0 (first :: segs) ->
         pauseTime first = t0 + 1000 ->
         runningTime (resumeTime first) segs <= 3000 ->
         exists pending : Z * JS.num,
           timeoutId (alternate (first :: segs)
                        (timerEffect p0 t0 (timer (initialInst p0)))) = Some pending
           /\ (inject_Z (runningTime (resumeTime first) segs)
               + (due pending - inject_Z (lastResume t0 (first :: segs))) == 3000)%Q
           /\ (forall (p : Props) (now : Z) (w : World),
                  timeoutId (timer (inst w)) = Some pending ->
                  nullish (get (toast p) "onAutoClose") = false ->
                  ((due pending <= inject_Z now)%Q ->
                     calls (inst (autoCloseTimeout p now w))
                     = calls (inst w) ++ [OnAutoClose]
                     /\ removed (inst (autoCloseTimeout p now w)) = true)
                  /\ ((inject_Z now < due pending)%Q -> autoCloseTimeout p now w = w))).
Proof.
  split; [exact pause_while_paused|].
  assert (Hgeneral :
            forall (D : Q) (p0 : Props) (t0 : Z) (segs : list Segment),
              initialRemainingTime p0 = JS.Fin D ->
              armed p0 -> paused p0 = false -> 0 < t0 ->
              Forall pauseThenResume segs ->
              chronological true t0 segs ->
              exists r : Q,
                remainingTime (alternate segs (timerEffect p0 t0 (timer (initialInst p0))))
                = JS.Fin r
                /\ (r == D - inject_Z (runningTime t0 segs))%Q
                /\ timeoutId (alternate segs (timerEffect p0 t0 (timer (initialInst p0))))
                   = Some (lastResume t0 segs, JS.Fin r)).
  { intros D p0 t0 segs HD Ha Hp Ht0 Hsegs Hchron.
    rewrite (initial_start p0 t0 D HD Ha Hp).
    destruct (alternate_strict segs D t0 0 Hsegs Hchron Ht0) as (r & last & Heq & Hr & _).
    exists r. rewrite Heq. repeat split. exact Hr. }
  split; [exact Hgeneral|].
  intros p0 t0 first segs HD Ha Hp Ht0 Hsegs Hchron Hfirst Hrun.
  destruct (Hgeneral 4000%Q p0 t0 (first :: segs) HD Ha Hp Ht0 Hsegs Hchron)
    as (r & _ & Hr & Hpending).
  exists (lastResume t0 (first :: segs), JS.Fin r).
  split; [exact Hpending|].
  cbn [runningTime] in Hr. rewrite Hfirst in Hr.
  rewrite inject_Z_plus in Hr.
  assert (Hle : (inject_Z (runningTime (resumeTime first) segs) <= 3000)%Q).
  { change 3000%Q with (inject_Z 3000). rewrite <- Zle_Qle. exact Hrun. }
  assert (H1000 : (inject_Z (t0 + 1000 - t0) == 1000)%Q).
  { replace (t0 + 1000 - t0) with 1000 by lia. reflexivity. }
  rewrite H1000 in Hr.
  assert (Hnonneg : (0 <= r)%Q) by lra.
  assert (Hran : (0 <= inject_Z (runningTime (resumeTime first) segs))%Q).
  { change 0%Q with (inject_Z 0). rewrite <- Zle_Qle.
    destruct Hchron as (_ & _ & Hrest).
    now apply (runningTime_nonneg true (resumeTime first) segs). }
  assert (Hfits : (r <= TIMEOUT_MAX)%Q) by (unfold TIMEOUT_MAX; lra).
  split.
  - unfold due, timeout_delay. cbn [fst snd].
    rewrite (proj2 (Qle_bool_iff 0 r) Hnonneg), (proj2 (Qle_bool_iff r _) Hfits).
    cbn [andb]. lra.
  - intros p now w. apply autoCloseTimeout_fires.
Qed.

(** C3 as the specification words it fails when a pause has no length on
    the millisecond clock.  Started at 1000, paused at 2000 and resumed in
    the same millisecond, paused again at 2500 and resumed at 2600: the
    toast ran for 1500 ms, yet 3000 ms remain, since the second pause finds
    the last pause not earlier than the last start. *)
Lemma C3_counterexample :
  ~ (forall (D : Q) (p0 : Props) (t0 : Z) (segs : list Segment),
        initialRemainingTime p0 = JS.Fin D ->
        armed p0 -> paused p0 = false -> 0 < t0 ->
        Forall pauseThenResume segs ->
        chronological false t0 segs ->
        exists r : Q,
          remainingTime (alternate segs (timerEffect p0 t0 (timer (initialInst p0))))
          = JS.Fin r
          /\ (r == D - inject_Z (runningTime t0 segs))%Q).
Proof.
  intros Hclaim.
  assert (Hr : armed Sample.running)
    by (split; [vm_compute; discriminate | reflexivity]).
  destruct (Hclaim 4000%Q Sample.running 1000
              [((Sample.hovered, 2000), (Sample.running, 2000));
               ((Sample.hovered, 2500), (Sample.running, 2600))])
    as (r & Hrem & Heq).
  - reflexivity.
  - exact Hr.
  - reflexivity.
  - lia.
  - repeat (apply List.Forall_cons;
            [unfold pauseThenResume, armed; cbn [fst snd];
             repeat split; try reflexivity; vm_compute; discriminate|]).
    apply List.Forall_nil.
  - cbn. lia.
  - vm_compute in Hrem. injection Hrem as <-.
    vm_compute in Heq. discriminate Heq.
Qed.

(** Paused at 2000 after a second of running, resumed at 9000, paused for
    100 ms at 9500: the timeout is due 2500 ms after the last resume. *)
Lemma C3_pause_resume_conserves_remaining_time_witness :
  exists pending : Z * JS.num,
    timeoutId (alternate [((Sample.hovered, 2000), (Sample.running, 9000));
                          ((Sample.hovered, 9500), (Sample.running, 9600))]
                 (timerEffect Sample.running 1000 (timer (initialInst Sample.running))))
    = Some pending
    /\ (inject_Z 500 + (due pending - inject_Z 9600) == 3000)%Q.
Proof.
  destruct (proj2 (proj2 C3_pause_resume_conserves_remaining_time)
              Sample.running 1000
              ((Sample.hovered, 2000), (Sample.running, 9000))
              [((Sample.hovered, 9500), (Sample.running, 9600))])
    as (pending & Hpending & Hdue & _).
  - reflexivity.
  - split; [vm_compute; discriminate | reflexivity].
  - reflexivity.
  - lia.
  - repeat (apply List.Forall_cons;
            [unfold pauseThenResume, armed; cbn [fst snd];
             repeat split; try reflexivity; vm_compute; discriminate|]).
    apply List.Forall_nil.
  - cbn. lia.
  - reflexivity.
  - vm_compute. discriminate.
  - exists pending. split; [exact Hpending | exact Hdue].
Defined.

(** ** Callbacks *)


(** Neither callback is bounded by one either.  Two clicks on the close
    button 100 ms apart call [onDismiss] twice. *)
Example close_button_twice :
  calls (inst (run [(Sample.running, 1000, TimerEffect);
                    (Sample.running, 2000, CloseClick);
                    (Sample.running, 2100, CloseClick)] Sample.mounted))
  = [OnDismiss; OnDismiss].
Proof. reflexivity. Qed.

(** After the timeout ran at 5000 the list is hovered for 50 ms: the pause
    leaves a negative remaining time, the resume sets a timeout with it,
    and that one runs before the unmount at 5200. *)
Example timeout_twice :
  calls (inst (run [(Sample.running, 1000, TimerEffect);
                    (Sample.running, 5000, AutoCloseTimeout);
                    (Sample.hovered, 5050, TimerEffect);
                    (Sample.running, 5100, TimerEffect);
                    (Sample.running, 5100, AutoCloseTimeout)] Sample.mounted))
  = [OnAutoClose; OnAutoClose].
Proof. reflexivity. Qed.

(** A pointer-down on a toast that is being removed captures the offset
    again as well. *)
Example pointer_down_while_removed :
  map (fun hist => reportedOffset Sample.running (run hist Sample.mounted))
      [[(Sample.running, 2000, CloseClick)];
       [(Sample.running, 2000, CloseClick);
        (Sample.running, 2100, PointerDown 10 10 false)]]
  = [(inject_Z 0 * 14 + 0)%Q; (inject_Z (-1) * 14 + 0)%Q].
Proof. reflexivity. Qed.

(** ** The offset of a toast that is being removed *)

Lemma step_keepsOffset (p : Props) (now : Z) (e : Event) (w : World) :
  keepsOffset e = true ->
  removed (inst (step p now e w)) = removed (inst w)
  /\ offsetBeforeRemove (inst (step p now e w)) = offsetBeforeRemove (inst w).
Proof.
  intros He. unfold step. destruct (disposed (inst w)); [now split|].
  destruct e; try discriminate He; try (split; reflexivity).
  - unfold unmount. destruct (existsb _ _); split; reflexivity.
  - destruct (id_eqb _ _); split; reflexivity.
  - destruct (id_eqb _ _); split; reflexivity.
Qed.

Lemma step_removed (p : Props) (now : Z) (e : Event) (w : World) :
  removed (inst w) = true -> removed (inst (step p now e w)) = true.
Proof.
  intros Hr. unfold step. destruct (disposed (inst w)); [exact Hr|].
  destruct e; cbn; try exact Hr.
  - unfold autoCloseTimeout, call_optional. break_conditions; try exact Hr; reflexivity.
  - destruct (deleteEffect_cases p now w) as [-> | [-> | ->]];
      [exact Hr | reflexivity | reflexivity].
  - unfold unmount. break_conditions; exact Hr.
  - break_conditions; exact Hr.
  - break_conditions; exact Hr.
  - unfold onPointerDown. break_conditions; exact Hr.
  - unfold onPointerUp, call_optional. break_conditions; try exact Hr; reflexivity.
  - unfold onCloseClick, call_optional. break_conditions; try exact Hr; reflexivity.
  - unfold onCancelClick. break_conditions; try exact Hr; reflexivity.
  - unfold onActionClick. break_conditions; try exact Hr; reflexivity.
Qed.

(** ** The callbacks of one toast *)

Lemma step_callback_removes (p : Props) (now : Z) (e : Event) (w : World) (c : Call) :
  c = OnDismiss \/ c = OnAutoClose ->
  In c (calls (inst (step p now e w))) ->
  ~ In c (calls (inst w)) ->
  removed (inst (step p now e w)) = true.
Proof.
  intros Hc Hin Hno. unfold step in *.
  destruct (disposed (inst w)); [contradiction|].
  destruct e; try contradiction.
  - unfold autoCloseTimeout in *. destruct (timeoutId (timer (inst w))); [|contradiction].
    destruct (Qle_bool _ _); [reflexivity | contradiction].
  - destruct (deleteEffect_cases p now w) as [Heq | [Heq | Heq]]; rewrite Heq in *;
      [contradiction | reflexivity | reflexivity].
  - unfold unmount in *. destruct (existsb _ _); contradiction.
  - destruct (id_eqb _ _); contradiction.
  - destruct (id_eqb _ _); contradiction.
  - unfold onPointerDown in *. destruct (_ || _); [contradiction|].
    destruct isButton; contradiction.
  - unfold onPointerUp in *. destruct (dragStartTime _); [|contradiction].
    destruct (_ || _); [contradiction|].
    destruct (commits _ _); [reflexivity | contradiction].
  - destruct (closeButtonShown p); [|contradiction].
    unfold onCloseClick in *. destruct (_ || _); [contradiction|].
    unfold call_optional. destruct (nullish _); reflexivity.
  - destruct (isAction _); [|contradiction].
    unfold onCancelClick in *. destruct (negb _); [contradiction | reflexivity].
  - destruct (isAction _); [|contradiction].
    unfold onActionClick in *. destruct defaultPrevented; [|reflexivity].
    cbn in Hin. apply in_app_iff in Hin as [Hin|[Hin|[]]]; [contradiction|].
    destruct Hc as [->| ->]; discriminate Hin.
Qed.

Lemma step_noCallBeforeRemoval (p : Props) (now : Z) (e : Event) (w : World) :
  noCallBeforeRemoval w -> noCallBeforeRemoval (step p now e w).
Proof.
  intros Hinv Hnot.
  assert (Hbefore : removed (inst w) = false).
  { destruct (removed (inst w)) eqn:Hr; [|reflexivity].
    rewrite (step_removed p now e w Hr) in Hnot. discriminate. }
  destruct (Hinv Hbefore) as [Hd Ha].
  split; intros Hin.
  - rewrite (step_callback_removes p now e w OnDismiss (or_introl eq_refl) Hin Hd) in Hnot.
    discriminate.
  - rewrite (step_callback_removes p now e w OnAutoClose (or_intror eq_refl) Hin Ha) in Hnot.
    discriminate.
Qed.

(** What an event other than the unmount does to the pending
    [removeToast] timeouts: it adds some, one of them for 200 ms from now
    when it is the event that begins the removal. *)
Lemma step_unmountTimers (p : Props) (now : Z) (e : Event) (w : World) :
  disposed (inst w) = false -> e <> Unmount ->
  disposed (inst (step p now e w)) = false
  /\ exists extra,
       unmountTimers (inst (step p now e w)) = unmountTimers (inst w) ++ extra
       /\ (removed (inst (step p now e w)) = true -> removed (inst w) = false ->
           In (now + TIME_BEFORE_UNMOUNT) extra).
Proof.
  intros Hdisp He.
  assert (Hsame : disposed (inst w) = false
                  /\ exists extra,
                       unmountTimers (inst w) = unmountTimers (inst w) ++ extra
                       /\ (removed (inst w) = true -> removed (inst w) = false ->
                           In (now + TIME_BEFORE_UNMOUNT) extra)).
  { split; [exact Hdisp|]. exists []. rewrite app_nil_r. split; [reflexivity|]. congruence. }
  assert (Honce : forall w0 : World,
             disposed (inst w0) = false ->
             unmountTimers (inst w0) = unmountTimers (inst w) ->
             disposed (inst (deleteToast p now w0)) = false
             /\ exists extra,
                  unmountTimers (inst (deleteToast p now w0)) = unmountTimers (inst w) ++ extra
                  /\ (removed (inst (deleteToast p now w0)) = true ->
                      removed (inst w) = false ->
                      In (now + TIME_BEFORE_UNMOUNT) extra)).
  { intros w0 Hd0 Ht0. split; [exact Hd0|]. exists [now + TIME_BEFORE_UNMOUNT].
    cbn [deleteToast inst unmountTimers]. rewrite Ht0. split; [reflexivity|].
    intros _ _. now left. }
  unfold step. rewrite Hdisp.
  destruct e; try exact Hsame; try congruence.
  - unfold autoCloseTimeout. destruct (timeoutId (timer (inst w))); [|exact Hsame].
    destruct (Qle_bool _ _); [|exact Hsame].
    apply Honce; unfold call_optional; destruct (nullish _); assumption || reflexivity.
  - destruct (deleteEffect_cases p now w) as [-> | [-> | ->]]; [exact Hsame| |].
    + now apply Honce.
    + split; [exact Hdisp|].
      exists [now + TIME_BEFORE_UNMOUNT; now + TIME_BEFORE_UNMOUNT].
      cbn [deleteToast inst unmountTimers]. rewrite <- app_assoc.
      split; [reflexivity|]. intros _ _. now left.
  - destruct (id_eqb _ _); exact Hsame.
  - destruct (id_eqb _ _); exact Hsame.
  - unfold onPointerDown. destruct (_ || _); [exact Hsame|].
    destruct isButton; exact Hsame.
  - unfold onPointerUp. destruct (dragStartTime _); [|exact Hsame].
    destruct (_ || _); [exact Hsame|].
    destruct (commits _ _); [|exact Hsame].
    split; [unfold call_optional; destruct (nullish _); exact Hdisp|].
    exists [now + TIME_BEFORE_UNMOUNT]. unfold call_optional.
    destruct (nullish _); (split; [reflexivity|]); intros _ _; now left.
  - destruct (closeButtonShown p); [|exact Hsame].
    unfold onCloseClick. destruct (_ || _); [exact Hsame|].
    split; [unfold call_optional; destruct (nullish _); exact Hdisp|].
    exists [now + TIME_BEFORE_UNMOUNT]. unfold call_optional.
    destruct (nullish _); (split; [reflexivity|]); intros _ _; now left.
  - destruct (isAction _); [|exact Hsame].
    unfold onCancelClick. destruct (negb _); [exact Hsame|].
    now apply Honce.
  - destruct (isAction _); [|exact Hsame].
    unfold onActionClick. destruct defaultPrevented; [exact Hsame|].
    now apply Honce.
Qed.

Lemma step_removalPending (p : Props) (now : Z) (e : Event) (w : World) (T : Z) :
  removalPending T w -> removalPending T (step p now e w).
Proof.
  intros [Hgone | (at_ & Hin & Hle)].
  - left. now rewrite step_disposed.
  - destruct (disposed (inst w)) eqn:Hdisp; [left; now rewrite step_disposed|].
    destruct e;
      try (match goal with
           | |- removalPending _ (step _ _ ?e _) =>
               destruct (step_unmountTimers p now e w Hdisp ltac:(discriminate))
                 as (_ & extra & Htimers & _)
           end;
           right; exists at_;
           split; [rewrite Htimers; apply in_or_app; now left | exact Hle]).
    unfold step. rewrite Hdisp. unfold unmount.
    destruct (existsb _ _); [now left|].
    right. exists at_. now split.
Qed.

Lemma run_removalPending (hist : list Stamped) (w : World) (T : Z) :
  removalPending T w -> removalPending T (run hist w).
Proof.
  revert w. induction hist as [|[[p now] e] hist IH]; intros w Hp; [exact Hp|].
  cbn [run]. apply IH. now apply step_removalPending.
Qed.

(** Along a history whose clock does not go back, a toast whose removal
    has begun has a [removeToast] timeout pending that is due within
    200 ms of the last event at the latest. *)
Lemma run_removal_timed (hist : list Stamped) (clock : Z) (w : World) :
  clocked clock hist ->
  (removed (inst w) = true -> removalPending (clock + TIME_BEFORE_UNMOUNT) w) ->
  removed (inst (run hist w)) = true ->
  removalPending (clockEnd clock hist + TIME_BEFORE_UNMOUNT) (run hist w).
Proof.
  revert clock w. induction hist as [|[[p now] e] hist IH]; intros clock w Hclock Hinv;
    [exact Hinv|].
  destruct Hclock as [Hnow Hrest]. cbn [run clockEnd]. apply (IH now); [exact Hrest|].
  intros Hafter.
  destruct (removed (inst w)) eqn:Hbefore.
  - apply step_removalPending.
    destruct (Hinv eq_refl) as [Hgone | (at_ & Hin & Hle)]; [now left|].
    right. exists at_. split; [exact Hin | lia].
  - destruct (disposed (inst w)) eqn:Hdisp.
    { rewrite step_disposed in Hafter by exact Hdisp. congruence. }
    destruct e;
      try (match goal with
           | |- removalPending _ (step _ _ ?e _) =>
               destruct (step_unmountTimers p now e w Hdisp ltac:(discriminate))
                 as (_ & extra & Htimers & Hnew)
           end;
           right; exists (now + TIME_BEFORE_UNMOUNT);
           split; [rewrite Htimers; apply in_or_app; right; now apply Hnew | lia]).
    exfalso. unfold step in Hafter. rewrite Hdisp in Hafter. unfold unmount in Hafter.
    destruct (existsb _ _); cbn in Hafter; congruence.
Qed.

Lemma unmount_when_due (p : Props) (later : Z) (w : World) (T : Z) :
  removalPending T w -> T <= later ->
  disposed (inst (step p later Unmount w)) = true
  /\ calls (inst (step p later Unmount w)) = calls (inst w).
Proof.
  intros Hpending Hlater. unfold step.
  destruct (disposed (inst w)) eqn:Hdisp; [now split|].
  destruct Hpending as [Hgone | (at_ & Hin & Hle)]; [congruence|].
  unfold unmount.
  assert (Hdue : existsb (fun at_ => at_ <=? later) (unmountTimers (inst w)) = true).
  { apply existsb_exists. exists at_. split; [exact Hin | apply Z.leb_le; lia]. }
  rewrite Hdue. split; reflexivity.
Qed.

Lemma run_disposed (hist : list Stamped) (w : World) :
  disposed (inst w) = true -> run hist w = w.
Proof.
  intros Hgone. induction hist as [|[[p now] e] hist IH]; [reflexivity|].
  cbn [run]. now rewrite step_disposed.
Qed.



(** [deleteToast] sets the removed flag and keeps the offset of that
    moment, which is what the toast reports from then on; the reported
    offset stays at that value while height entries are added, measured
    again or removed, and through runs of the timer effect, pointer
    moves, the end of a drag and the unmount.  The flag is never
    cleared. *)
Lemma exit_offset_kept_by_ledger_changes :
  (forall (p p' : Props) (now : Z) (w : World),
      removed (inst (deleteToast p now w)) = true
      /\ offsetBeforeRemove (inst (deleteToast p now w)) = offset p w
      /\ reportedOffset p' (deleteToast p now w) = offset p w)
  /\ (forall (hist : list Stamped) (w : World) (p' : Props),
         removed (inst w) = true ->
         Forall (fun s : Stamped => keepsOffset (snd s) = true) hist ->
         removed (inst (run hist w)) = true
         /\ reportedOffset p' (run hist w) = offsetBeforeRemove (inst w))
  /\ (forall (hist : list Stamped) (w : World),
         removed (inst w) = true -> removed (inst (run hist w)) = true).
Proof.
  split; [intros; repeat split; reflexivity|].
  assert (Hstay : forall (hist : list Stamped) (w : World),
             removed (inst w) = true -> removed (inst (run hist w)) = true).
  { intros hist w Hr.
    apply (run_preserves (fun w => removed (inst w) = true) (fun _ => True));
      [| apply Forall_forall; trivial | exact Hr].
    intros p now e w0 _. apply step_removed. }
  split; [|exact Hstay].
  intros hist w p' Hr Hkeep.
  split; [now apply Hstay|].
  unfold reportedOffset. rewrite (Hstay hist w Hr).
  revert w Hr. induction Hkeep as [|[[p now] e] hist He _ IH]; intros w Hr.
  - reflexivity.
  - simpl. cbn [snd] in He.
    destruct (step_keepsOffset p now e w He) as [Hrem Hoff].
    rewrite IH by (rewrite Hrem; exact Hr). exact Hoff.
Qed.

(** The toast was closed while two siblings stood in front of it; then a
    sibling is measured again, another leaves and a new one arrives. *)
Example exit_offset_kept_in_a_stack :
  reportedOffset Sample.running
    (run [(Sample.running, 2010, SiblingMeasure (IdNum 2) "bottom-right" 75);
          (Sample.running, 2050, SiblingDelete (IdNum 3));
          (Sample.running, 2100, SiblingMeasure (IdNum 4) "bottom-right" 30)]
       (deleteToast Sample.running 2000
          (mkWorld [mkHeight 50 (IdNum 3) "bottom-right";
                    mkHeight 60 (IdNum 2) "bottom-right";
                    mkHeight 40 (IdNum 1) "bottom-right"]
                   (initialInst Sample.running))))
  = (inject_Z 2 * 14 + (0 + 50 + 60))%Q.
Proof.
  etransitivity.
  - refine (proj2 (proj1 (proj2 exit_offset_kept_by_ledger_changes) _ _ Sample.running _ _)).
    + reflexivity.
    + repeat constructor.
  - reflexivity.
Qed.

(** The removal that the click on the close button began at 4900 kept
    the offset 0; at 5000, before the unmount, the auto-close timeout
    runs [deleteToast] again, which keeps the offset the toast has
    without a ledger entry. *)
Lemma second_removal_overwrites_offset :
  ~ (forall (p0 : Props) (hs : list HeightT) (before after : list Stamped),
        orderly (toast p0) 0 (before ++ after) ->
        removed (inst (run before (mkWorld hs (initialInst p0)))) = true ->
        disposed (inst (run (before ++ after) (mkWorld hs (initialInst p0)))) = false ->
        (reportedOffset p0 (run (before ++ after) (mkWorld hs (initialInst p0)))
         == reportedOffset p0 (run before (mkWorld hs (initialInst p0))))%Q).
Proof.
  intros Hclaim.
  specialize (Hclaim Sample.running [mkHeight 40 (IdNum 1) "bottom-right"]
                [(Sample.running, 1000, TimerEffect);
                 (Sample.running, 4900, CloseClick)]
                [(Sample.running, 5000, AutoCloseTimeout)]).
  assert (H : Qeq
                (reportedOffset Sample.running
                   (run ([(Sample.running, 1000, TimerEffect);
                          (Sample.running, 4900, CloseClick)]
                         ++ [(Sample.running, 5000, AutoCloseTimeout)])
                        (mkWorld [mkHeight 40 (IdNum 1) "bottom-right"]
                                 (initialInst Sample.running))))
                (reportedOffset Sample.running
                   (run [(Sample.running, 1000, TimerEffect);
                         (Sample.running, 4900, CloseClick)]
                        (mkWorld [mkHeight 40 (IdNum 1) "bottom-right"]
                                 (initialInst Sample.running))))).
  { apply Hclaim.
    - cbn. repeat split; lia.
    - reflexivity.
    - reflexivity. }
  vm_compute in H. discriminate H.
Qed.

(** ** The registry: publishing an id twice *)

Lemma spread_fields (old new : ToastT) (k : string) :
  fields (spread old new) !! k
  = match fields new !! k with
    | Some v => Some v
    | None => fields old !! k
    end.
Proof.
  unfold spread; cbn [fields]. rewrite lookup_union.
  destruct (fields new !! k), (fields old !! k); reflexivity.
Qed.

Lemma spread_id (old new : ToastT) : toast_id (spread old new) = toast_id new.
Proof. reflexivity. Qed.

(** Spreading the result over the old record again changes nothing. *)
Lemma spread_spread (old new : ToastT) : spread old (spread old new) = spread old new.
Proof.
  unfold spread; cbn [fields toast_id]. f_equal.
  apply map_eq. intros k. rewrite !lookup_union.
  destruct (fields new !! k), (fields old !! k); reflexivity.
Qed.

Section UniqueIds.
Implicit Types (ts : list ToastT) (t : ToastT).

Lemma filter_absent ts (id : ToastId) :
  ~ In id (map toast_id ts) ->
  List.filter (fun t => id_eqb (toast_id t) id) ts = [].
Proof.
  induction ts as [|a ts IH]; intros Hno; simpl; [reflexivity|].
  destruct (id_eqb (toast_id a) id) eqn:Ha.
  - exfalso. apply Hno. left. now apply id_eqb_true.
  - apply IH. intros H. apply Hno. now right.
Qed.

Lemma findIndex_absent ts (id : ToastId) :
  ~ In id (map toast_id ts) ->
  JS.findIndex (fun t => id_eqb (toast_id t) id) ts = -1.
Proof.
  intros Hno. apply findIndex_none. intros t Ht.
  apply id_eqb_false. intros Heq. apply Hno. rewrite <- Heq. now apply in_map.
Qed.

Lemma findIndex_unique ts (k : nat) t :
  List.NoDup (map toast_id ts) -> nth_error ts k = Some t ->
  JS.findIndex (fun t' => id_eqb (toast_id t') (toast_id t)) ts = Z.of_nat k.
Proof.
  intros Hnd Hk. apply (findIndex_first _ ts k t Hk); [apply id_eqb_refl|].
  intros j y Hj Hy. apply id_eqb_false. intros Heq.
  assert (j = k); [|lia].
  apply (proj1 (List.NoDup_nth_error (map toast_id ts)) Hnd).
  - rewrite length_map. apply nth_error_Some. congruence.
  - rewrite !nth_error_map, Hy, Hk. simpl. now rewrite Heq.
Qed.

Lemma insert_same_id_ids ts (k : nat) (old m : ToastT) :
  nth_error ts k = Some old -> toast_id m = toast_id old ->
  map toast_id (<[k := m]> ts) = map toast_id ts.
Proof.
  revert k; induction ts as [|a ts IH]; intros k Hk Hid.
  - destruct k; discriminate.
  - destruct k as [|k]; simpl in *.
    + injection Hk as ->. now rewrite Hid.
    + f_equal. now apply IH.
Qed.

Lemma insert_same_id_filter ts (k : nat) (old m : ToastT) :
  List.NoDup (map toast_id ts) ->
  nth_error ts k = Some old -> toast_id m = toast_id old ->
  List.filter (fun t => id_eqb (toast_id t) (toast_id old)) (<[k := m]> ts) = [m].
Proof.
  revert k; induction ts as [|a ts IH]; intros k Hnd Hk Hid.
  - destruct k; discriminate.
  - inversion Hnd as [|? ? Hnotin Hnd']; subst.
    destruct k as [|k]; simpl in *.
    + injection Hk as ->. rewrite Hid, id_eqb_refl.
      now rewrite (filter_absent ts (toast_id old) Hnotin).
    + assert (Ha : id_eqb (toast_id a) (toast_id old) = false).
      { apply id_eqb_false. intros Heq. apply Hnotin. rewrite Heq.
        apply in_map. eapply nth_error_In. exact Hk. }
      rewrite Ha. now apply IH.
Qed.

Lemma take_insert_drop ts (k : nat) (old m : ToastT) :
  nth_error ts k = Some old ->
  firstn k ts ++ [m] ++ skipn (k + 1) ts = <[k := m]> ts.
Proof.
  revert k; induction ts as [|a ts IH]; intros k Hk.
  - destruct k; discriminate.
  - destruct k as [|k]; simpl in *.
    + reflexivity.
    + f_equal. now apply IH.
Qed.

(** [useSonner] with a known id: the record is replaced where it is by
    the spread of the old record and the published one. *)
Lemma update_known ts (k : nat) (old r : ToastT) :
  List.NoDup (map toast_id ts) ->
  nth_error ts k = Some old -> toast_id old = toast_id r ->
  UseSonner.update r ts = <[k := spread old r]> ts.
Proof.
  intros Hnd Hk Hid. unfold UseSonner.update.
  rewrite <- Hid, (findIndex_unique ts k old Hnd Hk).
  replace (negb (Z.of_nat k =? -1)) with true
    by (symmetry; apply negb_true_iff, Z.eqb_neq; lia).
  rewrite Nat2Z.id, Hk. cbv zeta.
  now rewrite (take_insert_drop ts k old _ Hk).
Qed.

Lemma update_unknown ts (r : ToastT) :
  ~ In (toast_id r) (map toast_id ts) -> UseSonner.update r ts = r :: ts.
Proof.
  intros Hno. unfold UseSonner.update. now rewrite (findIndex_absent ts _ Hno).
Qed.

(** The [Toaster] with a known id: the record is replaced where it is
    by the published one. *)
Lemma store_known ts (frames : list ToastId) (k : nat) (old r : ToastT) :
  List.NoDup (map toast_id ts) ->
  nth_error ts k = Some old -> toast_id old = toast_id r ->
  ToasterStore.handler (Upsert r) (ToasterStore.mkStore ts frames)
  = ToasterStore.mkStore (<[k := r]> ts) frames.
Proof.
  intros Hnd Hk Hid. unfold ToasterStore.handler. cbn [ToasterStore.toasts].
  rewrite <- Hid, (findIndex_unique ts k old Hnd Hk).
  replace (negb (Z.of_nat k =? -1)) with true
    by (symmetry; apply negb_true_iff, Z.eqb_neq; lia).
  now rewrite Nat2Z.id.
Qed.

Lemma store_unknown ts (frames : list ToastId) (r : ToastT) :
  ~ In (toast_id r) (map toast_id ts) ->
  ToasterStore.handler (Upsert r) (ToasterStore.mkStore ts frames)
  = ToasterStore.mkStore (r :: ts) frames.
Proof.
  intros Hno. unfold ToasterStore.handler. cbn [ToasterStore.toasts].
  now rewrite (findIndex_absent ts _ Hno).
Qed.
End UniqueIds.

Module ToastStateFacts.
Import ToastState.

Lemma upsertRecord_fresh (r : ToastT) (rs : list ToastT) :
  ~ In (toast_id r) (map toast_id rs) -> upsertRecord r rs = (r, rs ++ [r]).
Proof.
  induction rs as [|t rs IH]; intros Hno; simpl; [reflexivity|].
  destruct (id_eqb (toast_id t) (toast_id r)) eqn:Ht.
  - exfalso. apply Hno. left. now apply id_eqb_true.
  - rewrite IH; [reflexivity|]. intros H. apply Hno. now right.
Qed.

Lemma upsertRecord_last (r1 r2 : ToastT) (rs : list ToastT) :
  ~ In (toast_id r1) (map toast_id rs) -> toast_id r2 = toast_id r1 ->
  upsertRecord r2 (rs ++ [r1]) = (spread r1 r2, rs ++ [spread r1 r2]).
Proof.
  intros Hno Hid. induction rs as [|t rs IH]; simpl.
  - now rewrite Hid, id_eqb_refl.
  - destruct (id_eqb (toast_id t) (toast_id r2)) eqn:Ht.
    + exfalso. apply Hno. left. apply id_eqb_true in Ht. congruence.
    + rewrite IH; [reflexivity|]. intros H. apply Hno. now right.
Qed.

(** With the two subscribers of [src/index.tsx], each subscribed once. *)
Lemma two_subscribers (subs : list Subscriber) :
  List.NoDup subs -> In UseSonnerHook subs -> In ToasterMount subs ->
  subs = [UseSonnerHook; ToasterMount] \/ subs = [ToasterMount; UseSonnerHook].
Proof.
  intros Hnd Hh Ht.
  destruct subs as [|a [|b [|c l]]].
  - destruct Hh.
  - destruct Hh as [->|[]]. destruct Ht as [H|[]]. discriminate H.
  - inversion Hnd as [|? ? Hnotin _]; subst.
    destruct a, b; try (exfalso; apply Hnotin; now left); [now left | now right].
  - exfalso. inversion Hnd as [|? ? Ha Hnd']; subst.
    inversion Hnd' as [|? ? Hb _]; subst.
    destruct a, b, c; simpl in *; intuition congruence.
Qed.

(** One publish with both subscribers: each handler runs once. *)
Lemma publish_delivers (r : ToastT) (a : App) (merged : ToastT) (rs : list ToastT) :
  List.NoDup (subscribers a) ->
  In UseSonnerHook (subscribers a) -> In ToasterMount (subscribers a) ->
  upsertRecord r (records a) = (merged, rs) ->
  records (publish r a) = rs
  /\ subscribers (publish r a) = subscribers a
  /\ hook (publish r a) = UseSonner.handler (Upsert merged) (hook a)
  /\ store (publish r a) = ToasterStore.handler (Upsert merged) (store a)
  /\ forall s, received s (publish r a) = received s a ++ [Upsert merged].
Proof.
  intros Hnd Hh Ht Hup. unfold publish. rewrite Hup.
  destruct (two_subscribers _ Hnd Hh Ht) as [-> | ->]; cbn;
    (repeat split; try reflexivity;
     intros s; unfold received; cbn;
     rewrite <- !app_assoc, List.filter_app, map_app; cbn;
     destruct s; cbn; reflexivity).
Qed.

End ToastStateFacts.

Lemma update_head (m r1 : ToastT) (active : list ToastT) :
  toast_id r1 = toast_id m ->
  UseSonner.update m (r1 :: active) = spread r1 m :: active.
Proof.
  intros Hid. unfold UseSonner.update, JS.findIndex. simpl.
  rewrite Hid, id_eqb_refl. reflexivity.
Qed.

Lemma store_head (m r1 : ToastT) (ts : list ToastT) (frames : list ToastId) :
  toast_id r1 = toast_id m ->
  ToasterStore.handler (Upsert m) (ToasterStore.mkStore (r1 :: ts) frames)
  = ToasterStore.mkStore (m :: ts) frames.
Proof.
  intros Hid. unfold ToasterStore.handler, JS.findIndex. simpl.
  rewrite Hid, id_eqb_refl. reflexivity.
Qed.

(** C1.  Publishing a record whose id is among the active toasts leaves
    one record with that id, in the place of the old one, and its fields
    are those of the publish where the publish has them and those of the
    old record elsewhere.  Publishing an id twice leaves one record with
    that id in the list of [useSonner] and one in the store of the
    [Toaster], the spread of the first publish and the second, and every
    subscriber is called once per publish, twice in all. *)
Theorem C1_publish_same_id_merges :
  (forall (toasts : list ToastT) (k : nat) (old r : ToastT),
      List.NoDup (map toast_id toasts) ->
      nth_error toasts k = Some old ->
      toast_id old = toast_id r ->
      UseSonner.update r toasts = <[k := spread old r]> toasts
      /\ map toast_id (UseSonner.update r toasts) = map toast_id toasts
      /\ List.filter (fun t => id_eqb (toast_id t) (toast_id r)) (UseSonner.update r toasts)
         = [spread old r]
      /\ (forall key : string,
             fields (spread old r) !! key
             = match fields r !! key with
               | Some v => Some v
               | None => fields old !! key
               end))
  /\ (forall (a : ToastState.App) (r1 r2 : ToastT),
         List.NoDup (ToastState.subscribers a) ->
         In ToastState.UseSonnerHook (ToastState.subscribers a) ->
         In ToastState.ToasterMount (ToastState.subscribers a) ->
         UseSonner.timeouts (ToastState.hook a) = [] ->
         ToasterStore.frames (ToastState.store a) = [] ->
         ~ In (toast_id r1) (map toast_id (ToastState.records a)) ->
         ~ In (toast_id r1) (map toast_id (UseSonner.activeToasts (ToastState.hook a))) ->
         ~ In (toast_id r1) (map toast_id (ToasterStore.toasts (ToastState.store a))) ->
         toast_id r2 = toast_id r1 ->
         List.filter (fun t => id_eqb (toast_id t) (toast_id r1))
           (UseSonner.activeToasts
              (ToastState.hook
                 (ToastState.settle
                    (ToastState.publish r2
                       (ToastState.settle (ToastState.publish r1 a))))))
         = [spread r1 r2]
         /\ List.filter (fun t => id_eqb (toast_id t) (toast_id r1))
              (ToasterStore.toasts
                 (ToastState.store
                    (ToastState.settle
                       (ToastState.publish r2
                          (ToastState.settle (ToastState.publish r1 a))))))
            = [spread r1 r2]
         /\ forall s : ToastState.Subscriber,
             ToastState.received s
               (ToastState.settle
                  (ToastState.publish r2
                     (ToastState.settle (ToastState.publish r1 a))))
             = ToastState.received s a ++ [Upsert r1; Upsert (spread r1 r2)]).
Proof.
  split.
  - intros toasts k old r Hnd Hk Hid.
    pose proof (update_known toasts k old r Hnd Hk Hid) as Hup.
    rewrite Hup. split; [reflexivity|].
    split; [apply (insert_same_id_ids toasts k old); [exact Hk | now rewrite spread_id]|].
    split; [|intros key; apply spread_fields].
    rewrite <- Hid.
    apply (insert_same_id_filter toasts k old); [exact Hnd | exact Hk |].
    now rewrite spread_id.
  - intros a r1 r2 Hnd Hh Ht Htimeouts Hframes Hrec Hact Hsto Hid.
    destruct (ToastStateFacts.publish_delivers r1 a r1 (ToastState.records a ++ [r1])
                Hnd Hh Ht (ToastStateFacts.upsertRecord_fresh r1 _ Hrec))
      as (Hrec1 & Hsubs1 & Hhook1 & Hstore1 & Hrecv1).
    set (a1 := ToastState.settle (ToastState.publish r1 a)).
    assert (Ha1rec : ToastState.records a1 = ToastState.records a ++ [r1])
      by exact Hrec1.
    assert (Ha1subs : ToastState.subscribers a1 = ToastState.subscribers a)
      by exact Hsubs1.
    assert (Ha1hook : ToastState.hook a1
                      = UseSonner.mkHook
                          (r1 :: UseSonner.activeToasts (ToastState.hook a)) []).
    { unfold a1, ToastState.settle. cbn [ToastState.hook]. rewrite Hhook1.
      unfold UseSonner.flush, UseSonner.handler. cbn. rewrite Htimeouts. cbn.
      now rewrite (update_unknown _ r1 Hact). }
    assert (Ha1store : ToastState.store a1
                       = ToasterStore.mkStore
                           (r1 :: ToasterStore.toasts (ToastState.store a)) []).
    { unfold a1, ToastState.settle. cbn [ToastState.store]. rewrite Hstore1.
      destruct (ToastState.store a) as [ts fr]. cbn in Hframes, Hsto. subst fr.
      now rewrite (store_unknown ts [] r1 Hsto). }
    assert (Ha1recv : forall s, ToastState.received s a1
                                = ToastState.received s a ++ [Upsert r1])
      by exact Hrecv1.
    assert (Hup2 : ToastState.upsertRecord r2 (ToastState.records a1)
                   = (spread r1 r2, ToastState.records a ++ [spread r1 r2])).
    { rewrite Ha1rec. now apply ToastStateFacts.upsertRecord_last. }
    destruct (ToastStateFacts.publish_delivers r2 a1 _ _
                ltac:(rewrite Ha1subs; exact Hnd)
                ltac:(rewrite Ha1subs; exact Hh)
                ltac:(rewrite Ha1subs; exact Ht) Hup2)
      as (_ & _ & Hhook2 & Hstore2 & Hrecv2).
    assert (Hidm : toast_id r1 = toast_id (spread r1 r2)) by (now rewrite spread_id).
    split; [|split].
    + unfold ToastState.settle. cbn [ToastState.hook]. rewrite Hhook2, Ha1hook.
      unfold UseSonner.flush, UseSonner.handler. cbn.
      rewrite (update_head _ r1 _ Hidm), spread_spread. cbn.
      rewrite Hid, id_eqb_refl.
      now rewrite (filter_absent _ _ Hact).
    + unfold ToastState.settle. cbn [ToastState.store]. rewrite Hstore2, Ha1store.
      rewrite (store_head _ r1 _ [] Hidm). cbn.
      rewrite Hid, id_eqb_refl.
      now rewrite (filter_absent _ _ Hsto).
    + intros s.
      change (ToastState.received s (ToastState.publish r2 a1)
              = ToastState.received s a ++ [Upsert r1; Upsert (spread r1 r2)]).
      rewrite Hrecv2, Ha1recv, <- app_assoc. reflexivity.
Qed.

(** ** The theorems at work *)

(** "Uploading" with a description, then "Done" with a type: one record,
    with the new title, the type, and the description of the first. *)
Lemma C1_publish_same_id_merges_witness :
  List.filter (fun t => id_eqb (toast_id t) (toast_id Sample.uploading))
    (UseSonner.activeToasts
       (ToastState.hook
          (ToastState.settle
             (ToastState.publish Sample.uploaded
                (ToastState.settle (ToastState.publish Sample.uploading Sample.idle))))))
  = [spread Sample.uploading Sample.uploaded].
Proof.
  apply (proj2 C1_publish_same_id_merges Sample.idle Sample.uploading Sample.uploaded).
  - repeat constructor; simpl; intuition discriminate.
  - simpl. now left.
  - simpl. now right; left.
  - reflexivity.
  - reflexivity.
  - simpl. tauto.
  - simpl. tauto.
  - simpl. tauto.
  - reflexivity.
Defined.

(** A toast that lasts forever, and a timeout that is asked to run much
    later. *)
Lemma C4_timer_only_for_finite_durations_witness :
  timeoutId (timer (inst (run [(Sample.forever, 1000, TimerEffect);
                               (Sample.forever, 900000, AutoCloseTimeout)]
                              (mkWorld [] (initialInst Sample.forever))))) = None
  /\ ~ In OnAutoClose
         (calls (inst (run [(Sample.forever, 1000, TimerEffect);
                            (Sample.forever, 900000, AutoCloseTimeout)]
                           (mkWorld [] (initialInst Sample.forever))))).
Proof.
  apply (proj2 (proj2 C4_timer_only_for_finite_durations)).
  right. repeat (apply List.Forall_cons; [left; reflexivity|]). apply List.Forall_nil.
Defined.

(** A drag of 60 pixels released after 200 ms. *)
Lemma C5_pointer_up_decision_witness :
  swipeOut (gesture (inst (onPointerUp Sample.running 1200 Sample.dragged))) = true
  /\ calls (inst (onPointerUp Sample.running 1200 Sample.dragged)) = [OnDismiss]
  /\ removed (inst (onPointerUp Sample.running 1200 Sample.dragged)) = true.
Proof.
  destruct (C5_pointer_up_decision Sample.running 1200 1000 Sample.dragged)
    as (Hiff & _ & Hcommit & _).
  - reflexivity.
  - reflexivity.
  - reflexivity.
  - assert (Hout : swipeOut (gesture (inst (onPointerUp Sample.running 1200 Sample.dragged)))
                   = true).
    { apply Hiff. left. vm_compute. discriminate. }
    destruct (Hcommit Hout) as (Hcalls & Hremoved & _).
    split; [exact Hout|]. split; [exact Hcalls | exact Hremoved].
Defined.

(** The default directions of "bottom-left"; at the top centre a drag to
    the right is given nothing; at the bottom right a drag of 60 pixels
    down is applied in full. *)
Lemma C8_default_swipe_directions_witness :
  getDefaultSwipeDirections ("bottom" ++ String "-" "left") = ["bottom"; "left"]%string
  /\ swipeAmountFor (effectiveSwipeDirections Sample.centred) (Some AxisX) 30 0
     = (0%Q, 0%Q)
  /\ swipeAmountY
       (onPointerMove Sample.running 10 70 false
          (gesture (inst (step Sample.running 1000 (PointerDown 10 10 false)
                            Sample.mounted))))
     = (70 - 10)%Q.
Proof.
  split; [|split].
  - apply (proj1 (proj2 C8_default_swipe_directions)); try reflexivity; discriminate.
  - apply (proj1 (proj1 (proj2 (proj2 C8_default_swipe_directions)) TopCenter
                    Sample.centred eq_refl eq_refl eq_refl)).
  - apply (proj1 (proj2 (proj2 (proj2 (proj2 C8_default_swipe_directions)))
                    BottomRight Sample.running
                    (gesture (inst (step Sample.running 1000 (PointerDown 10 10 false)
                                      Sample.mounted)))
                    10%Q 70%Q 10%Q 10%Q eq_refl eq_refl eq_refl eq_refl)).
    + reflexivity.
    + right. split; [left; reflexivity | reflexivity].
Defined.

(** * More of the engine *)

(** ** How the stack moves when the ledger changes *)

Module StackFacts.
Import Layout.

Lemma first_entry_exists (hs : list HeightT) (id : ToastId) :
  In id (map toastId hs) ->
  exists (k : nat) (h : HeightT),
    nth_error hs k = Some h /\ toastId h = id
    /\ forall j h', (j < k)%nat -> nth_error hs j = Some h' -> toastId h' <> id.
Proof.
  induction hs as [|a hs IH]; intros Hin; [destruct Hin|].
  destruct (decide (toastId a = id)) as [Ha|Ha].
  - exists 0%nat, a. repeat split; [exact Ha | intros; lia].
  - destruct Hin as [Hin|Hin]; [contradiction|].
    destruct (IH Hin) as (k & h & Hk & Hid & Hbefore).
    exists (S k), h. repeat split; [exact Hk | exact Hid |].
    intros [|j] h' Hj Hh'; simpl in Hh'.
    + now injection Hh' as <-.
    + apply (Hbefore j h'); [lia | exact Hh'].
Qed.

Lemma absent_entry (hs : list HeightT) (id : ToastId) :
  ~ In id (map toastId hs) -> forall h, In h hs -> toastId h <> id.
Proof. intros Hno h Hh Heq. apply Hno. rewrite <- Heq. now apply in_map. Qed.

Lemma offset_absent (hs : list HeightT) (g : Q) (id : ToastId) :
  ~ In id (map toastId hs) -> (offset hs g id == - g)%Q.
Proof.
  intros Hno. unfold offset, toastsHeightBefore.
  rewrite (LayoutFacts.heightIndex_missing hs id (absent_entry hs id Hno)).
  rewrite LayoutFacts.heightBefore_loop_stop by lia. ring.
Qed.

Lemma offset_head (x : HeightT) (hs : list HeightT) (g : Q) :
  (offset (x :: hs) g (toastId x) == 0)%Q.
Proof.
  rewrite (LayoutFacts.offset_at_first_entry (x :: hs) g (toastId x) 0%nat x);
    [|reflexivity | reflexivity | intros; lia].
  unfold sumHeightsBefore; simpl. ring.
Qed.

(** An entry put in front pushes every entry behind it back by its height
    and the gap. *)
Lemma offset_cons (x : HeightT) (hs : list HeightT) (g : Q) (id : ToastId) :
  toastId x <> id -> In id (map toastId hs) ->
  (offset (x :: hs) g id == offset hs g id + (height x + g))%Q.
Proof.
  intros Hx Hin.
  destruct (first_entry_exists hs id Hin) as (k & h & Hk & Hid & Hbefore).
  rewrite (LayoutFacts.offset_at_first_entry hs g id k h Hk Hid Hbefore).
  rewrite (LayoutFacts.offset_at_first_entry (x :: hs) g id (S k) h Hk Hid).
  - unfold sumHeightsBefore. cbn [firstn fold_right].
    rewrite Nat2Z.inj_succ. unfold Z.succ. rewrite inject_Z_plus. ring.
  - intros [|j] h' Hj Hh'; simpl in Hh'.
    + now injection Hh' as <-.
    + apply (Hbefore j h'); [lia | exact Hh'].
Qed.

Lemma offset_cons_absent (x : HeightT) (hs : list HeightT) (g : Q) (id : ToastId) :
  toastId x <> id -> ~ In id (map toastId hs) ->
  (offset (x :: hs) g id == offset hs g id)%Q.
Proof.
  intros Hx Hno. rewrite (offset_absent hs g id Hno).
  apply offset_absent. simpl. intros [H|H]; [now apply Hx | now apply Hno].
Qed.

(** The height and the gaps of a whole list. *)
Lemma offset_app_front (l r : list HeightT) (g : Q) (id : ToastId) :
  In id (map toastId l) -> (offset (l ++ r) g id == offset l g id)%Q.
Proof.
  induction l as [|x l IH]; intros Hin; [destruct Hin|].
  destruct (decide (toastId x = id)) as [<-|Hx].
  - simpl. now rewrite !offset_head.
  - destruct Hin as [Hin|Hin]; [contradiction|]. simpl.
    rewrite (offset_cons x (l ++ r) g id Hx), (offset_cons x l g id Hx Hin), (IH Hin);
      [reflexivity|].
    rewrite map_app, in_app_iff. now left.
Qed.

Lemma offset_app_behind (l : list HeightT) (x y : HeightT) (r : list HeightT)
    (g : Q) (id : ToastId) :
  ~ In id (map toastId l) -> toastId x <> id -> toastId y <> id ->
  In id (map toastId r) ->
  (offset (l ++ x :: r) g id == offset (l ++ y :: r) g id + (height x - height y))%Q.
Proof.
  intros Hl Hx Hy Hr.
  induction l as [|a l IH]; simpl.
  - rewrite (offset_cons x r g id Hx Hr), (offset_cons y r g id Hy Hr). ring.
  - assert (Ha : toastId a <> id) by (intros H; apply Hl; now left).
    assert (Hl' : ~ In id (map toastId l)) by (intros H; apply Hl; now right).
    rewrite (offset_cons a (l ++ x :: r) g id Ha),
            (offset_cons a (l ++ y :: r) g id Ha), (IH Hl');
      [ring | |]; rewrite map_app, in_app_iff; right; now right.
Qed.

Lemma offset_app_removed (l : list HeightT) (x : HeightT) (r : list HeightT)
    (g : Q) (id : ToastId) :
  ~ In id (map toastId l) -> toastId x <> id -> In id (map toastId r) ->
  (offset (l ++ r) g id == offset (l ++ x :: r) g id - (height x + g))%Q.
Proof.
  intros Hl Hx Hr.
  induction l as [|a l IH]; simpl.
  - rewrite (offset_cons x r g id Hx Hr). ring.
  - assert (Ha : toastId a <> id) by (intros H; apply Hl; now left).
    assert (Hl' : ~ In id (map toastId l)) by (intros H; apply Hl; now right).
    rewrite (offset_cons a (l ++ r) g id Ha),
            (offset_cons a (l ++ x :: r) g id Ha), (IH Hl');
      [ring | |]; rewrite map_app, in_app_iff; right; [now right | exact Hr].
Qed.

(** With one entry per id, the filter of [deleteToast] takes out one
    entry and the ledger effect changes one. *)
Lemma filter_keeps (id : ToastId) (hs : list HeightT) :
  ~ In id (map toastId hs) ->
  List.filter (fun h => negb (id_eqb (toastId h) id)) hs = hs.
Proof.
  induction hs as [|a hs IH]; intros Hno; simpl; [reflexivity|].
  replace (id_eqb (toastId a) id) with false.
  - simpl. f_equal. apply IH. intros H. apply Hno. now right.
  - symmetry. apply id_eqb_false. intros H. apply Hno. now left.
Qed.

Lemma nodup_app_disjoint {A : Type} (a b : list A) (x : A) :
  List.NoDup (a ++ b) -> In x a -> ~ In x b.
Proof.
  induction a as [|y a IH]; intros Hnd Ha Hb; [destruct Ha|].
  simpl in Hnd. inversion Hnd as [|? ? Hy Hnd']; subst.
  destruct Ha as [->|Ha].
  - apply Hy. rewrite in_app_iff. now right.
  - now apply (IH Hnd' Ha).
Qed.

Lemma unique_split (l : list HeightT) (x : HeightT) (r : list HeightT) :
  List.NoDup (map toastId (l ++ x :: r)) ->
  ~ In (toastId x) (map toastId l) /\ ~ In (toastId x) (map toastId r)
  /\ (forall id, In id (map toastId l) -> ~ In id (map toastId r)).
Proof.
  rewrite map_app. cbn [map]. intros Hnd.
  pose proof (NoDup_remove_2 _ _ _ Hnd) as Hx.
  rewrite in_app_iff in Hx.
  repeat split; try tauto.
  intros id Hl. apply NoDup_remove_1 in Hnd.
  now apply (nodup_app_disjoint _ _ id Hnd).
Qed.

Lemma filter_split (l : list HeightT) (x : HeightT) (r : list HeightT) :
  List.NoDup (map toastId (l ++ x :: r)) ->
  List.filter (fun h => negb (id_eqb (toastId h) (toastId x))) (l ++ x :: r) = l ++ r.
Proof.
  intros Hnd. destruct (unique_split l x r Hnd) as (Hl & Hr & _).
  rewrite List.filter_app. cbn [List.filter]. rewrite id_eqb_refl. cbn [negb].
  now rewrite (filter_keeps _ l Hl), (filter_keeps _ r Hr).
Qed.

Lemma existsb_present (hs : list HeightT) (id : ToastId) :
  In id (map toastId hs) -> existsb (fun h => id_eqb (toastId h) id) hs = true.
Proof.
  intros Hin. apply in_map_iff in Hin as (h & Hid & Hh).
  apply existsb_exists. exists h. split; [exact Hh | now apply id_eqb_true].
Qed.

Lemma remeasure_keeps (id : ToastId) (newHeight : Q) (hs : list HeightT) :
  ~ In id (map toastId hs) ->
  map (fun h => if id_eqb (toastId h) id
                then mkHeight newHeight (toastId h) (position h) else h) hs = hs.
Proof.
  induction hs as [|a hs IH]; intros Hno; simpl; [reflexivity|].
  replace (id_eqb (toastId a) id) with false.
  - f_equal. apply IH. intros H. apply Hno. now right.
  - symmetry. apply id_eqb_false. intros H. apply Hno. now left.
Qed.

Lemma remeasure_split (l : list HeightT) (x : HeightT) (r : list HeightT)
    (pos : string) (newHeight : Q) :
  List.NoDup (map toastId (l ++ x :: r)) ->
  recordHeight (toastId x) pos newHeight (l ++ x :: r)
  = l ++ mkHeight newHeight (toastId x) (position x) :: r.
Proof.
  intros Hnd. destruct (unique_split l x r Hnd) as (Hl & Hr & _).
  unfold recordHeight. rewrite existsb_present.
  - rewrite map_app. cbn [map]. rewrite id_eqb_refl.
    now rewrite (remeasure_keeps _ _ l Hl), (remeasure_keeps _ _ r Hr).
  - rewrite map_app, in_app_iff. right. now left.
Qed.

End StackFacts.

Lemma sumHeightsBefore_step (hs : list HeightT) (k : nat) (h : HeightT) :
  nth_error hs k = Some h ->
  (Layout.sumHeightsBefore (S k) hs == Layout.sumHeightsBefore k hs + height h)%Q.
Proof.
  revert k; induction hs as [|a hs IH]; intros k Hk; [destruct k; discriminate|].
  destruct k as [|k].
  - injection Hk as ->. unfold Layout.sumHeightsBefore. simpl. ring.
  - simpl in Hk. specialize (IH k Hk).
    unfold Layout.sumHeightsBefore in *. cbn [firstn fold_right] in *.
    rewrite IH. ring.
Qed.

Lemma sumHeightsBefore_nonneg (hs : list HeightT) (k : nat) :
  (forall h, In h hs -> (0 <= height h)%Q) ->
  (0 <= Layout.sumHeightsBefore k hs)%Q.
Proof.
  revert k; induction hs as [|a hs IH]; intros k Hpos.
  - unfold Layout.sumHeightsBefore. destruct k; simpl; lra.
  - destruct k as [|k]; [unfold Layout.sumHeightsBefore; simpl; lra|].
    unfold Layout.sumHeightsBefore in *. cbn [firstn fold_right].
    pose proof (Hpos a (or_introl eq_refl)).
    pose proof (IH k (fun h Hh => Hpos h (or_intror Hh))). lra.
Qed.

Lemma sumHeightsBefore_mono (hs : list HeightT) (i j : nat) :
  (forall h, In h hs -> (0 <= height h)%Q) -> (i <= j)%nat ->
  (Layout.sumHeightsBefore i hs <= Layout.sumHeightsBefore j hs)%Q.
Proof.
  revert i j; induction hs as [|a hs IH]; intros i j Hpos Hij.
  - unfold Layout.sumHeightsBefore. destruct i, j; simpl; lra.
  - destruct i as [|i].
    + pose proof (sumHeightsBefore_nonneg (a :: hs) j Hpos).
      unfold Layout.sumHeightsBefore in *. simpl. simpl in H. lra.
    + destruct j as [|j]; [lia|].
      pose proof (IH i j (fun h Hh => Hpos h (or_intror Hh)) ltac:(lia)).
      unfold Layout.sumHeightsBefore in *. cbn [firstn fold_right]. lra.
Qed.

(** X1.  In a ledger with one entry per id, heights that are not negative
    and a gap that is not negative, no offset is negative and an entry
    further back starts behind the end of every entry in front of it plus
    the gap: the toasts of a stack do not overlap. *)
Theorem stack_does_not_overlap :
  forall (hs : list HeightT) (g : Q) (i j : nat) (hi hj : HeightT),
    List.NoDup (map toastId hs) ->
    (forall h, In h hs -> (0 <= height h)%Q) ->
    (0 <= g)%Q ->
    nth_error hs i = Some hi ->
    nth_error hs j = Some hj ->
    (i < j)%nat ->
    (0 <= Layout.offset hs g (toastId hi))%Q
    /\ (Layout.offset hs g (toastId hi) + height hi + g
        <= Layout.offset hs g (toastId hj))%Q.
Proof.
  intros hs g i j hi hj Hnd Hpos Hg Hi Hj Hij.
  rewrite (LayoutFacts.offset_at_first_entry hs g _ i hi Hi eq_refl
             (LayoutFacts.unique_entry_is_first hs i hi Hnd Hi)).
  rewrite (LayoutFacts.offset_at_first_entry hs g _ j hj Hj eq_refl
             (LayoutFacts.unique_entry_is_first hs j hj Hnd Hj)).
  pose proof (sumHeightsBefore_nonneg hs i Hpos) as H0.
  pose proof (sumHeightsBefore_step hs i hi Hi) as Hstep.
  pose proof (sumHeightsBefore_mono hs (S i) j Hpos ltac:(lia)) as Hmono.
  assert (Hi0 : (0 <= inject_Z (Z.of_nat i))%Q).
  { change 0%Q with (inject_Z 0). rewrite <- Zle_Qle. lia. }
  assert (Hji : (inject_Z (Z.of_nat i) + 1 <= inject_Z (Z.of_nat j))%Q).
  { change 1%Q with (inject_Z 1). rewrite <- inject_Z_plus, <- Zle_Qle. lia. }
  split; [nra|]. nra.
Qed.

(** Three toasts of 40, 60 and 50 pixels at a gap of 14. *)
Lemma stack_does_not_overlap_witness :
  (Layout.offset [mkHeight 40 (IdNum 1) "bottom-right";
                  mkHeight 60 (IdNum 2) "bottom-right";
                  mkHeight 50 (IdNum 3) "bottom-right"] 14 (IdNum 1) + 40 + 14
   <= Layout.offset [mkHeight 40 (IdNum 1) "bottom-right";
                     mkHeight 60 (IdNum 2) "bottom-right";
                     mkHeight 50 (IdNum 3) "bottom-right"] 14 (IdNum 3))%Q.
Proof.
  apply (stack_does_not_overlap
           [mkHeight 40 (IdNum 1) "bottom-right";
            mkHeight 60 (IdNum 2) "bottom-right";
            mkHeight 50 (IdNum 3) "bottom-right"] 14 0%nat 2%nat
           (mkHeight 40 (IdNum 1) "bottom-right")
           (mkHeight 50 (IdNum 3) "bottom-right")); [| | | reflexivity | reflexivity |].
  - repeat constructor; simpl; intuition discriminate.
  - intros h [<-|[<-|[<-|[]]]]; vm_compute; discriminate.
  - vm_compute; discriminate.
  - lia.
Defined.

Lemma has_entry_has_position (p : Props) (hs : list HeightT) :
  In (toast_id (toast p)) (map toastId (props_heights p hs)) ->
  exists pos, toast_position (toast p) = Some pos
              /\ props_heights p hs = Layout.heightsAt pos hs.
Proof.
  unfold props_heights. destruct (toast_position (toast p)) as [pos|]; [|intros []].
  intros _. now exists pos.
Qed.

Lemma recordHeight_fresh (id : ToastId) (pos : string) (newHeight : Q)
    (hs : list HeightT) :
  ~ In id (map toastId hs) ->
  recordHeight id pos newHeight hs = mkHeight newHeight id pos :: hs.
Proof.
  intros Hno. unfold recordHeight.
  now rewrite (existsb_absent hs id (StackFacts.absent_entry hs id Hno)).
Qed.

(** X2.  A toast that is measured for the first time pushes the toasts of
    its own position back by its height and the gap, and leaves the toasts
    of the other positions where they are. *)
Theorem new_toast_pushes_its_position :
  forall (p : Props) (now : Z) (w : World) (id : ToastId) (pos : string) (newHeight : Q),
    disposed (inst w) = false ->
    id <> toast_id (toast p) ->
    ~ In id (map toastId (heights w)) ->
    In (toast_id (toast p)) (map toastId (props_heights p (heights w))) ->
    (toast_position (toast p) = Some pos ->
       (offset p (step p now (SiblingMeasure id pos newHeight) w)
        == offset p w + (newHeight + gap p))%Q)
    /\ (toast_position (toast p) <> Some pos ->
        (offset p (step p now (SiblingMeasure id pos newHeight) w) == offset p w)%Q).
Proof.
  intros p now w id pos newHeight Hdisp Hid Hfresh Hentry.
  destruct (has_entry_has_position p (heights w) Hentry) as (own & Hown & Hhs).
  assert (Hstep : heights (step p now (SiblingMeasure id pos newHeight) w)
                  = mkHeight newHeight id pos :: heights w).
  { unfold step. rewrite Hdisp.
    replace (id_eqb id (toast_id (toast p))) with false
      by (symmetry; now apply id_eqb_false).
    cbn [heights]. now apply recordHeight_fresh. }
  unfold offset. rewrite Hstep. unfold props_heights in *. rewrite Hown in *.
  unfold Layout.heightsAt in *. cbn [List.filter position].
  split.
  - intros Hpos. injection Hpos as ->.
    rewrite bool_decide_true by reflexivity.
    now apply (StackFacts.offset_cons (mkHeight newHeight id pos)).
  - intros Hpos. rewrite bool_decide_false; [reflexivity|].
    intros Heq. apply Hpos. now rewrite Heq.
Qed.

(** A second toast arrives at the bottom right. *)
Lemma new_toast_pushes_its_position_witness :
  (offset Sample.running
     (step Sample.running 1500 (SiblingMeasure (IdNum 2) "bottom-right" 60) Sample.mounted)
   == offset Sample.running Sample.mounted + (60 + gap Sample.running))%Q.
Proof.
  apply (proj1 (new_toast_pushes_its_position Sample.running 1500 Sample.mounted
                  (IdNum 2) "bottom-right" 60 eq_refl
                  ltac:(discriminate)
                  ltac:(simpl; intuition discriminate)
                  ltac:(vm_compute; now left))).
  reflexivity.
Defined.

Lemma filter_commute {A : Type} (f g : A -> bool) (l : list A) :
  List.filter f (List.filter g l) = List.filter g (List.filter f l).
Proof.
  induction l as [|a l IH]; simpl; [reflexivity|].
  destruct (f a) eqn:Hf, (g a) eqn:Hg; simpl; rewrite ?Hf, ?Hg, IH; reflexivity.
Qed.

Lemma props_heights_filter (p : Props) (keep : HeightT -> bool) (hs : list HeightT) :
  props_heights p (List.filter keep hs) = List.filter keep (props_heights p hs).
Proof.
  unfold props_heights, Layout.heightsAt.
  destruct (toast_position (toast p)); [apply filter_commute | reflexivity].
Qed.

(** X3.  When a toast starts to leave, the toasts of its stack that stand
    behind it move up by its height and the gap, and those in front of it
    stay where they are. *)
Theorem leaving_toast_pulls_the_ones_behind :
  forall (p : Props) (now : Z) (w : World) (l : list HeightT) (x : HeightT)
         (r : list HeightT),
    disposed (inst w) = false ->
    toastId x <> toast_id (toast p) ->
    List.NoDup (map toastId (heights w)) ->
    props_heights p (heights w) = l ++ x :: r ->
    (In (toast_id (toast p)) (map toastId l) ->
       (offset p (step p now (SiblingDelete (toastId x)) w) == offset p w)%Q)
    /\ (In (toast_id (toast p)) (map toastId r) ->
        (offset p (step p now (SiblingDelete (toastId x)) w)
         == offset p w - (height x + gap p))%Q).
Proof.
  intros p now w l x r Hdisp Hid Hnd Hsplit.
  assert (Hnd' : List.NoDup (map toastId (l ++ x :: r))).
  { rewrite <- Hsplit. now apply props_heights_unique. }
  assert (Hstep : props_heights p (heights (step p now (SiblingDelete (toastId x)) w))
                  = l ++ r).
  { unfold step. rewrite Hdisp.
    replace (id_eqb (toastId x) (toast_id (toast p))) with false
      by (symmetry; now apply id_eqb_false).
    cbn [heights]. rewrite props_heights_filter, Hsplit.
    now apply StackFacts.filter_split. }
  destruct (StackFacts.unique_split l x r Hnd') as (_ & _ & Hdisj).
  unfold offset. rewrite Hstep, Hsplit. split.
  - intros Hin. now rewrite !StackFacts.offset_app_front.
  - intros Hin. apply StackFacts.offset_app_removed; [|exact Hid | exact Hin].
    intros Hl. exact (Hdisj _ Hl Hin).
Qed.

(** Of three stacked toasts the one in front leaves. *)
Lemma leaving_toast_pulls_the_ones_behind_witness :
  (offset Sample.second
     (step Sample.second 1500 (SiblingDelete (IdNum 1)) Sample.stacked)
   == offset Sample.second Sample.stacked - (40 + gap Sample.second))%Q.
Proof.
  apply (proj2 (leaving_toast_pulls_the_ones_behind Sample.second 1500 Sample.stacked
                  [] (mkHeight 40 (IdNum 1) "bottom-right")
                  [mkHeight 60 (IdNum 2) "bottom-right";
                   mkHeight 50 (IdNum 3) "bottom-right"]
                  eq_refl ltac:(discriminate)
                  ltac:(repeat constructor; simpl; intuition discriminate)
                  eq_refl)).
  simpl. now left.
Defined.

Lemma heightsAt_remeasure (pos : string) (id : ToastId) (newHeight : Q)
    (hs : list HeightT) :
  Layout.heightsAt pos
    (map (fun h => if id_eqb (toastId h) id
                   then mkHeight newHeight (toastId h) (position h) else h) hs)
  = map (fun h => if id_eqb (toastId h) id
                  then mkHeight newHeight (toastId h) (position h) else h)
        (Layout.heightsAt pos hs).
Proof.
  unfold Layout.heightsAt. induction hs as [|a hs IH]; simpl; [reflexivity|].
  destruct (id_eqb (toastId a) id) eqn:Ha; cbn [position];
    destruct (bool_decide (position a = pos)) eqn:Hp; simpl;
    rewrite ?Ha, IH; reflexivity.
Qed.

Lemma props_heights_remeasure (p : Props) (id : ToastId) (newHeight : Q)
    (hs : list HeightT) :
  props_heights p
    (map (fun h => if id_eqb (toastId h) id
                   then mkHeight newHeight (toastId h) (position h) else h) hs)
  = map (fun h => if id_eqb (toastId h) id
                  then mkHeight newHeight (toastId h) (position h) else h)
        (props_heights p hs).
Proof.
  unfold props_heights.
  destruct (toast_position (toast p)); [apply heightsAt_remeasure | reflexivity].
Qed.

Lemma props_heights_incl (p : Props) (hs : list HeightT) (h : HeightT) :
  In h (props_heights p hs) -> In h hs.
Proof.
  unfold props_heights, Layout.heightsAt.
  destruct (toast_position (toast p)); [|intros []].
  intros Hin. now apply filter_In in Hin as [Hin _].
Qed.

(** X4.  When a toast is measured again its entry keeps its place and its
    position in the ledger; the toasts of its stack that stand behind it
    move by the difference of the heights, and those in front of it stay
    where they are. *)
Theorem remeasured_toast_shifts_the_ones_behind :
  forall (p : Props) (now : Z) (w : World) (l : list HeightT) (x : HeightT)
         (r : list HeightT) (pos : string) (newHeight : Q),
    disposed (inst w) = false ->
    toastId x <> toast_id (toast p) ->
    List.NoDup (map toastId (heights w)) ->
    props_heights p (heights w) = l ++ x :: r ->
    props_heights p (heights (step p now (SiblingMeasure (toastId x) pos newHeight) w))
    = l ++ mkHeight newHeight (toastId x) (position x) :: r
    /\ (In (toast_id (toast p)) (map toastId l) ->
        (offset p (step p now (SiblingMeasure (toastId x) pos newHeight) w)
         == offset p w)%Q)
    /\ (In (toast_id (toast p)) (map toastId r) ->
        (offset p (step p now (SiblingMeasure (toastId x) pos newHeight) w)
         == offset p w + (newHeight - height x))%Q).
Proof.
  intros p now w l x r pos newHeight Hdisp Hid Hnd Hsplit.
  assert (Hnd' : List.NoDup (map toastId (l ++ x :: r))).
  { rewrite <- Hsplit. now apply props_heights_unique. }
  destruct (StackFacts.unique_split l x r Hnd') as (Hl & Hr & Hdisj).
  assert (Hin : In (toastId x) (map toastId (heights w))).
  { apply in_map. apply (props_heights_incl p). rewrite Hsplit.
    apply in_elt. }
  assert (Hstep : props_heights p
                    (heights (step p now (SiblingMeasure (toastId x) pos newHeight) w))
                  = l ++ mkHeight newHeight (toastId x) (position x) :: r).
  { unfold step. rewrite Hdisp.
    replace (id_eqb (toastId x) (toast_id (toast p))) with false
      by (symmetry; now apply id_eqb_false).
    cbn [heights]. unfold recordHeight.
    rewrite (StackFacts.existsb_present _ _ Hin).
    rewrite props_heights_remeasure, Hsplit, map_app. cbn [map].
    rewrite id_eqb_refl.
    now rewrite (StackFacts.remeasure_keeps _ _ l Hl),
                (StackFacts.remeasure_keeps _ _ r Hr). }
  split; [exact Hstep|].
  unfold offset. rewrite Hstep, Hsplit. split.
  - intros Hinl. now rewrite !StackFacts.offset_app_front.
  - intros Hinr.
    apply (StackFacts.offset_app_behind l (mkHeight newHeight (toastId x) (position x)) x);
      [| exact Hid | exact Hid | exact Hinr].
    intros Hinl. exact (Hdisj _ Hinl Hinr).
Qed.

(** The toast in front of three grows from 40 to 100 pixels. *)
Lemma remeasured_toast_shifts_the_ones_behind_witness :
  (offset Sample.second
     (step Sample.second 1500 (SiblingMeasure (IdNum 1) "bottom-right" 100) Sample.stacked)
   == offset Sample.second Sample.stacked + (100 - 40))%Q.
Proof.
  apply (proj2 (proj2 (remeasured_toast_shifts_the_ones_behind
                         Sample.second 1500 Sample.stacked
                         [] (mkHeight 40 (IdNum 1) "bottom-right")
                         [mkHeight 60 (IdNum 2) "bottom-right";
                          mkHeight 50 (IdNum 3) "bottom-right"]
                         "bottom-right" 100
                         eq_refl ltac:(discriminate)
                         ltac:(repeat constructor; simpl; intuition discriminate)
                         eq_refl))).
  simpl. now left.
Defined.

(** ** The ledger: record, look up, remove *)

Section Ledger.
Variables (id : ToastId) (newHeight : Q).

Let remeasure (h : HeightT) : HeightT :=
  if id_eqb (toastId h) id then mkHeight newHeight (toastId h) (position h) else h.

Lemma remeasure_id (h : HeightT) : toastId (remeasure h) = toastId h.
Proof. unfold remeasure. now destruct (id_eqb (toastId h) id). Qed.

Lemma remeasure_twice (h : HeightT) : remeasure (remeasure h) = remeasure h.
Proof.
  unfold remeasure. destruct (id_eqb (toastId h) id) eqn:Hh; cbn [toastId position].
  - now rewrite Hh.
  - now rewrite Hh.
Qed.

Lemma find_remeasured (hs : list HeightT) :
  In id (map toastId hs) ->
  exists pos, List.find (fun e => id_eqb (toastId e) id) (map remeasure hs)
              = Some (mkHeight newHeight id pos).
Proof.
  induction hs as [|a hs IH]; intros Hin; [destruct Hin|]. simpl.
  rewrite remeasure_id. destruct (id_eqb (toastId a) id) eqn:Ha.
  - exists (position a). unfold remeasure. rewrite Ha.
    apply id_eqb_true in Ha. now rewrite Ha.
  - destruct Hin as [Hin|Hin]; [apply id_eqb_false in Ha; contradiction|].
    now apply IH.
Qed.

Lemma find_other_remeasured (other : ToastId) (hs : list HeightT) :
  other <> id ->
  List.find (fun e => id_eqb (toastId e) other) (map remeasure hs)
  = List.find (fun e => id_eqb (toastId e) other) hs.
Proof.
  intros Hother. induction hs as [|a hs IH]; simpl; [reflexivity|].
  rewrite remeasure_id. destruct (id_eqb (toastId a) other) eqn:Ha; [|exact IH].
  unfold remeasure. replace (id_eqb (toastId a) id) with false; [reflexivity|].
  symmetry. apply id_eqb_false. apply id_eqb_true in Ha. congruence.
Qed.

Lemma filter_remeasured (hs : list HeightT) :
  List.filter (fun h => negb (id_eqb (toastId h) id)) (map remeasure hs)
  = List.filter (fun h => negb (id_eqb (toastId h) id)) hs.
Proof.
  induction hs as [|a hs IH]; [reflexivity|]. cbn [map List.filter].
  rewrite remeasure_id. destruct (id_eqb (toastId a) id) eqn:Ha; cbn [negb]; [exact IH|].
  rewrite IH. unfold remeasure. now rewrite Ha.
Qed.

Lemma existsb_remeasured (hs : list HeightT) :
  existsb (fun h => id_eqb (toastId h) id) (map remeasure hs)
  = existsb (fun h => id_eqb (toastId h) id) hs.
Proof.
  induction hs as [|a hs IH]; simpl; [reflexivity|].
  now rewrite remeasure_id, IH.
Qed.

(** X5.  The ledger effect and the filter of [deleteToast] are a record
    and a remove by id: after a record the entry of the id has the height
    that was recorded, the entries of the other ids are what they were,
    removing the id after the record leaves what removing it before would
    have left, and recording the same height again changes nothing. *)
Theorem ledger_record_then_look_up (pos : string) (hs : list HeightT) :
  (exists pos',
      List.find (fun e => id_eqb (toastId e) id) (recordHeight id pos newHeight hs)
      = Some (mkHeight newHeight id pos'))
  /\ (forall other, other <> id ->
        List.find (fun e => id_eqb (toastId e) other) (recordHeight id pos newHeight hs)
        = List.find (fun e => id_eqb (toastId e) other) hs)
  /\ List.filter (fun h => negb (id_eqb (toastId h) id)) (recordHeight id pos newHeight hs)
     = List.filter (fun h => negb (id_eqb (toastId h) id)) hs
  /\ recordHeight id pos newHeight (recordHeight id pos newHeight hs)
     = recordHeight id pos newHeight hs
  /\ length (recordHeight id pos newHeight hs)
     = (if existsb (fun h => id_eqb (toastId h) id) hs
        then length hs else S (length hs)).
Proof.
  unfold recordHeight. fold remeasure.
  destruct (existsb (fun h => id_eqb (toastId h) id) hs) eqn:Hex.
  - assert (Hin : In id (map toastId hs)).
    { apply existsb_exists in Hex as (h & Hh & Heq). apply id_eqb_true in Heq.
      rewrite <- Heq. now apply in_map. }
    split; [now apply find_remeasured|].
    split; [intros other Hother; now apply find_other_remeasured|].
    split; [apply filter_remeasured|].
    split; [|apply length_map].
    rewrite existsb_remeasured, Hex, map_map.
    apply map_ext. intros h. apply remeasure_twice.
  - split; [exists pos; simpl; now rewrite id_eqb_refl|].
    split.
    { intros other Hother. simpl.
      replace (id_eqb id other) with false; [reflexivity|].
      symmetry. apply id_eqb_false. congruence. }
    split; [simpl; now rewrite id_eqb_refl|].
    split; [|reflexivity].
    cbn [existsb toastId]. rewrite id_eqb_refl. cbn [orb map].
    unfold remeasure at 1. cbn [toastId position]. rewrite id_eqb_refl.
    f_equal. clear -Hex. induction hs as [|a hs IH]; [reflexivity|].
    simpl in Hex. apply orb_false_iff in Hex as [Ha Hex].
    simpl. unfold remeasure at 1. rewrite Ha. f_equal. now apply IH.
Qed.

End Ledger.

(** ** One ledger for all positions *)

Lemma heightsAt_all (pos : string) (hs : list HeightT) :
  (forall h, In h hs -> position h = pos) -> Layout.heightsAt pos hs = hs.
Proof.
  unfold Layout.heightsAt. induction hs as [|a hs IH]; intros Hall; simpl; [reflexivity|].
  rewrite bool_decide_true by (apply Hall; now left).
  f_equal. apply IH. intros h Hh. apply Hall. now right.
Qed.



(** ** The lists of the two subscribers *)

Lemma nodup_ids_filter (keep : ToastT -> bool) (ts : list ToastT) :
  List.NoDup (map toast_id ts) -> List.NoDup (map toast_id (List.filter keep ts)).
Proof.
  induction ts as [|t ts IH]; intros Hnd; simpl; [constructor|].
  inversion Hnd as [|? ? Hnotin Hnd']; subst.
  destruct (keep t); [|now apply IH].
  simpl. constructor; [|now apply IH].
  intros Hin. apply Hnotin.
  apply in_map_iff in Hin as (t' & Hid & Ht').
  apply filter_In in Ht' as [Ht' _].
  rewrite <- Hid. now apply in_map.
Qed.

Lemma known_toast (ts : list ToastT) (id : ToastId) :
  In id (map toast_id ts) ->
  exists (k : nat) (old : ToastT), nth_error ts k = Some old /\ toast_id old = id.
Proof.
  intros Hin. apply in_map_iff in Hin as (old & Hid & Hold).
  apply In_nth_error in Hold as [k Hk]. now exists k, old.
Qed.

Lemma update_ids_unique (r : ToastT) (ts : list ToastT) :
  List.NoDup (map toast_id ts) -> List.NoDup (map toast_id (UseSonner.update r ts)).
Proof.
  intros Hnd. destruct (in_dec ToastId_eq_dec (toast_id r) (map toast_id ts)) as [Hin|Hno].
  - destruct (known_toast ts _ Hin) as (k & old & Hk & Hid).
    rewrite (update_known ts k old r Hnd Hk Hid).
    now rewrite (insert_same_id_ids ts k old _ Hk) by (now rewrite spread_id).
  - rewrite (update_unknown ts r Hno). simpl. now constructor.
Qed.

Lemma markDeleted_ids (id : ToastId) (ts : list ToastT) :
  map toast_id (ToasterStore.markDeleted id ts) = map toast_id ts.
Proof.
  unfold ToasterStore.markDeleted. rewrite map_map. apply map_ext.
  intros t. now destruct (id_eqb (toast_id t) id).
Qed.

Lemma store_flush_ids (s : ToasterStore.Store) :
  map toast_id (ToasterStore.toasts (ToasterStore.flush s))
  = map toast_id (ToasterStore.toasts s).
Proof.
  unfold ToasterStore.flush. cbn [ToasterStore.toasts].
  generalize (ToasterStore.toasts s).
  induction (ToasterStore.frames s) as [|id ids IH]; intros ts; [reflexivity|].
  simpl. now rewrite IH, markDeleted_ids.
Qed.

Lemma store_handler_ids_unique (e : Published) (s : ToasterStore.Store) :
  List.NoDup (map toast_id (ToasterStore.toasts s)) ->
  List.NoDup (map toast_id (ToasterStore.toasts (ToasterStore.handler e s))).
Proof.
  destruct s as [ts frames]. cbn [ToasterStore.toasts]. intros Hnd.
  destruct e as [r|id]; [|exact Hnd].
  destruct (in_dec ToastId_eq_dec (toast_id r) (map toast_id ts)) as [Hin|Hno].
  - destruct (known_toast ts _ Hin) as (k & old & Hk & Hid).
    rewrite (store_known ts frames k old r Hnd Hk Hid). cbn [ToasterStore.toasts].
    now rewrite (insert_same_id_ids ts k old r Hk) by (now symmetry).
  - rewrite (store_unknown ts frames r Hno). simpl. now constructor.
Qed.

(** X7.  Neither subscriber ever holds two toasts with one id: the list of
    [useSonner] through every sequence of published toasts and tombstones,
    the store of the [Toaster] through every sequence of notifications,
    animation frames and removals. *)
Theorem subscribers_keep_ids_unique :
  (forall (events : list Published) (toasts : list ToastT),
      List.NoDup (map toast_id toasts) ->
      List.NoDup (map toast_id
                    (fold_left (fun ts e => UseSonner.apply e ts) events toasts)))
  /\ (forall (events : list StoreEvent) (s : ToasterStore.Store),
         List.NoDup (map toast_id (ToasterStore.toasts s)) ->
         List.NoDup (map toast_id
                       (ToasterStore.toasts
                          (fold_left (fun s ev => storeStep ev s) events s)))).
Proof.
  split.
  - intros events. induction events as [|e events IH]; intros ts Hnd; [exact Hnd|].
    simpl. apply IH. destruct e as [r|id]; simpl.
    + now apply update_ids_unique.
    + now apply nodup_ids_filter.
  - intros events. induction events as [|ev events IH]; intros s Hnd; [exact Hnd|].
    cbn [fold_left]. apply IH. destruct ev as [e| |t]; unfold storeStep.
    + now apply store_handler_ids_unique.
    + now rewrite store_flush_ids.
    + cbn [ToasterStore.toasts removeToast fst]. now apply nodup_ids_filter.
Qed.

(** One id published twice, dismissed, and published again. *)
Lemma subscribers_keep_ids_unique_witness :
  List.NoDup (map toast_id
                (fold_left (fun ts e => UseSonner.apply e ts)
                   [Upsert Sample.uploading; Upsert Sample.uploaded;
                    DismissSignal (IdStr "upload"); Upsert Sample.uploading]
                   [])).
Proof.
  apply (proj1 subscribers_keep_ids_unique). constructor.
Defined.

Lemma first_toast_exists (ts : list ToastT) (id : ToastId) :
  In id (map toast_id ts) ->
  exists (k : nat) (old : ToastT),
    nth_error ts k = Some old /\ toast_id old = id
    /\ forall j t, (j < k)%nat -> nth_error ts j = Some t -> toast_id t <> id.
Proof.
  induction ts as [|a ts IH]; intros Hin; [destruct Hin|].
  destruct (decide (toast_id a = id)) as [Ha|Ha].
  - exists 0%nat, a. repeat split; [exact Ha | intros; lia].
  - destruct Hin as [Hin|Hin]; [contradiction|].
    destruct (IH Hin) as (k & old & Hk & Hid & Hbefore).
    exists (S k), old. repeat split; [exact Hk | exact Hid |].
    intros [|j] t Hj Ht; simpl in Ht.
    + now injection Ht as <-.
    + apply (Hbefore j t); [lia | exact Ht].
Qed.

Lemma nth_error_decompose {A : Type} (l : list A) (k : nat) (x : A) :
  nth_error l k = Some x -> l = firstn k l ++ x :: skipn (S k) l.
Proof.
  revert k; induction l as [|a l IH]; intros k Hk; [destruct k; discriminate|].
  destruct k as [|k]; simpl in *.
  - now injection Hk as ->.
  - f_equal. now apply IH.
Qed.

(** What [useSonner] does with a toast: in front when the id is new, in
    the place of the first toast with the id otherwise. *)
Lemma update_shape (t : ToastT) (ts : list ToastT) :
  (~ In (toast_id t) (map toast_id ts) /\ UseSonner.update t ts = t :: ts)
  \/ (exists (l : list ToastT) (old : ToastT) (r : list ToastT),
         ts = l ++ old :: r /\ toast_id old = toast_id t
         /\ ~ In (toast_id t) (map toast_id l)
         /\ UseSonner.update t ts = l ++ spread old t :: r).
Proof.
  destruct (in_dec ToastId_eq_dec (toast_id t) (map toast_id ts)) as [Hin|Hno].
  - right. destruct (first_toast_exists ts _ Hin) as (k & old & Hk & Hid & Hbefore).
    exists (firstn k ts), old, (skipn (S k) ts).
    split; [now apply nth_error_decompose|]. split; [exact Hid|]. split.
    + intros Hl. apply in_map_iff in Hl as (t' & Hid' & Ht').
      apply In_nth_error in Ht' as [j Hj].
      assert (Hjk : (j < k)%nat).
      { assert (j < length (firstn k ts))%nat by (apply nth_error_Some; congruence).
        rewrite length_firstn in H. lia. }
      rewrite nth_error_firstn in Hj.
      destruct (Nat.ltb_spec j k); [|lia].
      exact (Hbefore j t' Hjk Hj Hid').
    + unfold UseSonner.update.
      rewrite (findIndex_first _ ts k old Hk).
      * replace (negb (Z.of_nat k =? -1)) with true
          by (symmetry; apply negb_true_iff, Z.eqb_neq; lia).
        rewrite Nat2Z.id, Hk. cbv zeta. now rewrite Nat.add_1_r.
      * apply id_eqb_true. exact Hid.
      * intros j y Hj Hy. apply id_eqb_false. eauto.
  - left. split; [exact Hno | now apply update_unknown].
Qed.

Lemma drop_absent (id : ToastId) (ts : list ToastT) :
  ~ In id (map toast_id ts) -> UseSonner.drop id ts = ts.
Proof.
  unfold UseSonner.drop. induction ts as [|a ts IH]; intros Hno; simpl; [reflexivity|].
  replace (id_eqb (toast_id a) id) with false.
  - simpl. f_equal. apply IH. intros H. apply Hno. now right.
  - symmetry. apply id_eqb_false. intros H. apply Hno. now left.
Qed.

Lemma drop_twice (id : ToastId) (ts : list ToastT) :
  UseSonner.drop id (UseSonner.drop id ts) = UseSonner.drop id ts.
Proof.
  unfold UseSonner.drop. induction ts as [|a ts IH]; [reflexivity|].
  simpl. destruct (id_eqb (toast_id a) id) eqn:Ha; simpl; [exact IH|].
  rewrite Ha. simpl. now rewrite IH.
Qed.

(** X8.  In the list of [useSonner] a tombstone undoes a publish: after a
    toast and then the tombstone of its id the list is what the tombstone
    alone would have left, and the list from before when the id was new.
    A tombstone for an id that is not in the list changes nothing, a
    second tombstone changes nothing, and a publish makes the list longer
    by one toast at most. *)
Theorem tombstone_undoes_publish :
  forall (t : ToastT) (ts : list ToastT),
    UseSonner.drop (toast_id t) (UseSonner.update t ts)
    = UseSonner.drop (toast_id t) ts
    /\ (~ In (toast_id t) (map toast_id ts) ->
        UseSonner.drop (toast_id t) (UseSonner.update t ts) = ts)
    /\ (forall id, ~ In id (map toast_id ts) -> UseSonner.drop id ts = ts)
    /\ (forall id, UseSonner.drop id (UseSonner.drop id ts) = UseSonner.drop id ts)
    /\ (length ts <= length (UseSonner.update t ts) <= S (length ts))%nat
    /\ (forall id, ~ In id (map toast_id (UseSonner.drop id ts))).
Proof.
  intros t ts.
  assert (Hfirst : UseSonner.drop (toast_id t) (UseSonner.update t ts)
                   = UseSonner.drop (toast_id t) ts).
  { destruct (update_shape t ts) as [[Hno ->] | (l & old & r & -> & Hid & Hl & ->)].
    - unfold UseSonner.drop. simpl. now rewrite id_eqb_refl.
    - unfold UseSonner.drop. rewrite !List.filter_app. cbn [List.filter].
      now rewrite spread_id, Hid, id_eqb_refl. }
  split; [exact Hfirst|].
  split; [intros Hno; rewrite Hfirst; now apply drop_absent|].
  split; [intros id; apply drop_absent|].
  split; [intros id; apply drop_twice|].
  split.
  { destruct (update_shape t ts) as [[Hno ->] | (l & old & r & -> & Hid & Hl & ->)].
    - simpl. lia.
    - rewrite !length_app. simpl. lia. }
  intros id Hin. apply in_map_iff in Hin as (t' & Hid & Ht').
  apply filter_In in Ht' as [_ Ht']. rewrite Hid, id_eqb_refl in Ht'. discriminate.
Qed.

(** A new upload appears and is dismissed. *)
Lemma tombstone_undoes_publish_witness :
  UseSonner.drop (toast_id Sample.uploading)
    (UseSonner.update Sample.uploading [Sample.aToast])
  = [Sample.aToast].
Proof.
  apply (proj1 (proj2 (tombstone_undoes_publish Sample.uploading [Sample.aToast]))).
  simpl. intuition discriminate.
Defined.

(** ** Dismissing through the store of the [Toaster] *)

Lemma markDeleted_absent (id : ToastId) (ts : list ToastT) :
  ~ In id (map toast_id ts) -> ToasterStore.markDeleted id ts = ts.
Proof.
  unfold ToasterStore.markDeleted.
  induction ts as [|a ts IH]; intros Hno; simpl; [reflexivity|].
  replace (id_eqb (toast_id a) id) with false.
  - f_equal. apply IH. intros H. apply Hno. now right.
  - symmetry. apply id_eqb_false. intros H. apply Hno. now left.
Qed.

Lemma markDeleted_others (id : ToastId) (ts : list ToastT) :
  List.filter (fun t => negb (id_eqb (toast_id t) id)) (ToasterStore.markDeleted id ts)
  = List.filter (fun t => negb (id_eqb (toast_id t) id)) ts.
Proof.
  unfold ToasterStore.markDeleted.
  induction ts as [|a ts IH]; [reflexivity|]. cbn [map List.filter].
  destruct (id_eqb (toast_id a) id) eqn:Ha; cbn [toast_id]; rewrite Ha; cbn [negb].
  - exact IH.
  - now rewrite IH.
Qed.

Lemma markDeleted_flags (id : ToastId) (ts : list ToastT) (t : ToastT) :
  In t (ToasterStore.markDeleted id ts) -> toast_id t = id ->
  truthy (get t "delete") = true.
Proof.
  unfold ToasterStore.markDeleted. intros Hin Hid.
  apply in_map_iff in Hin as (t0 & Ht & _).
  destruct (id_eqb (toast_id t0) id) eqn:H0.
  - subst t. unfold get. cbn [fields]. now rewrite lookup_insert_eq.
  - subst t. apply id_eqb_false in H0. contradiction.
Qed.

Lemma findToast_spec (id : ToastId) (ts : list ToastT) :
  match findToast id ts with
  | Some t => In t ts /\ toast_id t = id
  | None => ~ In id (map toast_id ts)
  end.
Proof.
  unfold findToast. destruct (List.find _ ts) as [t|] eqn:Hfind.
  - apply find_some in Hfind as [Hin Hid]. split; [exact Hin | now apply id_eqb_true].
  - intros Hin. apply in_map_iff in Hin as (t & Hid & Ht).
    pose proof (find_none _ _ Hfind t Ht) as Hf. cbn beta in Hf.
    rewrite Hid, id_eqb_refl in Hf. discriminate.
Qed.

(** X9.  A removal that a tombstone caused is not reported back to the
    registry, and a removal the toast began by itself is reported once.
    After the frame of a tombstone every toast of the id carries the
    delete flag and the others are untouched; [removeToast] then hands
    nothing to [ToastState.dismiss], while for a toast without the flag,
    or one that is not in the store, it hands over the id.  Either way no
    toast of the id is left, and a tombstone that comes later changes
    nothing. *)
Theorem removal_is_reported_unless_dismissed :
  forall (t : ToastT) (ts : list ToastT),
    (In (toast_id t) (map toast_id ts) ->
       snd (removeToast t (ToasterStore.markDeleted (toast_id t) ts)) = [])
    /\ ((forall t', In t' ts -> toast_id t' = toast_id t ->
                    truthy (get t' "delete") = false) ->
        snd (removeToast t ts) = [toast_id t])
    /\ fst (removeToast t (ToasterStore.markDeleted (toast_id t) ts))
       = fst (removeToast t ts)
    /\ ~ In (toast_id t) (map toast_id (fst (removeToast t ts)))
    /\ ToasterStore.markDeleted (toast_id t) (fst (removeToast t ts))
       = fst (removeToast t ts)
    /\ (forall id, ~ In id (map toast_id ts) -> ToasterStore.markDeleted id ts = ts)
    /\ (forall id t', In t' (ToasterStore.markDeleted id ts) -> toast_id t' = id ->
                      truthy (get t' "delete") = true).
Proof.
  intros t ts.
  assert (Hgone : ~ In (toast_id t) (map toast_id (fst (removeToast t ts)))).
  { cbn [removeToast fst]. intros Hin. apply in_map_iff in Hin as (t' & Hid & Ht').
    apply filter_In in Ht' as [_ Ht']. rewrite Hid, id_eqb_refl in Ht'. discriminate. }
  split; [|split; [|split; [|split; [exact Hgone|split; [|split]]]]].
  - intros Hin. unfold removeToast. cbn [snd].
    pose proof (findToast_spec (toast_id t)
                  (ToasterStore.markDeleted (toast_id t) ts)) as Hfind.
    destruct (findToast _ _) as [t'|].
    + destruct Hfind as [Ht' Hid]. now rewrite (markDeleted_flags _ ts t' Ht' Hid).
    + exfalso. apply Hfind. now rewrite markDeleted_ids.
  - intros Hclean. unfold removeToast. cbn [snd].
    pose proof (findToast_spec (toast_id t) ts) as Hfind.
    destruct (findToast _ _) as [t'|]; [|reflexivity].
    destruct Hfind as [Ht' Hid]. now rewrite (Hclean t' Ht' Hid).
  - cbn [removeToast fst]. apply markDeleted_others.
  - now apply markDeleted_absent.
  - intros id. apply markDeleted_absent.
  - intros id t'. apply markDeleted_flags.
Qed.

(** The sample toast is dismissed by the application. *)
Lemma removal_is_reported_unless_dismissed_witness :
  snd (removeToast Sample.aToast
         (ToasterStore.markDeleted (toast_id Sample.aToast) [Sample.aToast])) = []
  /\ snd (removeToast Sample.aToast [Sample.aToast]) = [IdNum 1].
Proof.
  split.
  - apply (proj1 (removal_is_reported_unless_dismissed Sample.aToast [Sample.aToast])).
    simpl. now left.
  - apply (proj1 (proj2 (removal_is_reported_unless_dismissed Sample.aToast
                           [Sample.aToast]))).
    intros t' [<-|[]] _. reflexivity.
Defined.

(** ** The lists of the [Toaster] *)

Lemma existsb_eqb_In (x : string) (l : list string) :
  existsb (String.eqb x) l = true <-> In x l.
Proof.
  rewrite existsb_exists. split.
  - intros (y & Hy & Heq). apply String.eqb_eq in Heq. now subst.
  - intros Hin. exists x. split; [exact Hin | apply String.eqb_refl].
Qed.

Lemma uniqueFrom_In (l seen : list string) (x : string) :
  In x (uniqueFrom seen l) <-> In x l /\ ~ In x seen.
Proof.
  revert seen. induction l as [|a l IH]; intros seen; cbn [uniqueFrom].
  - simpl. tauto.
  - destruct (existsb (String.eqb a) seen) eqn:Hseen.
    + apply existsb_eqb_In in Hseen. rewrite IH. simpl. split.
      * intros [H1 H2]. tauto.
      * intros [[->|H1] H2]; [contradiction | tauto].
    + assert (Hnot : ~ In a seen).
      { intros H. apply existsb_eqb_In in H. congruence. }
      simpl. rewrite IH. simpl. split.
      * intros [->|[H1 H2]]; [tauto|]. split; [tauto|]. intros H. apply H2. now right.
      * intros [[->|H1] H2]; [now left|].
        destruct (String.eqb_spec a x) as [->|Hne]; [now left|].
        right. split; [exact H1|]. intros [H|H]; [contradiction|contradiction].
Qed.

Lemma uniqueFrom_NoDup (l seen : list string) : List.NoDup (uniqueFrom seen l).
Proof.
  revert seen. induction l as [|a l IH]; intros seen; cbn [uniqueFrom].
  - constructor.
  - destruct (existsb (String.eqb a) seen); [apply IH|].
    constructor; [|apply IH].
    intros H. apply uniqueFrom_In in H as [_ H]. apply H. now left.
Qed.

Lemma definedPositions_In (ts : list ToastT) (t : ToastT) (pos : string) :
  In t ts -> toast_position t = Some pos -> In pos (definedPositions ts).
Proof.
  induction ts as [|a ts IH]; intros Hin Hpos; [contradiction|].
  cbn [definedPositions]. destruct Hin as [->|Hin].
  - rewrite Hpos. now left.
  - destruct (toast_position a); [right|]; now apply IH.
Qed.

Lemma definedPositions_from (ts : list ToastT) (pos : string) :
  In pos (definedPositions ts) -> exists t, In t ts /\ toast_position t = Some pos.
Proof.
  induction ts as [|a ts IH]; [contradiction|]. cbn [definedPositions].
  destruct (toast_position a) as [q|] eqn:Ha.
  - intros [->|Hin].
    + exists a. split; [now left | exact Ha].
    + destruct (IH Hin) as (t & Ht & Hpos). exists t. split; [now right | exact Hpos].
  - intros Hin. destruct (IH Hin) as (t & Ht & Hpos).
    exists t. split; [now right | exact Hpos].
Qed.

Lemma possiblePositions_head (position : string) (ts : list ToastT) :
  possiblePositions position ts = position :: uniqueFrom [position] (definedPositions ts).
Proof. reflexivity. Qed.

Lemma first_list_only (position : string) (ts : list ToastT) (k : nat) :
  nth_error (possiblePositions position ts) k = Some position -> k = 0%nat.
Proof.
  rewrite possiblePositions_head. destruct k as [|k]; [reflexivity|].
  cbn [nth_error]. intros H. apply nth_error_In in H.
  apply uniqueFrom_In in H as [_ H]. exfalso. apply H. now left.
Qed.

(** X10.  Every toast is shown in one list and in one only.  The lists
    have different positions, the first is the one of the [Toaster] and
    the others are the positions some toast asks for; a toast whose
    position is typed goes into the list of its own position, or into
    the first when it has none, and into no other. *)
Theorem every_toast_in_one_list :
  forall (position : string) (ts : list ToastT),
    List.NoDup (possiblePositions position ts)
    /\ nth_error (possiblePositions position ts) 0 = Some position
    /\ (forall pos, In pos (possiblePositions position ts) <->
                    pos = position \/ exists t, In t ts /\ toast_position t = Some pos)
    /\ (forall t, In t ts -> positionTyped t = true ->
          In (homePosition position t) (possiblePositions position ts)
          /\ forall k pos, nth_error (possiblePositions position ts) k = Some pos ->
               (shownIn pos k t = true <-> pos = homePosition position t)).
Proof.
  intros position ts.
  split; [apply uniqueFrom_NoDup|]. split; [reflexivity|]. split.
  - intros pos. unfold possiblePositions. rewrite uniqueFrom_In. simpl. split.
    + intros [[->|H] _]; [now left|]. right. now apply definedPositions_from.
    + intros [->|(t & Ht & Hpos)]; (split; [|tauto]); [now left|].
      right. now apply (definedPositions_In ts t).
  - intros t Ht Htyped. unfold positionTyped in Htyped.
    unfold homePosition, shownIn, positionIs, toast_position.
    destruct (get t "position") as [| | |s| | |] eqn:Hget; try discriminate.
    + split; [rewrite possiblePositions_head; now left|].
      intros k pos Hk. cbn [truthy negb andb]. rewrite orb_false_r. split.
      * intros H0. apply Nat.eqb_eq in H0. subst k. simpl in Hk. congruence.
      * intros ->. apply first_list_only in Hk. now subst k.
    + split.
      * unfold possiblePositions. apply uniqueFrom_In. split; [|tauto].
        right. apply (definedPositions_In ts t); [exact Ht|].
        unfold toast_position. now rewrite Hget.
      * intros k pos Hk. cbn [truthy]. rewrite Htyped. cbn [negb andb orb].
        rewrite String.eqb_eq. split; congruence.
Qed.

(** The sample toast names the position of the [Toaster]: it is in the
    first list. *)
Lemma every_toast_in_one_list_witness :
  In (homePosition "bottom-right" Sample.aToast)
     (possiblePositions "bottom-right" [Sample.aToast]).
Proof.
  apply (proj2 (proj2 (proj2 (every_toast_in_one_list "bottom-right" [Sample.aToast])))
           Sample.aToast).
  - simpl. now left.
  - reflexivity.
Defined.

Lemma filter_split_length {A : Type} (f : A -> bool) (l : list A) :
  (length (List.filter f l) + length (List.filter (fun x => negb (f x)) l))%nat
  = length l.
Proof.
  induction l as [|a l IH]; [reflexivity|]. cbn [List.filter].
  destruct (f a); cbn [negb length]; lia.
Qed.

Lemma filter_filter_implied {A : Type} (f g : A -> bool) (l : list A) :
  (forall x, In x l -> f x = true -> g x = true) ->
  List.filter f (List.filter g l) = List.filter f l.
Proof.
  induction l as [|a l IH]; intros Himp; [reflexivity|]. cbn [List.filter].
  assert (IH' : List.filter f (List.filter g l) = List.filter f l).
  { apply IH. intros x Hx. apply Himp. now right. }
  destruct (g a) eqn:Hg; cbn [List.filter].
  - now rewrite IH'.
  - destruct (f a) eqn:Hf; [|exact IH'].
    rewrite (Himp a (or_introl eq_refl) Hf) in Hg. discriminate.
Qed.

(** X11.  The z-index of a toast counts down from the length of its list,
    less the toasts of the list whose [position] field is not the same as
    its own.  In a list other than the first there are none of those:
    the z-indices are the length of the list for the front toast down to
    one for the last.  In the first list a toast without a position and a
    toast that names the position of the [Toaster] do not count each
    other. *)
Theorem z_index_counts_down :
  forall (pos : string) (k : nat) (ts : list ToastT) (t : ToastT) (i : nat),
    nth_error (listToasts pos k ts) i = Some t ->
    (k <> 0%nat ->
       toastsProp t ts = listToasts pos k ts
       /\ zIndex t i ts = Z.of_nat (length (listToasts pos k ts)) - Z.of_nat i
       /\ 0 < zIndex t i ts)
    /\ (forallb positionTyped ts = true ->
        zIndex t i ts
        = Z.of_nat (length (listToasts pos k ts)) - Z.of_nat i
          - Z.of_nat (length (List.filter (fun t' => negb (samePosition t t'))
                                          (listToasts pos k ts)))).
Proof.
  intros pos k ts t i Hi.
  assert (Hlen : (i < length (listToasts pos k ts))%nat).
  { apply nth_error_Some. congruence. }
  assert (Hshown : shownIn pos k t = true).
  { apply nth_error_In in Hi. unfold listToasts in Hi. now apply filter_In in Hi. }
  split.
  - intros Hk.
    assert (Heq : toastsProp t ts = listToasts pos k ts).
    { unfold toastsProp, listToasts. apply List.filter_ext. intros t'.
      unfold shownIn in *. apply Nat.eqb_neq in Hk. rewrite Hk, andb_false_r in *.
      cbn [orb] in *. unfold positionIs, samePosition in *.
      destruct (toast_position t) as [s|]; [|discriminate].
      apply String.eqb_eq in Hshown. subst s.
      destruct (toast_position t'); [apply String.eqb_sym | reflexivity]. }
    split; [exact Heq|]. unfold zIndex. rewrite Heq. lia.
  - intros Htyped.
    assert (Hsub : toastsProp t ts
                   = List.filter (samePosition t) (listToasts pos k ts)).
    { unfold toastsProp, listToasts. symmetry. apply filter_filter_implied.
      intros t' Ht' Hsame.
      rewrite forallb_forall in Htyped. pose proof (Htyped t' Ht') as Htyped'.
      assert (Ht : In t ts).
      { apply nth_error_In in Hi. unfold listToasts in Hi. now apply filter_In in Hi. }
      pose proof (Htyped t Ht) as Htyped0.
      unfold shownIn, positionIs, samePosition, positionTyped, toast_position in *.
      destruct (get t "position") as [| | |s| | |] eqn:Hget; try discriminate;
        destruct (get t' "position") as [| | |s'| | |] eqn:Hget'; try discriminate.
      - exact Hshown.
      - apply String.eqb_eq in Hsame. subst s'.
        cbn [truthy] in *. rewrite Htyped0 in *. cbn [negb andb orb] in *. exact Hshown. }
    unfold zIndex. rewrite Hsub.
    pose proof (filter_split_length (samePosition t) (listToasts pos k ts)). lia.
Qed.

(** Two toasts in the first list, one without a position and one with
    the position of the [Toaster] spelled out: the last of them gets
    zero. *)
Lemma z_index_counts_down_witness :
  zIndex Sample.aToast 1 [Sample.uploading; Sample.aToast]
  = Z.of_nat (length (listToasts "bottom-right" 0 [Sample.uploading; Sample.aToast])) - 1
    - Z.of_nat (length (List.filter (fun t' => negb (samePosition Sample.aToast t'))
                          (listToasts "bottom-right" 0
                             [Sample.uploading; Sample.aToast]))).
Proof.
  apply (proj2 (z_index_counts_down "bottom-right" 0 [Sample.uploading; Sample.aToast]
                  Sample.aToast 1 eq_refl)).
  reflexivity.
Defined.

(** ** A toast that is held does not expire *)

Lemma timerEffect_held (p : Props) (now : Z) (t : TimerState) :
  paused p = true ->
  timeoutId (timerEffect p now t) = None
  /\ (closeTimerStartTimeRef t <= lastCloseTimerStartTimeRef t ->
      lastCloseTimerStartTimeRef t <= now ->
      remainingTime (timerEffect p now t) = remainingTime t
      /\ closeTimerStartTimeRef (timerEffect p now t)
         <= lastCloseTimerStartTimeRef (timerEffect p now t)
      /\ lastCloseTimerStartTimeRef (timerEffect p now t) <= now).
Proof.
  intros Hp. unfold timerEffect. rewrite Hp. unfold pauseTimer.
  cbn [remainingTime closeTimerStartTimeRef lastCloseTimerStartTimeRef timeoutId].
  destruct (toast_duration (toast p)) as [[]|]; destruct (isLoading p);
    cbn [remainingTime closeTimerStartTimeRef lastCloseTimerStartTimeRef timeoutId];
    (split; [reflexivity|]); intros H1 H2;
    try (destruct (Z.ltb_spec (lastCloseTimerStartTimeRef t) (closeTimerStartTimeRef t)));
    repeat split; try reflexivity; lia.
Qed.

Lemma step_held (p : Props) (now : Z) (e : Event) (w : World) :
  (e = TimerEffect -> paused p = true) ->
  timeoutId (timer (inst w)) = None ->
  timeoutId (timer (inst (step p now e w))) = None
  /\ count_call OnAutoClose (step p now e w) = count_call OnAutoClose w
  /\ (closeTimerStartTimeRef (timer (inst w)) <= lastCloseTimerStartTimeRef (timer (inst w)) ->
      lastCloseTimerStartTimeRef (timer (inst w)) <= now ->
      remainingTime (timer (inst (step p now e w))) = remainingTime (timer (inst w))
      /\ closeTimerStartTimeRef (timer (inst (step p now e w)))
         <= lastCloseTimerStartTimeRef (timer (inst (step p now e w)))
      /\ lastCloseTimerStartTimeRef (timer (inst (step p now e w))) <= now).
Proof.
  intros Hheld Htimer.
  destruct (disposed (inst w)) eqn:Hdisp.
  { rewrite step_disposed by exact Hdisp. repeat split; try assumption; reflexivity. }
  assert (Hcount : e <> AutoCloseTimeout ->
                   count_call OnAutoClose (step p now e w) = count_call OnAutoClose w).
  { intros He. unfold count_call.
    destruct (step_calls p now e w) as [-> | ->]; [reflexivity|].
    assert (Hnone : List.filter (fun c' => bool_decide (c' = OnAutoClose)) (mayCall e) = [])
      by (destruct e; try reflexivity; exfalso; now apply He).
    rewrite List.filter_app, length_app, Hnone. simpl. lia. }
  destruct (touchesTimer e) eqn:Htouch.
  - destruct e; try discriminate Htouch.
    + destruct (timerEffect_held p now (timer (inst w)) (Hheld eq_refl)) as [Hnone Hkeep].
      assert (Hstep : timer (inst (step p now TimerEffect w))
                      = timerEffect p now (timer (inst w))).
      { unfold step. rewrite Hdisp. reflexivity. }
      rewrite Hstep. split; [exact Hnone|]. split; [apply Hcount; discriminate|].
      exact Hkeep.
    + unfold step. rewrite Hdisp, autoCloseTimeout_idle by exact Htimer.
      repeat split; try assumption; reflexivity.
    + split; [|split; [apply Hcount; discriminate|]].
      * unfold step. rewrite Hdisp.
        destruct (unmount_timer now w) as [H| ->]; assumption.
      * unfold step. rewrite Hdisp. unfold unmount.
        destruct (existsb _ _); cbn; intros; repeat split; try reflexivity; assumption.
  - rewrite step_timer by exact Htouch. split; [exact Htimer|].
    split; [apply Hcount; intros ->; discriminate Htouch|].
    intros; repeat split; try reflexivity; assumption.
Qed.

Lemma run_held (hist : list Stamped) (since : Z) (w : World) :
  held since hist ->
  timeoutId (timer (inst w)) = None ->
  timeoutId (timer (inst (run hist w))) = None
  /\ count_call OnAutoClose (run hist w) = count_call OnAutoClose w
  /\ (closeTimerStartTimeRef (timer (inst w)) <= lastCloseTimerStartTimeRef (timer (inst w)) ->
      lastCloseTimerStartTimeRef (timer (inst w)) <= since ->
      remainingTime (timer (inst (run hist w))) = remainingTime (timer (inst w))).
Proof.
  revert since w. induction hist as [|[[p now] e] hist IH]; intros since w Hheld Htimer.
  - repeat split; try assumption; reflexivity.
  - destruct Hheld as (Hclock & Hp & Hrest). cbn [run].
    destruct (step_held p now e w Hp Htimer) as (Hnone & Hcount & Hkeep).
    destruct (IH now (step p now e w) Hrest Hnone) as (Hnone' & Hcount' & Hkeep').
    split; [exact Hnone'|]. split; [now rewrite Hcount'|].
    intros H1 H2. destruct (Hkeep H1 ltac:(lia)) as (Hr & H3 & H4).
    rewrite (Hkeep' H3 H4). exact Hr.
Qed.

(** X12.  A toast that is held does not expire.  The run of the timer
    effect that sees the list expanded, the user interacting or the
    document hidden clears the pending timeout; until a run of the effect
    sees none of the three, no timeout is pending and [onAutoClose] is not
    called, whatever else happens and however long it takes.  When that
    first run came at or after the start of the countdown, the remaining
    time it left is the remaining time throughout: pausing again takes
    nothing more off. *)
Theorem held_toast_does_not_expire :
  forall (hist : list Stamped) (p : Props) (now : Z) (w : World),
    disposed (inst w) = false ->
    paused p = true ->
    held now hist ->
    timeoutId (timer (inst (run hist (step p now TimerEffect w)))) = None
    /\ count_call OnAutoClose (run hist (step p now TimerEffect w))
       = count_call OnAutoClose w
    /\ (armed p -> closeTimerStartTimeRef (timer (inst w)) <= now ->
        remainingTime (timer (inst (run hist (step p now TimerEffect w))))
        = remainingTime (timer (inst (step p now TimerEffect w)))).
Proof.
  intros hist p now w Hdisp Hp Hheld.
  assert (Hstep : timer (inst (step p now TimerEffect w))
                  = timerEffect p now (timer (inst w))).
  { unfold step. rewrite Hdisp. reflexivity. }
  assert (Hnone : timeoutId (timer (inst (step p now TimerEffect w))) = None).
  { rewrite Hstep. now apply timerEffect_held. }
  assert (Hcount : count_call OnAutoClose (step p now TimerEffect w)
                   = count_call OnAutoClose w).
  { unfold count_call.
    destruct (step_calls p now TimerEffect w) as [-> | ->]; [reflexivity|].
    cbn. now rewrite app_nil_r. }
  destruct (run_held hist now (step p now TimerEffect w) Hheld Hnone)
    as (Hnone' & Hcount' & Hkeep).
  split; [exact Hnone'|]. split; [now rewrite Hcount'|].
  intros Harmed Hclock. apply Hkeep; rewrite Hstep, (timerEffect_pause p now _ Harmed Hp);
    unfold pauseTimer; cbn; lia.
Qed.

(** The sample toast is hovered two seconds after it started, and the
    effect runs again a second later. *)
Lemma held_toast_does_not_expire_witness :
  timeoutId (timer (inst (run [(Sample.hovered, 4000, TimerEffect)]
                            (step Sample.hovered 3000 TimerEffect
                               (step Sample.running 1000 TimerEffect Sample.mounted)))))
  = None.
Proof.
  apply (proj1 (held_toast_does_not_expire [(Sample.hovered, 4000, TimerEffect)]
                  Sample.hovered 3000
                  (step Sample.running 1000 TimerEffect Sample.mounted)
                  eq_refl eq_refl ltac:(simpl; repeat split; lia))).
Defined.

(** ** The time a toast has left *)

Lemma timeSpent_clear (t0 : Z) (D : Q) (clock : Z) (t : TimerState) (k : Z) :
  timeSpent t0 D clock t k ->
  timeSpent t0 D clock
    (mkTimer (remainingTime t) (closeTimerStartTimeRef t)
             (lastCloseTimerStartTimeRef t) None) k.
Proof. intros H. exact H. Qed.

Lemma timeSpent_later (t0 : Z) (D : Q) (clock now : Z) (t : TimerState) (k : Z) :
  clock <= now -> timeSpent t0 D clock t k -> timeSpent t0 D now t k.
Proof.
  intros Hle (Hr & Hk & Hs & Hl & Hrun & Hpau).
  unfold timeSpent. split; [exact Hr|]. split; [exact Hk|].
  split; [lia|]. split; [lia|]. split; assumption.
Qed.

Lemma timerEffect_timeSpent (t0 : Z) (D : Q) (clock : Z) (p : Props) (now : Z)
    (t : TimerState) (k : Z) :
  t0 <= clock -> clock <= now -> timeSpent t0 D clock t k ->
  exists k', k <= k' /\ timeSpent t0 D now (timerEffect p now t) k'.
Proof.
  intros Ht0 Hnow Hspent.
  assert (Hidle : exists k', k <= k' /\ timeSpent t0 D now
            (mkTimer (remainingTime t) (closeTimerStartTimeRef t)
                     (lastCloseTimerStartTimeRef t) None) k').
  { exists k. split; [lia|]. apply (timeSpent_later t0 D clock); [exact Hnow|].
    now apply timeSpent_clear. }
  assert (Hbody : exists k', k <= k' /\ timeSpent t0 D now
            (if paused p
             then pauseTimer now (mkTimer (remainingTime t) (closeTimerStartTimeRef t)
                                          (lastCloseTimerStartTimeRef t) None)
             else startTimer now (mkTimer (remainingTime t) (closeTimerStartTimeRef t)
                                          (lastCloseTimerStartTimeRef t) None)) k').
  { destruct Hspent as ((r & Hr & Hrk) & Hk & Hs & Hl & Hrun & Hpau).
    destruct (paused p).
    - unfold pauseTimer.
      cbn [remainingTime closeTimerStartTimeRef lastCloseTimerStartTimeRef timeoutId].
      destruct (Z.ltb_spec (lastCloseTimerStartTimeRef t) (closeTimerStartTimeRef t))
        as [Hlt|Hge].
      + exists (k + (now - closeTimerStartTimeRef t)). split; [lia|].
        destruct (Hrun Hlt) as [Hstart Hbound].
        unfold timeSpent.
        cbn [remainingTime closeTimerStartTimeRef lastCloseTimerStartTimeRef].
        split.
        { rewrite Hr. cbn [JS.sub_int]. eexists. split; [reflexivity|].
          rewrite Hrk, inject_Z_plus. ring. }
        repeat split; lia.
      + exists k. split; [lia|]. unfold timeSpent.
        cbn [remainingTime closeTimerStartTimeRef lastCloseTimerStartTimeRef].
        split; [now exists r|]. pose proof (Hpau Hge). repeat split; lia.
    - unfold startTimer. cbn [remainingTime]. rewrite Hr. cbn [JS.is_Infinity].
      exists k. split; [lia|]. unfold timeSpent.
      cbn [remainingTime closeTimerStartTimeRef lastCloseTimerStartTimeRef].
      split; [now exists r|].
      destruct (Z.lt_ge_cases (lastCloseTimerStartTimeRef t) (closeTimerStartTimeRef t))
        as [Hlt|Hge].
      + destruct (Hrun Hlt). repeat split; lia.
      + pose proof (Hpau Hge). repeat split; lia. }
  unfold timerEffect.
  destruct (toast_duration (toast p)) as [[]|]; try exact Hidle;
    destruct (isLoading p); first [exact Hidle | exact Hbody].
Qed.

Lemma step_timeSpent (t0 : Z) (D : Q) (clock : Z) (p : Props) (now : Z) (e : Event)
    (w : World) (k : Z) :
  t0 <= clock -> clock <= now -> timeSpent t0 D clock (timer (inst w)) k ->
  exists k', k <= k' /\ timeSpent t0 D now (timer (inst (step p now e w))) k'.
Proof.
  intros Ht0 Hnow Hspent.
  assert (Hsame : exists k', k <= k' /\ timeSpent t0 D now (timer (inst w)) k').
  { exists k. split; [lia|]. now apply (timeSpent_later t0 D clock). }
  destruct (disposed (inst w)) eqn:Hdisp.
  { now rewrite step_disposed by exact Hdisp. }
  destruct (touchesTimer e) eqn:Htouch.
  - destruct e; try discriminate Htouch; unfold step; rewrite Hdisp.
    + now apply (timerEffect_timeSpent t0 D clock).
    + unfold autoCloseTimeout. destruct (timeoutId (timer (inst w))); [|exact Hsame].
      destruct (Qle_bool _ _); [|exact Hsame].
      rewrite deleteToast_timer. unfold call_optional.
      destruct (nullish _); exact Hsame.
    + unfold unmount. destruct (existsb _ _); exact Hsame.
  - now rewrite step_timer by exact Htouch.
Qed.

Lemma run_timeSpent (t0 : Z) (D : Q) (hist : list Stamped) (clock : Z) (w : World) (k : Z) :
  t0 <= clock -> clocked clock hist -> timeSpent t0 D clock (timer (inst w)) k ->
  exists k', k <= k'
             /\ timeSpent t0 D (clockEnd clock hist) (timer (inst (run hist w))) k'
             /\ t0 <= clockEnd clock hist.
Proof.
  revert clock w k. induction hist as [|[[p now] e] hist IH]; intros clock w k Ht0 Hc Hs.
  - exists k. split; [lia|]. split; [exact Hs | exact Ht0].
  - destruct Hc as [Hnow Hrest]. cbn [run clockEnd].
    destruct (step_timeSpent t0 D clock p now e w k Ht0 Hnow Hs) as (k1 & Hk1 & Hs1).
    destruct (IH now (step p now e w) k1 ltac:(lia) Hrest Hs1) as (k2 & Hk2 & Hs2 & Hend).
    exists k2. split; [lia|]. split; assumption.
Qed.

(** X13.  A toast never gains time and never loses more than has passed.
    For a toast created at [t0] with [D] milliseconds to live, after any
    history whose clock does not go back the remaining time is [D] less a
    whole number of milliseconds between zero and the time passed since
    [t0].  So nothing that happens later, a new [duration] of the toast
    included, gives it more than [D] to live. *)
Theorem remaining_time_within_time_passed :
  forall (hist : list Stamped) (p0 : Props) (hs : list HeightT) (D : Q) (t0 : Z),
    0 <= t0 ->
    initialRemainingTime p0 = JS.Fin D ->
    clocked t0 hist ->
    exists (k : Z) (r : Q),
      remainingTime (timer (inst (run hist (mkWorld hs (initialInst p0))))) = JS.Fin r
      /\ Qeq r (D - inject_Z k)
      /\ 0 <= k <= clockEnd t0 hist - t0.
Proof.
  intros hist p0 hs D t0 Hpos HD Hclock.
  assert (Hinit : timeSpent t0 D t0 (timer (inst (mkWorld hs (initialInst p0)))) 0).
  { unfold timeSpent. cbn. split.
    - exists D. split; [exact HD|]. unfold Qminus. cbn. ring.
    - repeat split; lia. }
  destruct (run_timeSpent t0 D hist t0 _ 0 (Z.le_refl _) Hclock Hinit)
    as (k & Hk & ((r & Hr & Hrk) & Hk0 & Hs & Hl & Hrun & Hpau) & Hend).
  exists k, r. split; [exact Hr|]. split; [exact Hrk|]. split; [exact Hk0|].
  destruct (Z.lt_ge_cases
              (lastCloseTimerStartTimeRef
                 (timer (inst (run hist (mkWorld hs (initialInst p0))))))
              (closeTimerStartTimeRef
                 (timer (inst (run hist (mkWorld hs (initialInst p0)))))))
    as [Hlt|Hge].
  - destruct (Hrun Hlt). lia.
  - pose proof (Hpau Hge). lia.
Qed.

(** The sample toast starts at 1000, is hovered from 3000 to 4000 and
    hovered again at 6000. *)
Lemma remaining_time_within_time_passed_witness :
  exists (k : Z) (r : Q),
    remainingTime
      (timer (inst (run [(Sample.running, 1000, TimerEffect);
                         (Sample.hovered, 3000, TimerEffect);
                         (Sample.running, 4000, TimerEffect);
                         (Sample.hovered, 6000, TimerEffect)]
                        (mkWorld [] (initialInst Sample.running))))) = JS.Fin r
    /\ Qeq r (4000 - inject_Z k)
    /\ 0 <= k <= 6000 - 1000.
Proof.
  apply (remaining_time_within_time_passed
           [(Sample.running, 1000, TimerEffect);
            (Sample.hovered, 3000, TimerEffect);
            (Sample.running, 4000, TimerEffect);
            (Sample.hovered, 6000, TimerEffect)]
           Sample.running [] 4000 1000).
  - lia.
  - reflexivity.
  - simpl. lia.
Defined.

(** ** Swiping the wrong way *)

Lemma dampened_below_20 (delta : Q) : (Qabs (delta * getDampening delta) < 20)%Q.
Proof.
  pose proof (Qabs_nonneg delta) as Habs.
  pose proof (dampening_denominator_positive delta) as Hden.
  assert (Hpos : (0 < getDampening delta)%Q).
  { unfold getDampening. apply Qlt_shift_div_l; [exact Hden | lra]. }
  rewrite Qabs_Qmult, (Qabs_pos (getDampening delta)) by lra.
  unfold getDampening.
  assert (Heq : (Qabs delta * (1 / (1.5 + Qabs delta / 20))
                 == Qabs delta / (1.5 + Qabs delta / 20))%Q) by (field; lra).
  rewrite Heq. apply Qlt_shift_div_r; [exact Hden|].
  assert (Hring : (20 * (1.5 + Qabs delta / 20) == 30 + Qabs delta)%Q) by (field; lra).
  rewrite Hring. lra.
Qed.

Lemma dampened_smaller (delta : Q) :
  (Qabs delta <= Qabs (delta * getDampening delta))%Q -> (Qabs delta == 0)%Q.
Proof.
  pose proof (Qabs_nonneg delta) as Habs.
  pose proof (dampening_denominator_positive delta) as Hden.
  assert (Hpos : (0 < getDampening delta)%Q).
  { unfold getDampening. apply Qlt_shift_div_l; [exact Hden | lra]. }
  rewrite Qabs_Qmult, (Qabs_pos (getDampening delta)) by lra.
  unfold getDampening.
  assert (Heq : (Qabs delta * (1 / (1.5 + Qabs delta / 20))
                 == Qabs delta / (1.5 + Qabs delta / 20))%Q) by (field; lra).
  rewrite Heq. intros Hle.
  destruct (Qlt_le_dec 0 (Qabs delta)) as [Hlt|Hzero]; [|lra].
  exfalso.
  assert (Hlt' : (Qabs delta / (1.5 + Qabs delta / 20) < Qabs delta)%Q).
  { apply Qlt_shift_div_r; [exact Hden|].
    assert (Hring : (Qabs delta * (1.5 + Qabs delta / 20)
                     == 1.5 * Qabs delta + (Qabs delta * Qabs delta) * (1 # 20))%Q)
      by (field; lra).
    rewrite Hring.
    assert (Hsq : (0 <= Qabs delta * Qabs delta)%Q) by (apply Qmult_le_0_compat; lra).
    lra. }
  lra.
Qed.

Lemma wrongWay_below_20 (dirs : list string) (neg pos : string) (delta : Q) :
  wrongWay dirs neg pos delta -> (Qabs (axisAmount dirs neg pos delta) < 20)%Q.
Proof.
  intros [Hneg Hpos]. unfold axisAmount.
  destruct (includes dirs neg || includes dirs pos); [|rewrite Qabs_pos; lra].
  destruct ((includes dirs neg && JS.ltb delta 0) || (includes dirs pos && JS.gtb delta 0))
    eqn:Hallowed.
  - exfalso. apply orb_true_iff in Hallowed as [H|H]; apply andb_true_iff in H as [Hin Hd].
    + apply Hneg. split; [exact Hin | now apply ltb_true].
    + apply Hpos. split; [exact Hin | now apply gtb_true].
  - destruct (JS.ltb (Qabs (delta * getDampening delta)) (Qabs delta)) eqn:Hlt.
    + apply dampened_below_20.
    + apply ltb_false in Hlt. apply dampened_smaller in Hlt. lra.
Qed.

Lemma slow_and_short (amount : Q) (timeTaken : Z) :
  (Qabs amount < 20)%Q -> 182 <= timeTaken -> commits amount timeTaken = false.
Proof.
  intros Hshort Hslow. apply not_true_is_false. intros Hc.
  apply commits_iff in Hc as [Hfar|Hfast].
  - unfold SWIPE_THRESHOLD in Hfar. lra.
  - apply velocity_gt in Hfast; [|lia].
    assert (Ht : (182 <= inject_Z timeTaken)%Q).
    { change 182%Q with (inject_Z 182). now rewrite <- Zle_Qle. }
    assert (Hq : (Qabs amount / inject_Z timeTaken <= 0.11)%Q).
    { apply Qle_shift_div_r; lra. }
    lra.
Qed.

(** X14.  A swipe the wrong way does not dismiss a toast unless it is
    quick.  When the pointer has moved against the directions of the
    toast along the locked axis, the amount that is applied is less than
    20 pixels, however far the pointer went; so it never reaches the
    threshold of 45, and a pointer-up 182 milliseconds or more after the
    pointer-down leaves the toast in place, calls nothing and, unless
    the toast is on its way out already, puts the swipe amounts back to
    zero. *)
Theorem wrong_way_swipe_does_not_dismiss :
  forall (p : Props) (now moved : Z) (w : World) (x y startX startY : Q) (started : Z),
    disposed (inst w) = false ->
    dismissible p = true ->
    pointerStartRef (gesture (inst w)) = Some (startX, startY) ->
    dragStartTime (gesture (inst w)) = Some started ->
    againstAllowed (effectiveSwipeDirections p)
      (lockAxis (swipeDirection (gesture (inst w))) (x - startX) (y - startY))
      (x - startX) (y - startY) ->
    182 <= now - started ->
    (Qabs (finalSwipeAmount (gesture (inst (step p moved (PointerMove x y false) w)))) < 20)%Q
    /\ removed (inst (step p now PointerUp (step p moved (PointerMove x y false) w)))
       = removed (inst w)
    /\ calls (inst (step p now PointerUp (step p moved (PointerMove x y false) w)))
       = calls (inst w)
    /\ heights (step p now PointerUp (step p moved (PointerMove x y false) w))
       = heights w
    /\ (swipeOut (gesture (inst w)) = false ->
        swipeAmountX (gesture (inst (step p now PointerUp
                                       (step p moved (PointerMove x y false) w)))) = 0%Q
        /\ swipeAmountY (gesture (inst (step p now PointerUp
                                          (step p moved (PointerMove x y false) w)))) = 0%Q).
Proof.
  intros p now moved w x y startX startY started Hdisp Hdis Hstart Hdrag Hwrong Hslow.
  assert (Hmove : step p moved (PointerMove x y false) w
                  = upd_inst (fun i => set_gesture
                                (onPointerMove p x y false (gesture i)) i) w).
  { unfold step. now rewrite Hdisp. }
  rewrite Hmove. unfold upd_inst, set_gesture.
  set (g1 := onPointerMove p x y false (gesture (inst w))).
  assert (Hg1 : g1 = let dir := lockAxis (swipeDirection (gesture (inst w)))
                                         (x - startX) (y - startY) in
                     let amount := swipeAmountFor (effectiveSwipeDirections p) dir
                                     (x - startX) (y - startY) in
                     mkGesture dir (swipeOutDirection (gesture (inst w)))
                       (swiping (gesture (inst w))) (swipeOut (gesture (inst w)))
                       (if JS.gtb (Qabs (fst amount)) 0 || JS.gtb (Qabs (snd amount)) 0
                        then true else isSwiped (gesture (inst w)))
                       (dragStartTime (gesture (inst w)))
                       (pointerStartRef (gesture (inst w))) (fst amount) (snd amount)).
  { unfold g1, onPointerMove. now rewrite Hstart, Hdis. }
  assert (Hshort : (Qabs (finalSwipeAmount g1) < 20)%Q).
  { rewrite Hg1. cbv zeta. unfold finalSwipeAmount, swipeAmountFor.
    cbn [swipeDirection swipeAmountX swipeAmountY].
    destruct (lockAxis _ _ _) as [[|]|]; cbn [fst snd againstAllowed] in *.
    - now apply wrongWay_below_20.
    - now apply wrongWay_below_20.
    - rewrite Qabs_pos; lra. }
  split; [exact Hshort|].
  pose proof (slow_and_short _ _ Hshort Hslow) as Hstay.
  assert (Hdrag1 : dragStartTime g1 = Some started).
  { rewrite Hg1. cbv zeta. exact Hdrag. }
  assert (Hout1 : swipeOut g1 = swipeOut (gesture (inst w))).
  { rewrite Hg1. reflexivity. }
  unfold step. cbn [inst disposed]. rewrite Hdisp.
  unfold onPointerUp. cbn [inst gesture heights]. rewrite Hdrag1, Hout1, Hdis.
  cbn [negb]. rewrite orb_false_r.
  destruct (swipeOut (gesture (inst w))).
  - cbn [inst removed calls heights].
    split; [reflexivity|]. split; [reflexivity|]. split; [reflexivity|]. discriminate.
  - rewrite Hstay. cbn. repeat split; reflexivity.
Qed.

(** The sample toast, which can be swiped down and to the right, is
    dragged 200 pixels to the left and let go after half a second. *)
Lemma wrong_way_swipe_does_not_dismiss_witness :
  removed (inst (step Sample.running 1500 PointerUp
                   (step Sample.running 1400 (PointerMove (-190) 10 false)
                      (step Sample.running 1000 (PointerDown 10 10 false)
                         Sample.mounted))))
  = false.
Proof.
  apply (proj1 (proj2 (wrong_way_swipe_does_not_dismiss Sample.running 1500 1400
                         (step Sample.running 1000 (PointerDown 10 10 false) Sample.mounted)
                         (-190) 10 10 10 1000
                         eq_refl eq_refl eq_refl eq_refl
                         ltac:(vm_compute; split; intros [H1 H2]; discriminate)
                         ltac:(lia)))).
Defined.

(** ** A toast that is not dismissible *)

Lemma upd_gesture_same (w : World) :
  upd_inst (fun i => set_gesture (gesture i) i) w = w.
Proof. destruct w as [hs [t g r o u d c]]. reflexivity. Qed.

Lemma step_not_dismissible (p : Props) (now : Z) (e : Event) (w : World) :
  dismissible p = false -> dismissAttempt e = true -> step p now e w = w.
Proof.
  intros Hdis He. unfold step. destruct (disposed (inst w)); [reflexivity|].
  destruct e; try discriminate He.
  - unfold onPointerDown. now rewrite Hdis, orb_true_r.
  - rewrite <- (upd_gesture_same w) at 2. unfold upd_inst. do 2 f_equal.
    unfold onPointerMove. rewrite Hdis. cbn [negb].
    now destruct (pointerStartRef (gesture (inst w))) as [[startX startY]|].
  - unfold onPointerUp. rewrite Hdis. cbn [negb]. rewrite orb_true_r.
    now destruct (dragStartTime _).
  - unfold onCloseClick. rewrite Hdis, orb_true_r. now destruct (closeButtonShown p).
  - unfold onCancelClick. rewrite Hdis. now destruct (isAction _).
Qed.

(** X15.  A toast that is not dismissible ignores the pointer, the close
    button and the cancel button: whatever the user does of these, and
    in whatever order, the engine is left exactly as it was, and the
    callbacks with it.  The action button is not held back: a click on
    it that is not prevented removes the toast all the same. *)
Theorem not_dismissible_ignores_the_user :
  (forall (hist : list Stamped) (w : World),
      Forall (fun s => let '(p, _, e) := s in
                       dismissible p = false /\ dismissAttempt e = true) hist ->
      run hist w = w)
  /\ (forall (p : Props) (now : Z) (w : World),
         disposed (inst w) = false ->
         isAction (get (toast p) "action") = true ->
         removed (inst (step p now (ActionClick false) w)) = true
         /\ calls (inst (step p now (ActionClick false) w))
            = calls (inst w) ++ [ActionOnClick]).
Proof.
  split.
  - intros hist. induction hist as [|[[p now] e] hist IH]; intros w Hall; [reflexivity|].
    inversion Hall as [|? ? Hhead Hrest]; subst. destruct Hhead as [Hdis He]. cbn [run].
    rewrite (step_not_dismissible p now e w Hdis He). now apply IH.
  - intros p now w Hdisp Haction. unfold step. rewrite Hdisp, Haction.
    split; reflexivity.
Qed.

(** The second toast of the stack has no [dismissible] property. *)
Lemma not_dismissible_ignores_the_user_witness :
  run [(Sample.second, 1000, PointerDown 10 10 false);
       (Sample.second, 1100, PointerMove 90 10 false);
       (Sample.second, 1200, PointerUp);
       (Sample.second, 1300, CloseClick)] Sample.stacked
  = Sample.stacked.
Proof.
  apply (proj1 not_dismissible_ignores_the_user).
  repeat (apply List.Forall_cons; [split; reflexivity|]). apply List.Forall_nil.
Defined.

(** ** One axis at a time *)

Lemma swipeAmountFor_one_axis (dirs : list string) (dir : option Axis) (xDelta yDelta : Q) :
  fst (swipeAmountFor dirs dir xDelta yDelta) = 0%Q
  \/ snd (swipeAmountFor dirs dir xDelta yDelta) = 0%Q.
Proof. destruct dir as [[|]|]; cbn; auto. Qed.

Lemma step_one_axis (p : Props) (now : Z) (e : Event) (w : World) :
  swipeAmountX (gesture (inst w)) = 0%Q \/ swipeAmountY (gesture (inst w)) = 0%Q ->
  swipeAmountX (gesture (inst (step p now e w))) = 0%Q
  \/ swipeAmountY (gesture (inst (step p now e w))) = 0%Q.
Proof.
  intros Hone. unfold step. destruct (disposed (inst w)); [exact Hone|].
  destruct e.
  - exact Hone.
  - unfold autoCloseTimeout, call_optional. break_conditions; exact Hone.
  - unfold deleteEffect. break_conditions; exact Hone.
  - unfold unmount. break_conditions; exact Hone.
  - exact Hone.
  - break_conditions; exact Hone.
  - break_conditions; exact Hone.
  - unfold onPointerDown. break_conditions; exact Hone.
  - cbn [upd_inst inst set_gesture gesture]. unfold onPointerMove.
    destruct (pointerStartRef (gesture (inst w))) as [[startX startY]|]; [|exact Hone].
    destruct (negb (dismissible p)); [exact Hone|].
    destruct highlighted; [exact Hone|].
    cbn [swipeAmountX swipeAmountY]. apply swipeAmountFor_one_axis.
  - unfold onPointerUp, call_optional. break_conditions; first [exact Hone | now left].
  - exact Hone.
  - unfold onCloseClick, call_optional. break_conditions; exact Hone.
  - unfold onCancelClick. break_conditions; exact Hone.
  - unfold onActionClick. break_conditions; exact Hone.
Qed.

Lemma step_keeps_axis (p : Props) (now : Z) (e : Event) (w : World) (a : Axis) :
  keepsAxis e = true ->
  swipeDirection (gesture (inst w)) = Some a ->
  swipeDirection (gesture (inst (step p now e w))) = Some a.
Proof.
  intros He Hlock. unfold step. destruct (disposed (inst w)); [exact Hlock|].
  destruct e; try discriminate He.
  - exact Hlock.
  - unfold autoCloseTimeout, call_optional. break_conditions; exact Hlock.
  - unfold deleteEffect. break_conditions; exact Hlock.
  - unfold unmount. break_conditions; exact Hlock.
  - exact Hlock.
  - break_conditions; exact Hlock.
  - break_conditions; exact Hlock.
  - unfold onPointerDown. break_conditions; exact Hlock.
  - cbn [upd_inst inst set_gesture gesture]. unfold onPointerMove.
    destruct (pointerStartRef (gesture (inst w))) as [[startX startY]|]; [|exact Hlock].
    destruct (negb (dismissible p)); [exact Hlock|].
    destruct highlighted; [exact Hlock|].
    cbn [swipeDirection]. now rewrite Hlock.
  - unfold onCloseClick, call_optional. break_conditions; exact Hlock.
  - unfold onCancelClick. break_conditions; exact Hlock.
  - unfold onActionClick. break_conditions; exact Hlock.
Qed.

(** X16.  A toast moves along one axis at a time.  Whatever has happened
    since it was created, one of the two swipe amounts is zero; and an
    axis, once locked, stays locked until the pointer goes up or the
    drag ends, wherever the pointer moves in between. *)
Theorem toast_moves_along_one_axis :
  (forall (hist : list Stamped) (p0 : Props) (hs : list HeightT),
      swipeAmountX (gesture (inst (run hist (mkWorld hs (initialInst p0))))) = 0%Q
      \/ swipeAmountY (gesture (inst (run hist (mkWorld hs (initialInst p0))))) = 0%Q)
  /\ (forall (hist : list Stamped) (w : World) (a : Axis),
         Forall (fun s => keepsAxis (snd s) = true) hist ->
         swipeDirection (gesture (inst w)) = Some a ->
         swipeDirection (gesture (inst (run hist w))) = Some a
         /\ (a = AxisX -> swipeAmountY (gesture (inst w)) = 0%Q ->
             swipeAmountY (gesture (inst (run hist w))) = 0%Q)
         /\ (a = AxisY -> swipeAmountX (gesture (inst w)) = 0%Q ->
             swipeAmountX (gesture (inst (run hist w))) = 0%Q)).
Proof.
  split.
  - intros hist p0 hs.
    apply (run_preserves
             (fun w => swipeAmountX (gesture (inst w)) = 0%Q
                       \/ swipeAmountY (gesture (inst w)) = 0%Q)
             (fun _ => True)).
    + intros p now e w _. apply step_one_axis.
    + apply Forall_forall. trivial.
    + now left.
  - intros hist w a Hhist Hlock.
    apply (run_preserves
             (fun w' => swipeDirection (gesture (inst w')) = Some a
                        /\ (a = AxisX -> swipeAmountY (gesture (inst w)) = 0%Q ->
                            swipeAmountY (gesture (inst w')) = 0%Q)
                        /\ (a = AxisY -> swipeAmountX (gesture (inst w)) = 0%Q ->
                            swipeAmountX (gesture (inst w')) = 0%Q))
             (fun s => keepsAxis (snd s) = true)); [| exact Hhist | now repeat split].
    intros p now e w' He (Hl & Hx & Hy).
    split; [now apply step_keeps_axis|].
    clear Hhist. unfold step. destruct (disposed (inst w')); [now split|].
    destruct e; try discriminate He; cbn [snd] in *;
      try (split; assumption).
    + unfold autoCloseTimeout, call_optional. break_conditions; split; assumption.
    + unfold deleteEffect. break_conditions; split; assumption.
    + unfold unmount. break_conditions; split; assumption.
    + break_conditions; split; assumption.
    + break_conditions; split; assumption.
    + unfold onPointerDown. break_conditions; split; assumption.
    + cbn [upd_inst inst set_gesture gesture]. unfold onPointerMove.
      destruct (pointerStartRef (gesture (inst w'))) as [[startX startY]|];
        [|split; assumption].
      destruct (negb (dismissible p)); [split; assumption|].
      destruct highlighted; [split; assumption|].
      cbn [swipeAmountX swipeAmountY]. rewrite Hl. cbn [lockAxis].
      split; intros -> _; reflexivity.
    + unfold onCloseClick, call_optional. break_conditions; split; assumption.
    + unfold onCancelClick. break_conditions; split; assumption.
    + unfold onActionClick. break_conditions; split; assumption.
Qed.

(** In the drag of the sample toast the axis stays horizontal when the
    pointer then goes 300 pixels down. *)
Lemma toast_moves_along_one_axis_witness :
  swipeDirection (gesture (inst (run [(Sample.running, 1150, PointerMove 70 310 false)]
                                   Sample.dragged)))
  = Some AxisX.
Proof.
  apply (proj1 (proj2 toast_moves_along_one_axis
                  [(Sample.running, 1150, PointerMove 70 310 false)]
                  Sample.dragged AxisX
                  ltac:(apply List.Forall_cons; [reflexivity | apply List.Forall_nil])
                  eq_refl)).
Defined.

(** ** The attention of the list *)

Lemma listStep_interacting (ev : ListEvent) (a : Attention) :
  pointerStaysDown ev = true -> att_interacting a = true ->
  att_interacting (listStep ev a) = true.
Proof.
  intros Hev Ha. destruct ev; try discriminate Hev; cbn [listStep];
    break_conditions; cbn [att_interacting]; try assumption; reflexivity.
Qed.

Lemma listStep_expanded (ev : ListEvent) (a : Attention) :
  mouseOrPointerDown ev = true ->
  att_interacting a = true -> att_expanded a = true ->
  att_expanded (listStep ev a) = true.
Proof.
  intros Hev Hi He. destruct ev; try discriminate Hev; cbn [listStep];
    try rewrite Hi; cbn [negb]; break_conditions; cbn [att_expanded];
    try assumption; reflexivity.
Qed.

Lemma listRun_interacting (evs : list ListEvent) (a : Attention) :
  forallb pointerStaysDown evs = true -> att_interacting a = true ->
  att_interacting (listRun evs a) = true
  /\ (forallb mouseOrPointerDown evs = true -> att_expanded a = true ->
      att_expanded (listRun evs a) = true).
Proof.
  revert a. induction evs as [|ev evs IH]; intros a Hevs Ha; [now split|].
  cbn [forallb] in Hevs. apply andb_true_iff in Hevs as [Hev Hevs].
  cbn [listRun fold_left].
  destruct (IH (listStep ev a) Hevs (listStep_interacting ev a Hev Ha)) as [Hi Hexp].
  split; [exact Hi|]. intros Hmouse He.
  cbn [forallb] in Hmouse. apply andb_true_iff in Hmouse as [Hm Hmouse].
  apply Hexp; [exact Hmouse|]. now apply listStep_expanded.
Qed.

(** X17.  While the pointer is down on the list no toast expires.  From
    a pointer-down on a toast that can be dismissed until the pointer
    goes up, whatever else the list receives, [interacting] holds, so
    the timer effect of every toast of the list pauses and leaves no
    timeout pending; and when the list was expanded, the mouse leaving
    it does not collapse it in the meantime.  Once the pointer is up and
    the mouse has left, the timers are held by a hidden document only. *)
Theorem pointer_down_holds_every_timer :
  forall (evs : list ListEvent) (a : Attention),
    forallb pointerStaysDown evs = true ->
    att_interacting (listRun evs (listStep (ListPointerDown false) a)) = true
    /\ (forall (p : Props) (now : Z) (t : TimerState),
           paused (attending (listRun evs (listStep (ListPointerDown false) a)) p) = true
           /\ timeoutId (timerEffect
                           (attending (listRun evs (listStep (ListPointerDown false) a)) p)
                           now t) = None)
    /\ (forallb mouseOrPointerDown evs = true -> att_expanded a = true ->
        att_expanded (listRun evs (listStep (ListPointerDown false) a)) = true)
    /\ (forall (p : Props),
           paused (attending
                     (listStep MouseLeave
                        (listStep ListPointerUp
                           (listRun evs (listStep (ListPointerDown false) a)))) p)
           = documentHidden p).
Proof.
  intros evs a Hevs.
  destruct (listRun_interacting evs (listStep (ListPointerDown false) a) Hevs eq_refl)
    as [Hi Hexp].
  split; [exact Hi|]. split; [|split; [exact Hexp|]].
  - intros p now t.
    assert (Hp : paused (attending (listRun evs (listStep (ListPointerDown false) a)) p)
                 = true).
    { unfold paused, attending. cbn [expanded interacting documentHidden].
      rewrite Hi. now rewrite orb_true_r. }
    split; [exact Hp|]. now apply timerEffect_held.
  - intros p. cbn [listStep att_interacting att_expanded negb].
    unfold paused, attending. reflexivity.
Qed.

(** The mouse leaves the list and comes back while the pointer is
    down. *)
Lemma pointer_down_holds_every_timer_witness :
  att_interacting
    (listRun [MouseLeave; MouseEnter; ToastCount 1]
       (listStep (ListPointerDown false) (mkAttention true false)))
  = true.
Proof.
  apply (proj1 (pointer_down_holds_every_timer [MouseLeave; MouseEnter; ToastCount 1]
                  (mkAttention true false) eq_refl)).
Defined.

(** ** Focus *)

Lemma focusStep_inside (ev : FocusEvent) (f : FocusState) :
  staysInside ev = true -> isFocusWithinRef f = true -> focusStep ev f = f.
Proof.
  intros Hev Hf. destruct ev as [nd rt|inside|]; try discriminate Hev; cbn [focusStep].
  - rewrite Hf. now destruct nd.
  - cbn in Hev. subst inside. now rewrite Hf.
Qed.

Lemma focusRun_inside (evs : list FocusEvent) (f : FocusState) :
  forallb staysInside evs = true -> isFocusWithinRef f = true -> focusRun evs f = f.
Proof.
  revert f. induction evs as [|ev evs IH]; intros f Hevs Hf; [reflexivity|].
  cbn [forallb] in Hevs. apply andb_true_iff in Hevs as [Hev Hevs].
  cbn [focusRun fold_left]. rewrite (focusStep_inside ev f Hev Hf). now apply IH.
Qed.

Lemma focusRun_app (evs1 evs2 : list FocusEvent) (f : FocusState) :
  focusRun (evs1 ++ evs2) f = focusRun evs2 (focusRun evs1 f).
Proof. unfold focusRun. apply fold_left_app. Qed.

Lemma focusStep_invariant (ev : FocusEvent) (f : FocusState) :
  (isFocusWithinRef f = false -> lastFocusedElementRef f = None) ->
  isFocusWithinRef (focusStep ev f) = false ->
  lastFocusedElementRef (focusStep ev f) = None.
Proof.
  intros Hinv. destruct ev as [nd rt|inside|]; cbn [focusStep].
  - destruct nd; [exact Hinv|].
    destruct (isFocusWithinRef f) eqn:Hf; cbn [negb]; [|discriminate].
    intros H. rewrite Hf in H. discriminate.
  - destruct (isFocusWithinRef f && negb inside) eqn:Hb; [|exact Hinv].
    destruct (lastFocusedElementRef f); reflexivity.
  - destruct (lastFocusedElementRef f) eqn:Hl; [reflexivity|]. intros _. exact Hl.
Qed.



(** ** Class names *)

Lemma string_append_assoc (a b c : string) :
  String.append (String.append a b) c = String.append a (String.append b c).
Proof.
  induction a as [|ch a IH]; [reflexivity|].
  change (String ch (String.append (String.append a b) c)
          = String ch (String.append a (String.append b c))).
  now rewrite IH.
Qed.

Lemma string_append_empty (a b : string) :
  String.append a b = EmptyString -> a = EmptyString.
Proof. destruct a; [reflexivity | discriminate]. Qed.

Lemma join_cons (sep x : string) (l : list string) :
  l <> [] -> join sep (x :: l) = String.append x (String.append sep (join sep l)).
Proof. destruct l; [congruence | reflexivity]. Qed.

Lemma join_app (sep : string) (l1 l2 : list string) :
  l1 <> [] -> l2 <> [] ->
  join sep (l1 ++ l2)
  = String.append (join sep l1) (String.append sep (join sep l2)).
Proof.
  intros H1 H2. induction l1 as [|x l1 IH]; [congruence|].
  destruct l1 as [|y l1].
  - cbn [app]. now apply join_cons.
  - change ((x :: y :: l1) ++ l2) with (x :: ((y :: l1) ++ l2)).
    rewrite join_cons by discriminate. rewrite IH by discriminate.
    rewrite (join_cons sep x (y :: l1)) by discriminate.
    now rewrite !string_append_assoc.
Qed.

Lemma truthyClasses_app (a b : list (option string)) :
  truthyClasses (a ++ b) = truthyClasses a ++ truthyClasses b.
Proof.
  induction a as [|[c|] a IH]; cbn [app truthyClasses]; [reflexivity| |exact IH].
  destruct (String.eqb c ""); [exact IH | now rewrite IH].
Qed.

Lemma truthyClasses_truthy (a : list (option string)) :
  List.Forall (fun c => c <> EmptyString) (truthyClasses a).
Proof.
  induction a as [|[c|] a IH]; cbn [truthyClasses]; [constructor| |exact IH].
  destruct (String.eqb_spec c ""); [exact IH | now constructor].
Qed.

Lemma join_empty (sep : string) (l : list string) :
  List.Forall (fun c => c <> EmptyString) l -> join sep l = EmptyString -> l = [].
Proof.
  intros Hall Hjoin. destruct l as [|x l]; [reflexivity|]. exfalso.
  inversion Hall as [|? ? Hx _]; subst. apply Hx.
  destruct l; [exact Hjoin | now apply string_append_empty in Hjoin].
Qed.

Lemma cn_empty (a : list (option string)) :
  cn a = EmptyString <-> truthyClasses a = [].
Proof.
  unfold cn. split.
  - apply join_empty, truthyClasses_truthy.
  - now intros ->.
Qed.

(** X19.  Class names can be put together in groups: joining the joined
    names of two groups is joining the names of both, with one space
    between any two names and none before or after, since [undefined]
    and empty names are dropped; and the result is empty exactly when
    there is no name to keep. *)
Theorem cn_of_groups :
  forall (a b : list (option string)),
    cn [Some (cn a); Some (cn b)] = cn (a ++ b)
    /\ (cn a = EmptyString <-> truthyClasses a = [])
    /\ cn (None :: a) = cn a
    /\ cn (Some EmptyString :: a) = cn a
    /\ cn (a ++ [None]) = cn a.
Proof.
  intros a b. split; [|split; [apply cn_empty|split; [reflexivity|split; [reflexivity|]]]].
  - unfold cn at 1. cbn [truthyClasses].
    destruct (String.eqb_spec (cn a) "") as [Ha|Ha];
      destruct (String.eqb_spec (cn b) "") as [Hb|Hb].
    + apply cn_empty in Ha, Hb. unfold cn. now rewrite truthyClasses_app, Ha, Hb.
    + apply cn_empty in Ha. unfold cn. now rewrite truthyClasses_app, Ha.
    + apply cn_empty in Hb. unfold cn. now rewrite truthyClasses_app, Hb, app_nil_r.
    + unfold cn at 3. rewrite truthyClasses_app, join_app.
      * reflexivity.
      * intros H. apply Ha. now apply cn_empty.
      * intros H. apply Hb. now apply cn_empty.
  - unfold cn. now rewrite truthyClasses_app, app_nil_r.
Qed.

(** ** The offsets of the [Toaster] *)

Lemma assignOne_dom (isMobile : bool) (offset : option Offset)
    (styles : gmap string CssValue) :
  dom (assignOne isMobile offset styles)
  = (list_to_set (map (offsetProperty (if isMobile then "--mobile-offset" else "--offset"))
                      offsetSides) : gset string) ∪ dom styles.
Proof.
  unfold assignOne, offsetSides.
  destruct offset as [[v|onTop onRight onBottom onLeft]|];
    cbn [fold_left map list_to_set]; rewrite !dom_insert_L;
    apply set_eq; intros k; rewrite !elem_of_union, !elem_of_singleton, elem_of_empty;
    tauto.
Qed.

(** X20.  The two offsets do not mix.  Whatever [offset] and
    [mobileOffset] are, the styles have the eight custom properties and
    no other; a property [--offset-*] is what [offset] alone gives and a
    property [--mobile-offset-*] what [mobileOffset] alone gives.  One
    value, a number as pixels, goes to all four sides, a missing offset
    gives the default on all four (24px, on mobile 16px), and an object
    gives each side its own value, or the default where it has none. *)
Theorem offsets_do_not_mix :
  forall (defaultOffset mobileOffset : option Offset),
    dom (assignOffset defaultOffset mobileOffset)
    = (list_to_set (map (offsetProperty "--offset") offsetSides
                    ++ map (offsetProperty "--mobile-offset") offsetSides) : gset string)
    /\ (forall key, In key offsetSides ->
          assignOffset defaultOffset mobileOffset !! offsetProperty "--offset" key
          = assignOne false defaultOffset ∅ !! offsetProperty "--offset" key
          /\ assignOffset defaultOffset mobileOffset !! offsetProperty "--mobile-offset" key
             = assignOne true mobileOffset ∅ !! offsetProperty "--mobile-offset" key)
    /\ (forall (isMobile : bool) (key : string), In key offsetSides ->
          let prefix := if isMobile then "--mobile-offset"%string else "--offset"%string in
          let defaultValue := if isMobile then MOBILE_VIEWPORT_OFFSET else VIEWPORT_OFFSET in
          (forall v, assignOne isMobile (Some (OffsetAll v)) ∅ !! offsetProperty prefix key
                     = Some (cssOf v))
          /\ assignOne isMobile None ∅ !! offsetProperty prefix key
             = Some (Css defaultValue)
          /\ (forall onTop onRight onBottom onLeft,
                 assignOne isMobile (Some (OffsetSides onTop onRight onBottom onLeft)) ∅
                   !! offsetProperty prefix key
                 = Some (match sideOf onTop onRight onBottom onLeft key with
                         | Some v => cssOf v
                         | None => Css defaultValue
                         end))).
Proof.
  intros defaultOffset mobileOffset. split; [|split].
  - unfold assignOffset.
    etrans; [apply (assignOne_dom true)|].
    apply set_eq; intros k.
    rewrite elem_of_union, (assignOne_dom false), elem_of_union, dom_empty_L.
    rewrite !elem_of_list_to_set, elem_of_app, elem_of_empty. tauto.
  - intros key Hin. cbn in Hin.
    destruct Hin as [<-|[<-|[<-|[<-|[]]]]];
      (split;
       destruct defaultOffset as [[v|onTop onRight onBottom onLeft]|];
       destruct mobileOffset as [[v'|onTop' onRight' onBottom' onLeft']|];
       vm_compute; reflexivity).
  - intros isMobile key Hin. cbn in Hin.
    destruct Hin as [<-|[<-|[<-|[<-|[]]]]];
      (destruct isMobile; cbv zeta; (split; [|split]); intros; vm_compute; reflexivity).
Qed.

(** An offset of 32 pixels on the desktop and none on mobile. *)
Lemma offsets_do_not_mix_witness :
  assignOffset (Some (OffsetAll (OffsetNumber 32))) None !! offsetProperty "--offset" "top"
  = assignOne false (Some (OffsetAll (OffsetNumber 32))) ∅ !! offsetProperty "--offset" "top".
Proof.
  apply (proj1 (proj2 (offsets_do_not_mix (Some (OffsetAll (OffsetNumber 32))) None))
           "top"%string).
  simpl. now left.
Defined.

(** ** The direction of a list *)

Lemma getDocumentDirection_not_auto (env : DocumentEnv) :
  computedDirection env <> "auto"%string -> getDocumentDirection env <> "auto"%string.
Proof.
  intros Hcomputed. unfold getDocumentDirection.
  destruct (hasWindow env); cbn [negb]; [|discriminate].
  destruct (hasDocument env); cbn [negb]; [|discriminate].
  destruct (dirAttribute env) as [d|]; [|exact Hcomputed].
  destruct (String.eqb_spec d "auto") as [->|Hd]; cbn [orb]; [exact Hcomputed|].
  now destruct (String.eqb d "").
Qed.

(** X21.  A list is never given the direction [auto].  The computed
    direction of a document is not [auto]; then neither is what
    [getDocumentDirection] returns, whatever the [dir] attribute of the
    document is, and neither is the [dir] of a list, whatever the [dir]
    of the [Toaster] is: [auto] is resolved against the document, any
    other value is passed on as it is, and without a window or a
    document the direction is [ltr]. *)
Theorem list_direction_is_never_auto :
  forall (dirProp : option string) (env : DocumentEnv),
    computedDirection env <> "auto"%string ->
    getDocumentDirection env <> "auto"%string
    /\ listDir dirProp env <> "auto"%string
    /\ (forall d, d <> "auto"%string -> listDir (Some d) env = d)
    /\ listDir (Some "auto"%string) env = listDir None env
    /\ (hasWindow env && hasDocument env = false -> listDir None env = "ltr"%string).
Proof.
  intros dirProp env Hcomputed.
  pose proof (getDocumentDirection_not_auto env Hcomputed) as Hdoc.
  assert (Hnone : listDir None env = getDocumentDirection env).
  { unfold listDir. now destruct (String.eqb _ "auto"). }
  split; [exact Hdoc|]. split; [|split; [|split]].
  - unfold listDir. destruct dirProp as [d|].
    + destruct (String.eqb_spec d "auto"); assumption.
    + destruct (String.eqb_spec (getDocumentDirection env) "auto"); assumption.
  - intros d Hd. unfold listDir. now destruct (String.eqb_spec d "auto").
  - now rewrite Hnone.
  - intros Hno. rewrite Hnone. unfold getDocumentDirection.
    destruct (hasWindow env); [|reflexivity].
    destruct (hasDocument env); [discriminate | reflexivity].
Qed.

(** A document written from right to left whose [dir] attribute is
    [auto]. *)
Lemma list_direction_is_never_auto_witness :
  listDir (Some "auto"%string) (mkDocumentEnv true true (Some "auto"%string) "rtl")
  <> "auto"%string.
Proof.
  apply (proj1 (proj2 (list_direction_is_never_auto (Some "auto"%string)
                         (mkDocumentEnv true true (Some "auto"%string) "rtl")
                         ltac:(discriminate)))).
Defined.

(** ** A dismissal from end to end *)

Lemma flush_after_dismiss (s : ToasterStore.Store) (id : ToastId) :
  ToasterStore.toasts (ToasterStore.flush (ToasterStore.handler (DismissSignal id) s))
  = ToasterStore.markDeleted id (ToasterStore.toasts (ToasterStore.flush s)).
Proof.
  unfold ToasterStore.flush, ToasterStore.handler.
  cbn [ToasterStore.toasts ToasterStore.frames].
  now rewrite fold_left_app.
Qed.

Lemma deleteToast_no_entry (p : Props) (now : Z) (w : World) :
  ~ In (toast_id (toast p)) (map toastId (heights (deleteToast p now w))).
Proof.
  cbn [deleteToast heights]. intros Hin.
  apply in_map_iff in Hin as (h & Hid & Hh). apply filter_In in Hh as [_ Hh].
  rewrite Hid, id_eqb_refl in Hh. discriminate.
Qed.

Lemma unmount_due (later : Z) (w : World) (at_ : Z) :
  In at_ (unmountTimers (inst w)) -> at_ <= later ->
  disposed (inst (unmount later w)) = true
  /\ timeoutId (timer (inst (unmount later w))) = None
  /\ calls (inst (unmount later w)) = calls (inst w).
Proof.
  intros Hin Hlater. unfold unmount.
  assert (Hdue : existsb (fun at_ => at_ <=? later) (unmountTimers (inst w)) = true).
  { apply existsb_exists. exists at_. split; [exact Hin | now apply Z.leb_le]. }
  rewrite Hdue. repeat split; reflexivity.
Qed.

(** Without its entry a toast has the offset of a toast that was never
    measured. *)
Lemma deleteToast_offset (p : Props) (now : Z) (w : World) :
  (offset p (deleteToast p now w) == - gap p)%Q.
Proof.
  unfold offset. rewrite deleteToast_heights, props_heights_filter.
  apply StackFacts.offset_absent. intros Hin.
  apply in_map_iff in Hin as (h & Hid & Hh). apply filter_In in Hh as [_ Hh].
  rewrite Hid, id_eqb_refl in Hh. discriminate.
Qed.

Lemma deleteEffect_runs (p : Props) (now : Z) (w : World) :
  truthy (get (toast p) "delete") = true ->
  ((offset p w == - gap p)%Q -> deleteEffect p now w = deleteToast p now w)
  /\ (~ (offset p w == - gap p)%Q ->
      deleteEffect p now w = deleteToast p now (deleteToast p now w)).
Proof.
  intros Hflag. unfold deleteEffect. rewrite Hflag. cbv zeta.
  pose proof (deleteToast_offset p now w) as Hgone.
  destruct (Qeq_bool (offset p (deleteToast p now w)) (offset p w)) eqn:Hsame.
  - apply Qeq_bool_iff in Hsame. split; [reflexivity|].
    intros Hne. exfalso. apply Hne. now rewrite <- Hsame.
  - split; [|reflexivity]. intros Heq.
    assert (Htrue : Qeq_bool (offset p (deleteToast p now w)) (offset p w) = true).
    { apply Qeq_bool_iff. now rewrite Hgone, Heq. }
    congruence.
Qed.

(** C7.  The offset kept for the exit does not stay what it was when the
    removal began.  [deleteToast] keeps [offset()] and then takes the
    entry of the toast out of the ledger; a second run keeps the offset
    again, which by then is the one of a toast without an entry, [-gap].
    The delete effect brings the second run about by itself whenever
    taking the entry out changes the offset.  The second toast of a
    stack, 54 pixels up, reports -14 after its dismissal; and a toast
    closed by its button at offset 0 reports -14 once the auto-close
    timeout has run 100 ms later. *)
Theorem C7_exit_offset_overwritten :
  (forall (p : Props) (now now' : Z) (w : World),
      removed (inst (deleteToast p now' (deleteToast p now w))) = true
      /\ (reportedOffset p (deleteToast p now' (deleteToast p now w)) == - gap p)%Q)
  /\ (forall (p : Props) (now : Z) (w : World),
         disposed (inst w) = false ->
         truthy (get (toast p) "delete") = true ->
         ~ (offset p w == - gap p)%Q ->
         removed (inst (step p now DeleteEffect w)) = true
         /\ (reportedOffset p (step p now DeleteEffect w) == - gap p)%Q
         /\ ~ (reportedOffset p (step p now DeleteEffect w) == offset p w)%Q)
  /\ (Qeq (offset Sample.dismissed Sample.stacked) 54%Q
      /\ removed (inst (step Sample.dismissed 2000 DeleteEffect Sample.stacked)) = true
      /\ Qeq (reportedOffset Sample.dismissed
                (step Sample.dismissed 2000 DeleteEffect Sample.stacked))
             (-14)%Q)
  /\ (removed (inst (run [(Sample.running, 1000, TimerEffect);
                          (Sample.running, 4900, CloseClick)] Sample.mounted)) = true
      /\ Qeq (reportedOffset Sample.running
                (run [(Sample.running, 1000, TimerEffect);
                      (Sample.running, 4900, CloseClick)] Sample.mounted))
             0%Q
      /\ Qeq (reportedOffset Sample.running
                (run [(Sample.running, 1000, TimerEffect);
                      (Sample.running, 4900, CloseClick);
                      (Sample.running, 5000, AutoCloseTimeout)] Sample.mounted))
             (-14)%Q).
Proof.
  assert (Htwice : forall (p : Props) (now now' : Z) (w : World),
             removed (inst (deleteToast p now' (deleteToast p now w))) = true
             /\ (reportedOffset p (deleteToast p now' (deleteToast p now w))
                 == - gap p)%Q).
  { intros p now now' w. split; [reflexivity|].
    unfold reportedOffset. cbn [deleteToast inst removed offsetBeforeRemove].
    apply deleteToast_offset. }
  split; [exact Htwice|]. split; [|split].
  - intros p now w Hdisp Hflag Hne.
    assert (Hstep : step p now DeleteEffect w
                    = deleteToast p now (deleteToast p now w)).
    { unfold step. rewrite Hdisp.
      exact (proj2 (deleteEffect_runs p now w Hflag) Hne). }
    rewrite Hstep. destruct (Htwice p now now w) as [Hremoved Hoff].
    split; [exact Hremoved|]. split; [exact Hoff|].
    intros Heq. apply Hne. now rewrite <- Heq, Hoff.
  - split; [reflexivity|]. split; reflexivity.
  - split; [reflexivity|]. split; reflexivity.
Qed.

(** The second toast of the stack is dismissed by the application. *)
Lemma C7_exit_offset_overwritten_witness :
  Qeq (reportedOffset Sample.dismissed
         (step Sample.dismissed 2000 DeleteEffect Sample.stacked))
      (- gap Sample.dismissed)%Q.
Proof.
  refine (proj1 (proj2 (proj1 (proj2 C7_exit_offset_overwritten)
                          Sample.dismissed 2000 Sample.stacked eq_refl eq_refl _))).
  vm_compute. discriminate.
Defined.

(** X22.  A dismissal from end to end.  At the animation frame after the
    tombstone of an id every toast of the id in the store carries
    [delete]; the effect of its component then begins the removal and
    takes its entry out of the ledger, calling nothing of the caller,
    and the unmount 200 milliseconds later disposes the component with
    no timeout left.  When taking the entry out changes the offset of
    the toast, that is when the offset was not already the one of a
    toast without an entry, the effect runs [deleteToast] twice: the
    offset kept for the exit is the one without an entry, not the one
    the toast had, and two [removeToast] timeouts are set.  The first
    [removeToast] takes the toast out of the store and tells the
    registry nothing; a second one finds no toast of the id and hands
    the id to [ToastState.dismiss]. *)
Theorem dismissal_from_end_to_end :
  (forall (s : ToasterStore.Store) (id : ToastId),
      In id (map toast_id (ToasterStore.toasts s)) ->
      exists t',
        findToast id (ToasterStore.toasts
                        (ToasterStore.flush (ToasterStore.handler (DismissSignal id) s)))
        = Some t')
  /\ (forall (s : ToasterStore.Store) (id : ToastId) (t' : ToastT) (p : Props)
             (now later : Z) (w : World),
         findToast id (ToasterStore.toasts
                         (ToasterStore.flush (ToasterStore.handler (DismissSignal id) s)))
         = Some t' ->
         toast p = t' ->
         disposed (inst w) = false ->
         now + TIME_BEFORE_UNMOUNT <= later ->
         truthy (get t' "delete") = true
         /\ removed (inst (step p now DeleteEffect w)) = true
         /\ ~ In id (map toastId (heights (step p now DeleteEffect w)))
         /\ calls (inst (step p now DeleteEffect w)) = calls (inst w)
         /\ disposed (inst (step p later Unmount (step p now DeleteEffect w))) = true
         /\ timeoutId (timer (inst (step p later Unmount (step p now DeleteEffect w))))
            = None
         /\ calls (inst (step p later Unmount (step p now DeleteEffect w)))
            = calls (inst w)
         /\ ((offset p w == - gap p)%Q ->
             offsetBeforeRemove (inst (step p now DeleteEffect w)) = offset p w
             /\ unmountTimers (inst (step p now DeleteEffect w))
                = unmountTimers (inst w) ++ [now + TIME_BEFORE_UNMOUNT])
         /\ (~ (offset p w == - gap p)%Q ->
             (offsetBeforeRemove (inst (step p now DeleteEffect w)) == - gap p)%Q
             /\ ~ (offsetBeforeRemove (inst (step p now DeleteEffect w)) == offset p w)%Q
             /\ unmountTimers (inst (step p now DeleteEffect w))
                = unmountTimers (inst w)
                  ++ [now + TIME_BEFORE_UNMOUNT; now + TIME_BEFORE_UNMOUNT])
         /\ snd (removeToast t'
                   (ToasterStore.toasts
                      (ToasterStore.flush (ToasterStore.handler (DismissSignal id) s))))
            = []
         /\ ~ In id (map toast_id
                       (fst (removeToast t'
                               (ToasterStore.toasts
                                  (ToasterStore.flush
                                     (ToasterStore.handler (DismissSignal id) s))))))
         /\ snd (removeToast t'
                   (fst (removeToast t'
                           (ToasterStore.toasts
                              (ToasterStore.flush
                                 (ToasterStore.handler (DismissSignal id) s))))))
            = [id]).
Proof.
  split.
  - intros s id Hin. rewrite flush_after_dismiss.
    pose proof (findToast_spec id
                  (ToasterStore.markDeleted id
                     (ToasterStore.toasts (ToasterStore.flush s)))) as Hfind.
    destruct (findToast _ _) as [t'|]; [now exists t'|].
    exfalso. apply Hfind. now rewrite markDeleted_ids, store_flush_ids.
  - intros s id t' p now later w Hfind Hp Hdisp Hlater.
    rewrite flush_after_dismiss in *.
    pose proof (findToast_spec id
                  (ToasterStore.markDeleted id
                     (ToasterStore.toasts (ToasterStore.flush s)))) as Hspec.
    rewrite Hfind in Hspec. destruct Hspec as [Hin Hid].
    assert (Hflag : truthy (get t' "delete") = true)
      by exact (markDeleted_flags id _ t' Hin Hid).
    assert (Hflag' : truthy (get (toast p) "delete") = true) by now rewrite Hp.
    assert (Hstep : step p now DeleteEffect w = deleteEffect p now w).
    { unfold step. now rewrite Hdisp. }
    destruct (deleteEffect_runs p now w Hflag') as [Honce Htwice].
    assert (Hgone : ~ In (toast_id t') (map toast_id
                       (fst (removeToast t'
                               (ToasterStore.markDeleted id
                                  (ToasterStore.toasts (ToasterStore.flush s))))))).
    { cbn [removeToast fst]. intros Hin'.
      apply in_map_iff in Hin' as (t0 & Hid0 & Ht0).
      apply filter_In in Ht0 as [_ Ht0]. rewrite Hid0, id_eqb_refl in Ht0. discriminate. }
    assert (Hcommon :
              removed (inst (deleteEffect p now w)) = true
              /\ ~ In id (map toastId (heights (deleteEffect p now w)))
              /\ calls (inst (deleteEffect p now w)) = calls (inst w)
              /\ disposed (inst (deleteEffect p now w)) = false
              /\ In (now + TIME_BEFORE_UNMOUNT)
                    (unmountTimers (inst (deleteEffect p now w)))).
    { rewrite <- Hid, <- Hp.
      destruct (Qeq_dec (offset p w) (- gap p)) as [Heq|Hne].
      - rewrite (Honce Heq). split; [reflexivity|].
        split; [apply deleteToast_no_entry|]. split; [reflexivity|].
        split; [exact Hdisp|]. cbn. apply in_or_app. right. now left.
      - rewrite (Htwice Hne). split; [reflexivity|].
        split; [apply deleteToast_no_entry|]. split; [reflexivity|].
        split; [exact Hdisp|]. cbn. apply in_or_app. right. now left. }
    destruct Hcommon as (Hremoved & Hentry & Hcalls & Hdisp' & Htimer).
    assert (Hunmount : step p later Unmount (deleteEffect p now w)
                       = unmount later (deleteEffect p now w)).
    { unfold step. now rewrite Hdisp'. }
    rewrite Hstep, Hunmount.
    destruct (unmount_due later (deleteEffect p now w) _ Htimer Hlater)
      as (Hdisposed & Hnone & Hcalls').
    split; [exact Hflag|]. split; [exact Hremoved|]. split; [exact Hentry|].
    split; [exact Hcalls|]. split; [exact Hdisposed|]. split; [exact Hnone|].
    split; [now rewrite Hcalls'|].
    split; [intros Heq; rewrite (Honce Heq); split; reflexivity|].
    split.
    { intros Hne. rewrite (Htwice Hne).
      cbn [deleteToast inst offsetBeforeRemove unmountTimers].
      pose proof (deleteToast_offset p now w) as Hoff.
      split; [exact Hoff|]. split.
      - intros Heq. apply Hne. now rewrite <- Heq, Hoff.
      - now rewrite <- app_assoc. }
    split; [unfold removeToast; cbn [snd]; now rewrite Hid, Hfind, Hflag|].
    split; [pose proof Hgone as Hgone'; rewrite Hid in Hgone'; exact Hgone'|].
    set (rest := fst (removeToast t'
                        (ToasterStore.markDeleted id
                           (ToasterStore.toasts (ToasterStore.flush s))))) in *.
    pose proof (findToast_spec (toast_id t') rest) as Hspec.
    unfold removeToast. cbn [snd].
    destruct (findToast (toast_id t') rest) as [t0|].
    + exfalso. apply Hgone. destruct Hspec as [Ht0 Hid0].
      rewrite <- Hid0. now apply in_map.
    + now rewrite Hid.
Qed.

(** The second toast of the stack, which stands 54 pixels up, is
    dismissed by the application: two timeouts are set for 2200. *)
Lemma dismissal_from_end_to_end_witness :
  unmountTimers (inst (step Sample.dismissed 2000 DeleteEffect Sample.stacked))
  = [2000 + TIME_BEFORE_UNMOUNT; 2000 + TIME_BEFORE_UNMOUNT].
Proof.
  refine (proj2 (proj2 (proj1 (proj2 (proj2 (proj2 (proj2 (proj2 (proj2 (proj2 (proj2
            (proj2 dismissal_from_end_to_end
               (ToasterStore.mkStore [toast Sample.second] []) (IdNum 2)
               (toast Sample.dismissed) Sample.dismissed 2000 2200 Sample.stacked
               eq_refl eq_refl eq_refl _))))))))) _))).
  - vm_compute. discriminate.
  - vm_compute. discriminate.
Defined.
